(** * Folder synchronization tool: a shallow embedding of [utils.py] and
      [main.py], and the properties of its specification.

    The filesystem is an explicit state (a finite map from absolute paths to
    nodes), the logger is an explicit list of records, Python exceptions are
    values of an error monad, and the worker pool of [process_with_threads]
    is a scheduler over the per-entry loop bodies of the two thread targets.

    What the filesystem of this development covers, and what it leaves out:
    - a tree is made of directories and regular files; symbolic links,
      through which [is_dir], [iterdir] and [open] reach other paths, are
      not part of it;
    - the tests [exists], [is_file] and [is_dir] answer; an error of [stat]
      other than ENOENT and ENOTDIR (EACCES below a directory that cannot
      be searched), which [pathlib] raises, is not part of it;
    - a write to an open file succeeds, and [glob] reads every directory;
    - nothing but the program changes the tree while it runs.
    Where a property depends on one of these, its hypotheses say so: a
    replica root without entries (no link to write or delete through),
    nothing refused at or below a root (the tests answer, every directory
    can be read), or a log without WARNING and ERROR records (no write
    failed, no deletion went through a link to a directory). *)

From stdpp Require Import base tactics option list numbers strings gmap fin_maps sorting.
From Stdlib Require Import Strings.Byte.


(** ** Partitioning ([utils.py], [chunk_list]) *)

Module Chunks.

Section Slicing.
Context {A : Type}.

(** Number of items of a slice [[start::step]] of [n] items:
    [ceil((n - start) / step)]. *)
Definition slice_len (n start step : nat) : nat :=
  (n - start + (step - 1)) / step.

(** The extended slice [sq[start::step]] for [step >= 1]: the items of
    [sq] at the indices [start + k * step] below [len(sq)]. *)
Definition slice_step (sq : list A) (start step : nat) : list A :=
  omap (λ k, sq !! (start + k * step))
       (seq 0 (slice_len (length sq) start step)).

(** [return [seq[i::size] for i in range(size)]]; [range(0)] is empty. *)
Definition chunk_list (sq : list A) (size : nat) : list (list A) :=
  (λ i, slice_step sq i size) <$> seq 0 size.
End Slicing.


End Chunks.

(** ** The environment: paths, filesystem, exceptions, logger *)

(** A path is its list of components ([pathlib.Path]): [p ++ q] is [p / q],
    and a root-relative posix string such as [dir1/b.txt] is the component
    list [["dir1"; "b.txt"]]. *)
Abbreviation path := (list string).
Abbreviation bytes := (list byte).

Inductive node :=
  | File (data : bytes)
  | Dir.

(** The filesystem: the nodes by absolute path, and the paths on which the
    operating system refuses [open], [unlink], [rmdir] and [mkdir] with
    EACCES (permissions, immutable attribute, file in use). *)
Record filesystem := FS {
  nodes : gmap path node;
  denied : list path
}.

(** The Python exception classes this program can meet.  All but the last
    are subclasses of [OSError] (of which [IOError] is an alias). *)
Inductive exc :=
  | FileNotFoundError (p : path)
  | NotADirectoryError (p : path)
  | IsADirectoryError (p : path)
  | FileExistsError (p : path)
  | PermissionError (p : path)
  | DirectoryNotEmpty (p : path)      (* OSError(ENOTEMPTY) *)
  | OtherException (what : string).   (* any Exception outside OSError *)

Definition is_FileNotFoundError (e : exc) : bool :=
  match e with FileNotFoundError _ => true | _ => false end.

Definition is_OSError (e : exc) : bool :=
  match e with OtherException _ => false | _ => true end.

Inductive level := INFO | WARNING | ERROR.

(** One constructor per format string passed to the logger. *)
Inductive message :=
  | File_not_found (file_path : path)
  | IOError_checksum (file_path : path) (e : exc)
  | Unexpected_checksum (file_path : path) (e : exc)
  | Created_folder (p : path)
  | Failed_to_create_folder (p : path) (e : exc)
  | Unexpected_create_folder (p : path) (e : exc)
  | File_replaced (dest_file src_file : path)
  | File_copied (src_file dest_file : path)
  | Failed_to_replace (dest_file : path) (e : exc)
  | Failed_to_copy (src_file dest_file : path) (e : exc)
  | Deleted_file (p : path)
  | Deleted_folder (p : path)
  | File_already_deleted (p : path)
  | Folder_already_deleted (p : path)
  | Error_deleting (p : path) (e : exc).

Record world := World {
  fs : filesystem;
  log : list (level * message)
}.

(** ** The monad of the program: state, exceptions, recursion budget *)

Inductive outcome (A : Type) :=
  | Ok (a : A)
  | Raise (e : exc)
  | Diverge.     (* the recursion budget of the model ran out *)
Arguments Ok {A} a.
Arguments Raise {A} e.
Arguments Diverge {A}.

Definition M (A : Type) : Type := world → outcome A * world.

Definition ret {A} (a : A) : M A := λ w, (Ok a, w).

Definition bind {A B} (m : M A) (k : A → M B) : M B :=
  λ w, match m w with
       | (Ok a, w') => k a w'
       | (Raise e, w') => (Raise e, w')
       | (Diverge, w') => (Diverge, w')
       end.

Definition raise {A} (e : exc) : M A := λ w, (Raise e, w).
Definition diverge {A} : M A := λ w, (Diverge, w).

(** [try: body except Exception as e: handler e] *)
Definition try_except {A} (body : M A) (handler : exc → M A) : M A :=
  λ w, match body w with
       | (Raise e, w') => handler e w'
       | r => r
       end.

Declare Scope prog_scope.
Delimit Scope prog_scope with prog.
Bind Scope prog_scope with M.
Notation "x <- m ; k" := (bind m (λ x, k))
  (at level 100, m at next level, k at level 200, right associativity) : prog_scope.
Notation "m ;; k" := (bind m (λ _, k))
  (at level 100, k at level 200, right associativity) : prog_scope.
Open Scope prog_scope.

(** [for x in l: body x] *)
Fixpoint for_each {A} (l : list A) (body : A → M unit) : M unit :=
  match l with
  | [] => ret tt
  | x :: l' => body x ;; for_each l' body
  end.

Definition logger (lv : level) (msg : message) : M unit :=
  λ w, (Ok tt, World (fs w) (log w ++ [(lv, msg)])).

(** ** Filesystem primitives ([pathlib], [os]) *)

Definition parent (p : path) : path := removelast p.

(** The root [[]] always exists and is a directory. *)
Definition node_at (f : filesystem) (p : path) : option node :=
  match p with [] => Some Dir | _ => nodes f !! p end.

Definition is_denied (f : filesystem) (p : path) : bool :=
  bool_decide (p ∈ denied f).

Definition file_at (f : filesystem) (p : path) : bool :=
  match node_at f p with Some (File _) => true | _ => false end.

Definition dir_at (f : filesystem) (p : path) : bool :=
  match node_at f p with Some Dir => true | _ => false end.

(** Some proper ancestor of [p] is a regular file. *)
Definition under_a_file (f : filesystem) (p : path) : bool :=
  existsb (λ k, file_at f (take k p)) (seq 0 (length p)).

(** errno of a path lookup that found nothing: ENOTDIR or ENOENT. *)
Definition missing (f : filesystem) (p : path) : exc :=
  if under_a_file f p then NotADirectoryError p else FileNotFoundError p.

(** [Path.exists], [Path.is_file], [Path.is_dir]: they return [False] on
    ENOENT and ENOTDIR and never raise here ([pathlib] raises the other
    errors of [stat], which this filesystem does not produce). *)
Definition path_exists (p : path) : M bool :=
  λ w, (Ok (bool_decide (is_Some (node_at (fs w) p))), w).

Definition is_file (p : path) : M bool := λ w, (Ok (file_at (fs w) p), w).

Definition is_dir (p : path) : M bool := λ w, (Ok (dir_at (fs w) p), w).

Definition set_nodes (w : world) (m : gmap path node) : world :=
  World (FS m (denied (fs w))) (log w).

(** [p.open('rb')]: the file object is the byte stream still to be read. *)
Definition open_rb (p : path) : M bytes :=
  λ w, match node_at (fs w) p with
       | Some (File data) =>
           if is_denied (fs w) p then (Raise (PermissionError p), w) else (Ok data, w)
       | Some Dir => (Raise (IsADirectoryError p), w)
       | None => (Raise (missing (fs w) p), w)
       end.

(** [f.read(size)]: the next block and the rest of the stream. *)
Fixpoint take_block (size : N) (f : bytes) : bytes :=
  match f with
  | [] => []
  | b :: f' => if (size =? 0)%N then [] else b :: take_block (N.pred size) f'
  end.

Fixpoint drop_block (size : N) (f : bytes) : bytes :=
  match f with
  | [] => []
  | b :: f' => if (size =? 0)%N then f else drop_block (N.pred size) f'
  end.

Definition read (size : N) (f : bytes) : bytes * bytes :=
  (take_block size f, drop_block size f).

(** [p.open('wb')]: creates the file, or truncates it. *)
Definition open_wb (p : path) : M unit :=
  λ w, match node_at (fs w) p with
       | Some Dir => (Raise (IsADirectoryError p), w)
       | Some (File _) =>
           if is_denied (fs w) p then (Raise (PermissionError p), w)
           else (Ok tt, set_nodes w (<[p := File []]> (nodes (fs w))))
       | None =>
           match node_at (fs w) (parent p) with
           | Some Dir =>
               if is_denied (fs w) p then (Raise (PermissionError p), w)
               else (Ok tt, set_nodes w (<[p := File []]> (nodes (fs w))))
           | Some (File _) => (Raise (NotADirectoryError p), w)
           | None => (Raise (missing (fs w) p), w)
           end
       end.

(** [fdest.write(chunk)] on the file opened at [p]: appends the block. *)
Definition write (p : path) (chunk : bytes) : M unit :=
  λ w, (Ok tt,
        set_nodes w (alter (λ n, match n with File data => File (data ++ chunk) | Dir => Dir end)
                           p (nodes (fs w)))).

(** The entries of directory [p], in the order of the underlying map. *)
Definition children (f : filesystem) (p : path) : list path :=
  filter (λ q, q ≠ [] ∧ parent q = p) (map_to_list (nodes f)).*1.

Definition unlink (p : path) : M unit :=
  λ w, match node_at (fs w) p with
       | Some (File _) =>
           if is_denied (fs w) p then (Raise (PermissionError p), w)
           else (Ok tt, set_nodes w (delete p (nodes (fs w))))
       | Some Dir => (Raise (IsADirectoryError p), w)
       | None => (Raise (missing (fs w) p), w)
       end.

Definition rmdir (p : path) : M unit :=
  λ w, match node_at (fs w) p with
       | Some Dir =>
           match children (fs w) p with
           | _ :: _ => (Raise (DirectoryNotEmpty p), w)
           | [] =>
               if is_denied (fs w) p || bool_decide (p = []) then (Raise (PermissionError p), w)
               else (Ok tt, set_nodes w (delete p (nodes (fs w))))
           end
       | Some (File _) => (Raise (NotADirectoryError p), w)
       | None => (Raise (missing (fs w) p), w)
       end.

Definition iterdir (p : path) : M (list path) :=
  λ w, match node_at (fs w) p with
       | Some Dir => (Ok (children (fs w) p), w)
       | Some (File _) => (Raise (NotADirectoryError p), w)
       | None => (Raise (missing (fs w) p), w)
       end.

(** [os.mkdir] *)
Definition os_mkdir (p : path) : M unit :=
  λ w, match node_at (fs w) p with
       | Some _ => (Raise (FileExistsError p), w)
       | None =>
           match node_at (fs w) (parent p) with
           | Some Dir =>
               if is_denied (fs w) p then (Raise (PermissionError p), w)
               else (Ok tt, set_nodes w (<[p := Dir]> (nodes (fs w))))
           | Some (File _) => (Raise (NotADirectoryError p), w)
           | None => (Raise (missing (fs w) p), w)
           end
       end.

(** [Path.mkdir(mode, parents, exist_ok)] as [pathlib] implements it:
    [os.mkdir], and on ENOENT the parent first, then the directory again.
    Each nested call is on a shorter path, so [length p] nested calls are
    enough. *)
Fixpoint mkdir (fuel : nat) (parents exist_ok : bool) (p : path) : M unit :=
  try_except (os_mkdir p) (λ e,
    if is_FileNotFoundError e then
      if negb parents || bool_decide (parent p = p) then raise e
      else match fuel with
           | 0 => diverge
           | S k => mkdir k true true (parent p);; mkdir k false exist_ok p
           end
    else
      d <- is_dir p;
      if negb exist_ok || negb d then raise e else ret tt).

Definition mkdir_parents (p : path) : M unit := mkdir (length p) true true p.

(** The deepest path of the filesystem bounds every recursion over it. *)
Definition depth (f : filesystem) : nat :=
  max_list (length <$> (map_to_list (nodes f)).*1).

(** [root.glob('**/*')]: [pathlib] walks the directories below [root] in
    preorder and lists the entries of each of them. *)
Fixpoint iterate_directories (fuel : nat) (f : filesystem) (d : path) : list path :=
  d :: match fuel with
       | 0 => []
       | S k =>
           concat (iterate_directories k f <$>
                   filter (λ q, dir_at f q) (children f d))
       end.

Definition glob_all (root : path) : M (list path) :=
  λ w, (Ok (concat (children (fs w) <$> iterate_directories (depth (fs w)) (fs w) root)), w).

(** [item.relative_to(root).as_posix()] *)
Definition relative_to (root p : path) : path := drop (length root) p.

(** ** [utils.py] *)

Section Utils.
(** [hashlib.md5]: the digest of a byte string, as a hexadecimal string. *)
Variable md5 : bytes → string.

(** The hash object accumulates what [update] is given. *)
Definition md5_new : bytes := [].
Definition md5_update (h chunk : bytes) : bytes := h ++ chunk.
Definition md5_hexdigest (h : bytes) : string := md5 h.

(** [for chunk in iter(lambda: f.read(4096), b""): md5_hash.update(chunk)] *)
Fixpoint checksum_loop (fuel : nat) (f : bytes) (md5_hash : bytes) : bytes :=
  match fuel with
  | 0 => md5_hash
  | S k =>
      let '(chunk, f') := read 4096 f in
      match chunk with
      | [] => md5_hash
      | _ => checksum_loop k f' (md5_update md5_hash chunk)
      end
  end.

Definition calculate_checksum (file_path : path) : M string :=
  try_except
    (f <- open_rb file_path;
     ret (md5_hexdigest (checksum_loop (S (length f)) f md5_new)))
    (λ e,
       if is_FileNotFoundError e then
         logger ERROR (File_not_found file_path);; raise e
       else if is_OSError e then
         logger ERROR (IOError_checksum file_path e);; raise e
       else
         logger ERROR (Unexpected_checksum file_path e);; raise e).

Definition create_folder (p : path) : M unit :=
  try_except
    (b <- path_exists p;
     if negb b then
       mkdir_parents p;;
       logger INFO (Created_folder p)
     else ret tt)
    (λ e,
       if is_OSError e then
         logger ERROR (Failed_to_create_folder p e);; raise e
       else
         logger ERROR (Unexpected_create_folder p e);; raise e).

(** The [while True] loop of [copy_or_replace_file]. *)
Fixpoint copy_loop (fuel : nat) (chunk_size : N) (fsrc : bytes) (fdest : path) : M unit :=
  match fuel with
  | 0 => ret tt
  | S k =>
      let '(chunk, fsrc') := read chunk_size fsrc in
      match chunk with
      | [] => ret tt
      | _ => write fdest chunk;; copy_loop k chunk_size fsrc' fdest
      end
  end.

Definition copy_or_replace_file (src_file dest_file : path)
    (replace : bool) (chunk_size : N) : M unit :=
  try_except
    (fsrc <- open_rb src_file;
     open_wb dest_file;;
     copy_loop (S (length fsrc)) chunk_size fsrc dest_file;;
     if replace then logger INFO (File_replaced dest_file src_file)
     else logger INFO (File_copied src_file dest_file))
    (λ e,
       if replace then logger ERROR (Failed_to_replace dest_file e)
       else logger ERROR (Failed_to_copy src_file dest_file e)).

Definition default_chunk_size : N := 1024 * 1024.

Definition replicate_file (source_item replica_item : path) : M unit :=
  b <- path_exists replica_item;
  if b then
    checksum_source <- calculate_checksum source_item;
    checksum_replica <- calculate_checksum replica_item;
    if bool_decide (checksum_source ≠ checksum_replica) then
      copy_or_replace_file source_item replica_item true default_chunk_size
    else ret tt
  else
    copy_or_replace_file source_item replica_item false default_chunk_size.

(** The body of the loop over [path.iterdir()]; [delete_path_item] is
    the recursive call [delete_path(item)]. *)
Definition delete_path_entry (delete_path_item : path → M unit) (item : path) : M unit :=
  di <- is_dir item;
  if di then delete_path_item item
  else unlink item.

(** The [try] block of [delete_path]. *)
Definition delete_path_try (delete_path_item : path → M unit) (p : path) : M unit :=
  f <- is_file p;
  if f then
    unlink p;;
    logger INFO (Deleted_file p)
  else
    d <- is_dir p;
    if d then
      items <- iterdir p;
      for_each items (delete_path_entry delete_path_item);;
      rmdir p;;
      logger INFO (Deleted_folder p)
    else ret tt.

(** The two [except] clauses of [delete_path]. *)
Definition delete_path_except (p : path) (e : exc) : M unit :=
  if is_FileNotFoundError e then
    f <- is_file p;
    if f then logger WARNING (File_already_deleted p)
    else
      d <- is_dir p;
      if d then logger WARNING (Folder_already_deleted p)
      else ret tt
  else logger ERROR (Error_deleting p e).

(** [delete_path]; the recursion budget bounds the nesting of the
    directories being deleted. *)
Fixpoint delete_path_rec (fuel : nat) (p : path) : M unit :=
  try_except
    (delete_path_try
       (match fuel with
        | 0 => λ _, diverge
        | S k => delete_path_rec k
        end) p)
    (delete_path_except p).

(** The recursive call, as the [try] block of a call with budget [fuel]
    sees it. *)
Definition delete_path_call (fuel : nat) : path → M unit :=
  match fuel with
  | 0 => λ _, diverge
  | S k => delete_path_rec k
  end.

Definition delete_path (p : path) : M unit :=
  λ w, delete_path_rec (depth (fs w)) p w.

(** What [get_items_chunks] returns: the list of relative paths itself
    when there is one thread, a list of chunks otherwise. *)
Inductive items :=
  | Flat (l : list path)
  | Chunked (cs : list (list path)).

Definition get_items_chunks (source_path : path) (number_of_threads : nat) : M items :=
  source_contents <- glob_all source_path;
  let source_relative_paths := relative_to source_path <$> source_contents in
  if bool_decide (number_of_threads = 1) then ret (Flat source_relative_paths)
  else ret (Chunked (Chunks.chunk_list source_relative_paths number_of_threads)).
End Utils.

(** ** [main.py] *)

Section Main.
Variable md5 : bytes → string.
Variables source_path replica_path : path.

(** The body of the loop of [synchronize_folders].  [with lock] makes the
    call of [replicate_file] atomic with respect to the other holders of
    the lock; a sequential run does not observe it. *)
Definition synchronize_item (item_path : path) : M unit :=
  let item := source_path ++ item_path in
  d <- is_dir item;
  if d then create_folder (replica_path ++ item_path)
  else
    f <- is_file item;
    if f then replicate_file md5 item (replica_path ++ item_path)
    else ret tt.

Definition synchronize_folders (item_list : list path) : M unit :=
  for_each item_list synchronize_item.

(** The body of the loop of [clean_up_replica]. *)
Definition clean_up_item (item_path : path) : M unit :=
  let item := replica_path ++ item_path in
  e <- path_exists (source_path ++ item_path);
  if negb e then delete_path item else ret tt.

Definition clean_up_replica (item_list : list path) : M unit :=
  for_each item_list clean_up_item.

Definition process_without_threads (source_items replica_items : list path) : M unit :=
  synchronize_folders source_items;;
  clean_up_replica replica_items.

(** *** The worker pool of [process_with_threads]

    The main thread is the list of its statements.  Thread objects are
    named by the order in which they are started, so the second batch,
    appended to the list [threads] after it is reset, is joined at the
    indices that follow the first batch. *)
Inductive target := Synchronize_folders | Clean_up_replica.

Inductive action :=
  | Start (tg : target) (chunk : list path)   (* Thread(target, args); t.start() *)
  | Join (i : nat).                           (* t.join() *)

Definition batch (first : nat) (source_items replica_items : list (list path))
    : list action :=
  (Start Synchronize_folders <$> source_items) ++
  (Start Clean_up_replica <$> replica_items) ++
  (Join <$> seq first (length source_items + length replica_items)).

Definition process_with_threads (source_items replica_items : list (list path))
    : list action :=
  batch 0 source_items replica_items ++
  batch (length source_items + length replica_items) source_items replica_items.

(** A started thread: its target and the items of its chunk that its loop
    has not reached yet.  A thread whose target raised has none left. *)
Record thread := Thread { th_target : target; th_todo : list path }.

(** What the scheduler runs next: the main thread's next statement, or the
    next loop iteration of a worker.  Iterations are the unit of
    interleaving: the lock makes [replicate_file] and the check-and-delete
    of [clean_up_replica] exclude one another. *)
Inductive pick := Main | Worker (i : nat).

Inductive pool_event :=
  | Started (i : nat) (tg : target) (chunk : list path)
  | Joined (i : nat)
  | Stepped (i : nat) (tg : target) (item_path : path).

(** The pool: the main thread's program counter, the threads started so
    far, the shared world, and the record of what ran in which order. *)
Record pool := Pool {
  pc : nat;
  threads : list thread;
  pworld : world;
  history : list pool_event
}.

Definition target_item (tg : target) : path → M unit :=
  match tg with
  | Synchronize_folders => synchronize_item
  | Clean_up_replica => clean_up_item
  end.

Definition target_fun (tg : target) : list path → M unit :=
  match tg with
  | Synchronize_folders => synchronize_folders
  | Clean_up_replica => clean_up_replica
  end.

Section Scheduler.
Variable prog : list action.

(** [t.join()] blocks until thread [t] has no iteration left. *)
Definition step (c : pick) (st : pool) : option pool :=
  match c with
  | Main =>
      match prog !! pc st with
      | Some (Start tg chunk) =>
          Some (Pool (S (pc st)) (threads st ++ [Thread tg chunk]) (pworld st)
                     (history st ++ [Started (length (threads st)) tg chunk]))
      | Some (Join i) =>
          match threads st !! i with
          | Some (Thread _ []) =>
              Some (Pool (S (pc st)) (threads st) (pworld st)
                         (history st ++ [Joined i]))
          | _ => None
          end
      | None => None
      end
  | Worker i =>
      match threads st !! i with
      | Some (Thread tg (item_path :: todo)) =>
          let '(r, w') := target_item tg item_path (pworld st) in
          let todo' := match r with Ok _ => todo | _ => [] end in
          Some (Pool (pc st) (<[i := Thread tg todo']> (threads st)) w'
                     (history st ++ [Stepped i tg item_path]))
      | _ => None
      end
  end.

Fixpoint run (sched : list pick) (st : pool) : option pool :=
  match sched with
  | [] => Some st
  | c :: sched' =>
      match step c st with
      | Some st' => run sched' st'
      | None => None
      end
  end.

(** The main thread returns once its last statement has run. *)
Definition returned (st : pool) : Prop := pc st = length prog.
End Scheduler.

Definition spawn (w : world) : pool := Pool 0 [] w [].

(** The worker iterations of a history, in the order they ran. *)
Definition worker_steps (h : list pool_event) : list (nat * target * path) :=
  omap (λ ev, match ev with
              | Stepped i tg item_path => Some (i, tg, item_path)
              | _ => None
              end) h.

(** The threads a history started, in the order they were started. *)
Definition started (h : list pool_event) : list (target * list path) :=
  omap (λ ev, match ev with
              | Started _ tg chunk => Some (tg, chunk)
              | _ => None
              end) h.

(** The threads a list of statements starts. *)
Definition starts_of (l : list action) : list (target * list path) :=
  omap (λ a, match a with Start tg chunk => Some (tg, chunk) | Join _ => None end) l.

(** The threads one batch starts: one [synchronize_folders] per source
    chunk, then one [clean_up_replica] per replica chunk. *)
Definition batch_threads (source_items replica_items : list (list path))
    : list (target * list path) :=
  (pair Synchronize_folders <$> source_items) ++ (pair Clean_up_replica <$> replica_items).

(** The worker iterations [h] fall into those of the threads below [n],
    all first, and those of the threads from [n] on, all after. *)
Definition in_two_batches (n : nat) (h : list (nat * target * path)) : Prop :=
  ∃ h1 h2, h = h1 ++ h2 ∧ Forall (λ s, s.1.1 < n) h1 ∧ Forall (λ s, n ≤ s.1.1) h2.

(** Every iteration of [synchronize_folders] comes before every iteration
    of [clean_up_replica]. *)
Definition propagate_before_prune (h : list (nat * target * path)) : Prop :=
  ∀ k1 k2 s1 s2,
    h !! k1 = Some s1 → h !! k2 = Some s2 →
    s1.1.2 = Synchronize_folders → s2.1.2 = Clean_up_replica → k1 < k2.

(** [process_with_threads] under the interleaving [sched]. *)
Definition run_threads (sched : list pick)
    (source_items replica_items : list (list path)) : M unit :=
  λ w, let prog := process_with_threads source_items replica_items in
       match run prog sched (spawn w) with
       | Some st =>
           if bool_decide (pc st = length prog) then (Ok tt, pworld st) else (Diverge, w)
       | None => (Diverge, w)
       end.

(** One pass. [number_of_threads] is [cpu_count()]; [sched] is the
    interleaving the interpreter picks when there are threads. *)
Definition process_syncronization (number_of_threads : nat) (sched : list pick) : M unit :=
  source_items <- get_items_chunks source_path number_of_threads;
  replica_items <- get_items_chunks replica_path number_of_threads;
  match source_items, replica_items with
  | Chunked s, Chunked r =>
      if bool_decide (1 < number_of_threads) then run_threads sched s r
      else
        (* only [range(0)] chunks reach the sequential path: none *)
        process_without_threads (concat s) (concat r)
  | Flat s, Flat r => process_without_threads s r
  | _, _ => raise (OtherException "TypeError")
  end.
End Main.

(** ** Vocabulary of the properties *)

(** No node lies more than [n] levels below [p]. *)
Definition bounded (f : filesystem) (p : path) (n : nat) : Prop :=
  ∀ q, is_Some (nodes f !! q) → p `prefix_of` q → length q ≤ length p + n.

(** [q] is an entry of [p] or lies below one. *)
Definition below (p q : path) : Prop := ∃ name, (p ++ [name]) `prefix_of` q.

(** From [w] to [w'] nodes were removed at most, and only at paths that
    satisfy [P]. *)
Definition removes_only (P : path → Prop) (w w' : world) : Prop :=
  nodes (fs w') ⊆ nodes (fs w) ∧
  ∀ q, ¬ P q → nodes (fs w') !! q = nodes (fs w) !! q.

(** What holds of the pool at every point of every run of [prog]: the
    threads started are those of the statements the main thread has run, a
    joined thread has no iteration left, and only started threads have run
    iterations. *)
Record pool_inv (prog : list action) (st : pool) : Prop := {
  inv_pc : pc st ≤ length prog;
  inv_started : started (history st) = starts_of (take (pc st) prog);
  inv_threads : length (threads st) = length (starts_of (take (pc st) prog));
  inv_joined : ∀ i, Join i ∈ take (pc st) prog →
                    ∃ tg, threads st !! i = Some (Thread tg []);
  inv_steps : Forall (λ s, s.1.1 < length (threads st)) (worker_steps (history st))
}.

(** ** Closed inputs used by the examples below *)

Module Examples.
Local Open Scope string_scope.

(** A stand-in for [hashlib.md5] where a closed run needs one; every
    theorem below holds for any digest function. *)
Definition plain_digest (b : bytes) : string := String.string_of_list_byte b.

Definition content (s : string) : bytes := String.list_byte_of_string s.

Definition tree (l : list (path * node)) : world := World (FS (list_to_map l) []) [].

Definition src : path := ["src"].
Definition rep : path := ["rep"].

(** [src/a.txt] is to be copied to a replica that lacks it. *)
Definition missing_in_replica : world :=
  tree [(src, Dir); (rep, Dir); (["src"; "a.txt"], File (content "X"))].

(** [a.txt] is the same on both sides. *)
Definition same_content : world :=
  tree [(src, Dir); (rep, Dir);
        (["src"; "a.txt"], File (content "X")); (["rep"; "a.txt"], File (content "X"))].

(** [a.txt] differs. *)
Definition different_content : world :=
  tree [(src, Dir); (rep, Dir);
        (["src"; "a.txt"], File (content "Y")); (["rep"; "a.txt"], File (content "Z"))].

(** One file to copy, one stale file to delete. *)
Definition unsynced : world :=
  tree [(src, Dir); (rep, Dir);
        (["src"; "a.txt"], File (content "X")); (["rep"; "stale.txt"], File (content "W"))].

(** With two threads: the four threads of the first batch are started,
    the worker of [clean_up_replica] on [stale.txt] runs, then the worker
    of [synchronize_folders] on [a.txt]; the joins, and the second batch
    run in the same order. *)
Definition prune_first : list pick :=
  (replicate 4 Main ++ [Worker 2; Worker 0] ++ replicate 8 Main ++
   [Worker 6; Worker 4] ++ replicate 4 Main)%list.

(** The source has the directory [a] with the file [a/f]; the replica has
    a regular file named [a]. *)
Definition file_over_directory : world :=
  tree [(src, Dir); (rep, Dir);
        (["src"; "a"], Dir); (["src"; "a"; "f"], File (content "X"));
        (["rep"; "a"], File (content "Z"))].

(** [rep/locked.txt] is stale and the operating system refuses to
    remove it. *)
Definition locked_stale : world :=
  World (FS (list_to_map [(src, Dir); (rep, Dir);
                          (["rep"; "locked.txt"], File (content "W"))])
            [["rep"; "locked.txt"]]) [].

(** [src/d/f.txt] has no directory [rep/d] to be copied into. *)
Definition no_parent : world :=
  tree [(src, Dir); (rep, Dir);
        (["src"; "d"], Dir); (["src"; "d"; "f.txt"], File (content "X"))].

(** [a] is a regular file in the source and a directory in the replica;
    [b] is only in the source, [stale.txt] only in the replica. *)
Definition type_clash : world :=
  tree [(src, Dir); (rep, Dir);
        (["src"; "a"], File (content "X")); (["src"; "b"], File (content "Y"));
        (["rep"; "a"], Dir); (["rep"; "stale.txt"], File (content "W"))].
End Examples.

(** ** Vocabulary of the further properties *)

(** Nothing stands in the way of creating the directory [p]: no path from
    the root down to [p] is a regular file or refused by the operating
    system. *)
Definition clear_way (f : filesystem) (p : path) : Prop :=
  ∀ k, k ≤ length p →
    file_at f (take k p) = false ∧ is_denied f (take k p) = false.

(** From [w] to [w'] directories were added at most, on the way to [p];
    nothing else changed. *)
Definition adds_dirs (p : path) (w w' : world) : Prop :=
  nodes (fs w) ⊆ nodes (fs w') ∧
  (∀ q, nodes (fs w) !! q = None → is_Some (nodes (fs w') !! q) →
        nodes (fs w') !! q = Some Dir ∧ q `prefix_of` p) ∧
  denied (fs w') = denied (fs w) ∧ log w' = log w.

(** Every node but the root sits in a directory. *)
Definition well_formed (f : filesystem) : Prop :=
  ∀ q, is_Some (nodes f !! q) → q ≠ [] → dir_at f (parent q) = true.

(** From [w0] to [w] every node at or below one of [items] is gone, and
    nothing else changed in the filesystem. *)
Definition cleared (items : list path) (w0 w : world) : Prop :=
  denied (fs w) = denied (fs w0) ∧
  ∀ q, (Exists (λ item, item `prefix_of` q) items → nodes (fs w) !! q = None) ∧
       (¬ Exists (λ item, item `prefix_of` q) items →
        nodes (fs w) !! q = nodes (fs w0) !! q).

(** From [w] to [w'] only INFO records were logged. *)
Definition info_only (w w' : world) : Prop :=
  ∃ l, log w' = log w ++ l ∧ Forall (λ r, r.1 = INFO) l.

(** From [w] to [w'] no node was removed, the nodes outside [replica_path]
    that existed are as they were, and what was added lies at or below
    [replica_path] or is a directory on the way to it. *)
Definition only_propagates (replica_path : path) (w w' : world) : Prop :=
  denied (fs w') = denied (fs w) ∧
  (∀ q, is_Some (nodes (fs w) !! q) → is_Some (nodes (fs w') !! q)) ∧
  (∀ q, ¬ replica_path `prefix_of` q → is_Some (nodes (fs w) !! q) →
        nodes (fs w') !! q = nodes (fs w) !! q) ∧
  (∀ q, nodes (fs w) !! q = None → is_Some (nodes (fs w') !! q) →
        replica_path `prefix_of` q ∨
        (nodes (fs w') !! q = Some Dir ∧ q `prefix_of` replica_path)).

(** The replica entries of [item_list] that have no counterpart in the
    source, as absolute paths. *)
Definition stale_entries (source_path replica_path : path) (w : world)
    (item_list : list path) : list path :=
  (λ item_path, replica_path ++ item_path) <$>
  filter (λ item_path, ¬ is_Some (node_at (fs w) (source_path ++ item_path))) item_list.

(** What a statement of the main thread costs the scheduler: itself, and
    for a [Start] the iterations of the thread it starts. *)
Definition cost (a : action) : nat :=
  match a with
  | Start _ chunk => S (length chunk)
  | Join _ => 1
  end.

(** The picks a pool can still take: the statements the main thread has
    not run and the iterations the started threads have left. *)
Definition work (prog : list action) (st : pool) : nat :=
  sum_list_with cost (drop (pc st) prog) +
  sum_list_with (λ t, length (th_todo t)) (threads st).

(** Two nodes of the same kind: two directories, or two regular files. *)
Definition same_kind (n m : node) : bool :=
  match n, m with
  | Dir, Dir | File _, File _ => true
  | _, _ => false
  end.

(** The replica node [r] mirrors the source node [s]: both are missing,
    both are directories, or both are regular files with the same digest. *)
Definition mirrors (md5 : bytes → string) (s r : option node) : Prop :=
  match s with
  | None => r = None
  | Some Dir => r = Some Dir
  | Some (File data) => ∃ data', r = Some (File data') ∧ md5 data' = md5 data
  end.

(** Every item of the list but the top-level ones comes after its parent. *)
Definition parents_first (l : list path) : Prop :=
  ∀ l1 x l2, l = l1 ++ x :: l2 → parent x = [] ∨ parent x ∈ l1.

(** The Propagate loop has the items [done] behind it, having started in
    [w0]: the items among them that exist in the source are mirrored in the
    replica, no other node has changed, only INFO records were logged, and
    the filesystem is well-formed. *)
Definition propagated (md5 : bytes → string) (source_path replica_path : path)
    (done : list path) (w0 w : world) : Prop :=
  denied (fs w) = denied (fs w0) ∧ info_only w0 w ∧ well_formed (fs w) ∧
  (∀ q, ¬ replica_path `prefix_of` q → nodes (fs w) !! q = nodes (fs w0) !! q) ∧
  (∀ rel, rel ∈ done → is_Some (nodes (fs w0) !! (source_path ++ rel)) →
          mirrors md5 (nodes (fs w0) !! (source_path ++ rel))
                      (nodes (fs w) !! (replica_path ++ rel))) ∧
  (∀ rel, ¬ (rel ∈ done ∧ is_Some (nodes (fs w0) !! (source_path ++ rel))) →
          nodes (fs w) !! (replica_path ++ rel) = nodes (fs w0) !! (replica_path ++ rel)).

(** [q] lies at or below a replica entry that exists in [w] and has no
    counterpart in the source. *)
Definition stale_in (source_path replica_path : path) (w : world) (q : path) : Prop :=
  ∃ rel, rel ≠ [] ∧ (replica_path ++ rel) `prefix_of` q ∧
         is_Some (nodes (fs w) !! (replica_path ++ rel)) ∧
         node_at (fs w) (source_path ++ rel) = None.

(** *** Decidable forms of the conditions, for closed filesystems *)

Definition well_formedb (f : filesystem) : bool :=
  forallb (λ q, bool_decide (q = []) || dir_at f (parent q)) (map_to_list (nodes f)).*1.

(** No path is a directory below one root and a regular file below the
    other. *)
Definition compatibleb (source_path replica_path : path) (f : filesystem) : bool :=
  forallb (λ qn : path * node,
             if decide (source_path `prefix_of` qn.1) then
               match nodes f !! (replica_path ++ relative_to source_path qn.1) with
               | Some m => same_kind qn.2 m
               | None => true
               end
             else true)
          (map_to_list (nodes f)).

Definition mirrors_nodeb (md5 : bytes → string) (n : node) (r : option node) : bool :=
  match n, r with
  | Dir, Some Dir => true
  | File data, Some (File data') => bool_decide (md5 data' = md5 data)
  | _, _ => false
  end.

(** Every node below the source root is mirrored below the replica root,
    and every node below the replica root has a counterpart. *)
Definition mirroredb (md5 : bytes → string) (source_path replica_path : path)
    (f : filesystem) : bool :=
  forallb (λ qn : path * node,
             (if decide (source_path `prefix_of` qn.1) then
                bool_decide (qn.1 = source_path) ||
                mirrors_nodeb md5 qn.2
                  (nodes f !! (replica_path ++ relative_to source_path qn.1))
              else true) &&
             (if decide (replica_path `prefix_of` qn.1) then
                bool_decide (qn.1 = replica_path) ||
                bool_decide (is_Some (nodes f !! (source_path ++ relative_to replica_path qn.1)))
              else true))
          (map_to_list (nodes f)).

(** *** Closed inputs of the further properties *)

Module Trees.
Import Examples.
Local Open Scope string_scope.

(** The source has a file and a directory with a file; the replica has an
    older version of the file and a stale directory with a file. *)
Definition nested : world :=
  tree [(src, Dir); (rep, Dir);
        (["src"; "a.txt"], File (content "new"));
        (["src"; "d"], Dir); (["src"; "d"; "f.txt"], File (content "X"));
        (["rep"; "a.txt"], File (content "old"));
        (["rep"; "old"], Dir); (["rep"; "old"; "g.txt"], File (content "W"))].

(** The main thread starts the four threads of the first batch and the
    scheduler has not picked a worker yet. *)
Definition first_batch_started : list pick := replicate 4 Main.

(** The replica root has no entry yet, and the operating system refuses to
    create [rep/d]. *)
Definition refused_folder : world :=
  World (FS (list_to_map [(src, Dir); (rep, Dir);
                          (["src"; "d"], Dir); (["src"; "d"; "f.txt"], File (content "X"))])
            [["rep"; "d"]]) [].

(** With two threads on [no_parent]: in each batch the worker that copies
    [d/f.txt] runs before the worker that creates [d]. *)
Definition file_before_folder : list pick :=
  (replicate 4 Main ++ [Worker 1; Worker 0] ++ replicate 8 Main ++
   [Worker 5; Worker 4] ++ replicate 4 Main)%list.
End Trees.

(** * Properties *)

(** ** Round-robin partitioning *)

Module ChunksFacts.
Import Chunks.

Section Slicing_facts.
Context {A : Type}.
Implicit Types (sq : list A) (x : A).

Lemma slice_len_lt n start step k :
  0 < step → k < slice_len n start step ↔ start + k * step < n.
Proof.
  intros Hs. unfold slice_len.
  set (a := n - start + (step - 1)).
  pose proof (Nat.div_mod_eq a step) as Hdm.
  pose proof (Nat.mod_upper_bound a step ltac:(lia)) as Hmod.
  split; intros H.
  - assert (step * S k ≤ step * (a `div` step)) by (apply Nat.mul_le_mono_l; lia).
    subst a. nia.
  - destruct (decide (k < a `div` step)) as [|Hge]; [done|].
    assert (step * (a `div` step) ≤ step * k) by (apply Nat.mul_le_mono_l; lia).
    subst a. nia.
Qed.

Lemma omap_seq_Some {B} (f : nat → option B) (g : nat → B) s c :
  (∀ k, s ≤ k < s + c → f k = Some (g k)) → omap f (seq s c) = g <$> seq s c.
Proof.
  revert s. induction c as [|c IH]; intros s Hf; [done|].
  cbn [seq omap list_omap fmap list_fmap].
  rewrite (Hf s) by lia. f_equal. apply IH. intros k Hk. apply Hf. lia.
Qed.

Lemma slice_step_length sq start step :
  0 < step → length (slice_step sq start step) = slice_len (length sq) start step.
Proof.
  intros Hs. unfold slice_step.
  destruct sq as [|d sq'] eqn:E.
  { cbn [length]. unfold slice_len. replace (0 - start + (step - 1)) with (step - 1) by lia.
    rewrite Nat.div_small by lia. done. }
  rewrite <- E. clear E sq'.
  rewrite (omap_seq_Some _ (λ k, default d (sq !! (start + k * step)))).
  - by rewrite length_fmap, length_seq.
  - intros k Hk. destruct (lookup_lt_is_Some_2 sq (start + k * step)) as [y Hy].
    + apply slice_len_lt; [done|lia].
    + by rewrite Hy.
Qed.

(** Chunk [start] is exactly the items at indices [start], [start+step],
    [start+2*step], ... in that order. *)
Lemma slice_step_lookup sq start step k :
  0 < step → slice_step sq start step !! k = sq !! (start + k * step).
Proof.
  intros Hs. destruct (decide (start + k * step < length sq)) as [Hlt|Hge].
  - destruct sq as [|d sq'] eqn:E; [cbn in Hlt; lia|]. rewrite <- E in *. clear E sq'.
    unfold slice_step.
    rewrite (omap_seq_Some _ (λ k, default d (sq !! (start + k * step)))).
    + rewrite list_lookup_fmap, lookup_seq_lt by (by apply slice_len_lt).
      cbn. destruct (lookup_lt_is_Some_2 sq _ Hlt) as [y Hy]. by rewrite Hy.
    + intros j Hj. destruct (lookup_lt_is_Some_2 sq (start + j * step)) as [y Hy].
      * apply slice_len_lt; [done|lia].
      * by rewrite Hy.
  - rewrite (lookup_ge_None_2 sq) by lia.
    apply lookup_ge_None_2. rewrite slice_step_length by done.
    destruct (decide (k < slice_len (length sq) start step)) as [H|]; [|lia].
    apply slice_len_lt in H; [lia|done].
Qed.

Lemma slice_step_cons_S x sq i step :
  0 < step → slice_step (x :: sq) (S i) step = slice_step sq i step.
Proof.
  intros Hs. apply list_eq. intros k. by rewrite !slice_step_lookup.
Qed.

Lemma slice_step_cons_0 x sq step :
  slice_step (x :: sq) 0 (S step) = x :: slice_step sq step (S step).
Proof.
  apply list_eq. intros [|k].
  - by rewrite slice_step_lookup by lia.
  - cbn [lookup list_lookup]. rewrite !slice_step_lookup by lia.
    replace (0 + S k * S step) with (S (step + k * S step)) by lia. done.
Qed.

Lemma slice_step_nil i step : 0 < step → slice_step (@nil A) i step = [].
Proof.
  intros Hs. apply nil_length_inv. rewrite slice_step_length by done.
  unfold slice_len. apply Nat.div_small. cbn [length]. lia.
Qed.

Lemma chunk_list_length sq size : length (chunk_list sq size) = size.
Proof. unfold chunk_list. by rewrite length_fmap, length_seq. Qed.

Lemma chunk_list_lookup sq size j :
  j < size → chunk_list sq size !! j = Some (slice_step sq j size).
Proof.
  intros Hj. unfold chunk_list. by rewrite list_lookup_fmap, lookup_seq_lt.
Qed.

(** Prepending an item rotates the chunks by one position. *)
Lemma chunk_list_cons x sq n :
  chunk_list (x :: sq) (S n) =
  (x :: slice_step sq n (S n)) :: ((λ i, slice_step sq i (S n)) <$> seq 0 n).
Proof.
  unfold chunk_list. change (seq 0 (S n)) with (0 :: seq 1 n).
  rewrite fmap_cons, slice_step_cons_0. f_equal.
  rewrite <- fmap_S_seq, <- list_fmap_compose. apply list_fmap_ext.
  intros _ i _. unfold compose. apply slice_step_cons_S. lia.
Qed.

Lemma chunk_list_snoc sq n :
  chunk_list sq (S n) =
  ((λ i, slice_step sq i (S n)) <$> seq 0 n) ++ [slice_step sq n (S n)].
Proof. unfold chunk_list. by rewrite seq_S, fmap_app. Qed.

Lemma chunk_list_concat_perm sq n : concat (chunk_list sq (S n)) ≡ₚ sq.
Proof.
  induction sq as [|x sq IH].
  - unfold chunk_list. induction (seq 0 (S n)) as [|i l IHl]; [done|].
    rewrite fmap_cons. cbn [concat]. rewrite IHl, app_nil_r.
    by rewrite slice_step_nil by lia.
  - rewrite chunk_list_cons. cbn [concat app]. constructor.
    rewrite <- IH at 2. rewrite chunk_list_snoc, concat_app. cbn [concat].
    rewrite app_nil_r. apply Permutation_app_comm.
Qed.

Lemma slice_step_sublist sq j n : j ≤ n → sublist (slice_step sq j (S n)) sq.
Proof.
  revert j. induction sq as [|x sq IH]; intros j Hj.
  - by rewrite slice_step_nil by lia.
  - destruct j as [|j].
    + rewrite slice_step_cons_0. apply sublist_skip. by apply IH.
    + rewrite slice_step_cons_S by lia. apply sublist_cons. apply IH. lia.
Qed.
End Slicing_facts.

End ChunksFacts.

Section Partition.
Import Chunks ChunksFacts.

Lemma get_items_chunks_eq (root : path) (n : nat) (w : world) :
  get_items_chunks root n w =
  let rel := relative_to root <$>
             concat (children (fs w) <$> iterate_directories (depth (fs w)) (fs w) root) in
  (Ok (if bool_decide (n = 1) then Flat rel else Chunked (chunk_list rel n)), w).
Proof.
  unfold get_items_chunks, glob_all, bind, ret. cbn. by case_bool_decide.
Qed.

(** C6. For every entry list and every worker count [n >= 1] the [n]
    round-robin chunks partition the list exactly: there are [n] chunks,
    their concatenation is a permutation of the list (nothing duplicated,
    nothing omitted), the entry at index [i] is in chunk [i mod n], and
    for [n = 1] the single chunk is the whole list, which is also what
    [get_items_chunks] hands out for one thread. *)
Theorem partition_exact (entries : list path) (n : nat) :
  1 ≤ n →
  length (chunk_list entries n) = n ∧
  concat (chunk_list entries n) ≡ₚ entries ∧
  (∀ i, i < length entries →
     ∃ c, chunk_list entries n !! (i `mod` n) = Some c ∧ c !! (i `div` n) = entries !! i) ∧
  (n = 1 → chunk_list entries n = [entries]) ∧
  (∀ root w, ∃ rel,
     get_items_chunks root n w =
     (Ok (if bool_decide (n = 1) then Flat rel else Chunked (chunk_list rel n)), w)).
Proof.
  intros Hn. destruct n as [|n]; [lia|]. split_and!.
  - apply chunk_list_length.
  - apply chunk_list_concat_perm.
  - intros i Hi. eexists. split.
    + apply chunk_list_lookup. apply Nat.mod_upper_bound. lia.
    + rewrite slice_step_lookup by lia. f_equal.
      pose proof (Nat.div_mod_eq i (S n)). lia.
  - intros [= ->]. unfold chunk_list. cbn [seq fmap list_fmap]. f_equal.
    apply list_eq. intros k. rewrite slice_step_lookup by lia. f_equal. lia.
  - intros root w. eexists. apply get_items_chunks_eq.
Qed.

(** C9. Every chunk of [chunk_list] keeps the order of the original list:
    chunk [j] is a subsequence of the list, and its [k]-th item is the
    item of the list at index [j + k * n]. *)
Theorem chunk_order_preserved {A} (sq : list A) (n j : nat) :
  1 ≤ n → j < n →
  ∃ c, chunk_list sq n !! j = Some c ∧
       sublist c sq ∧
       ∀ k, c !! k = sq !! (j + k * n).
Proof.
  intros Hn Hj. exists (slice_step sq j n). split_and!.
  - by apply chunk_list_lookup.
  - destruct n as [|n]; [lia|]. apply slice_step_sublist. lia.
  - intros k. apply slice_step_lookup. lia.
Qed.
End Partition.

(** ** Streams and the two block loops *)

Section Blocks.
Implicit Types (f h : bytes) (size : N).

Lemma take_drop_block size f : take_block size f ++ drop_block size f = f.
Proof.
  revert size. induction f as [|b f IH]; intros size; cbn; [done|].
  destruct (size =? 0)%N; cbn; [done|]. by rewrite IH.
Qed.

Lemma take_block_nil size f : take_block size f = [] → f = [] ∨ size = 0%N.
Proof.
  destruct f as [|b f]; cbn; [by left|].
  destruct (size =? 0)%N eqn:E; [|done]. right. by apply N.eqb_eq.
Qed.

Lemma drop_block_le size f : length (drop_block size f) ≤ length f.
Proof.
  revert size. induction f as [|b f IH]; intros size; cbn; [done|].
  destruct (size =? 0)%N; cbn; [done|]. specialize (IH (N.pred size)). lia.
Qed.

Lemma drop_block_length size f :
  size ≠ 0%N → f ≠ [] → length (drop_block size f) < length f.
Proof.
  intros Hs Hf. destruct f as [|b f]; [done|]. cbn.
  destruct (size =? 0)%N eqn:E; [by apply N.eqb_eq in E|].
  pose proof (drop_block_le (N.pred size) f). lia.
Qed.

(** The block loop of [calculate_checksum] feeds the whole file. *)
Lemma checksum_loop_all fuel f h :
  length f < fuel → checksum_loop fuel f h = h ++ f.
Proof.
  revert f h. induction fuel as [|k IH]; intros f h Hlt; [lia|].
  cbn [checksum_loop read].
  destruct (take_block 4096 f) as [|b t] eqn:E.
  - apply take_block_nil in E as [->|?]; [|done]. by rewrite app_nil_r.
  - assert (f ≠ []) as Hf by (intros ->; done).
    rewrite IH.
    + unfold md5_update. rewrite <- (take_drop_block 4096 f) at 2.
      by rewrite E, app_assoc.
    + pose proof (drop_block_length 4096 f ltac:(done) Hf). lia.
Qed.
End Blocks.

(** ** The helpers of [utils.py] *)

Section Utils_facts.
Variable md5 : bytes → string.
Implicit Types (w : world) (p src dest : path) (e : exc).

Lemma set_nodes_idem w m1 m2 : set_nodes (set_nodes w m1) m2 = set_nodes w m2.
Proof. done. Qed.

Lemma set_nodes_same w : set_nodes w (nodes (fs w)) = w.
Proof. by destruct w as [[??]?]. Qed.

Lemma node_at_nodes f p : p ≠ [] → node_at f p = nodes f !! p.
Proof. by destruct p. Qed.

Lemma copy_loop_all fuel size fsrc dest w acc :
  size ≠ 0%N → length fsrc < fuel →
  nodes (fs w) !! dest = Some (File acc) →
  copy_loop fuel size fsrc dest w
  = (Ok tt, set_nodes w (<[dest := File (acc ++ fsrc)]> (nodes (fs w)))).
Proof.
  intros Hs. revert fsrc w acc. induction fuel as [|k IH]; intros f w acc Hlt Hacc; [lia|].
  cbn [copy_loop read].
  destruct (take_block size f) as [|b t] eqn:E.
  - apply take_block_nil in E as [->|?]; [|done].
    rewrite app_nil_r, insert_id by done. by rewrite set_nodes_same.
  - assert (f ≠ []) as Hf by (intros ->; done).
    unfold bind, write. cbn -[alter].
    erewrite IH.
    + rewrite set_nodes_idem. do 2 f_equal. cbn -[alter].
      rewrite <- (take_drop_block size f) at 2. rewrite E, app_assoc.
      apply map_eq. intros q. destruct (decide (dest = q)) as [->|Hne].
      * by rewrite !lookup_insert_eq.
      * by rewrite !lookup_insert_ne, lookup_alter_ne.
    + pose proof (drop_block_length size f Hs Hf). lia.
    + cbn -[alter]. rewrite lookup_alter_eq, Hacc. done.
Qed.

Lemma copy_loop_returns fuel size fsrc dest w :
  ∃ w', copy_loop fuel size fsrc dest w = (Ok tt, w') ∧ denied (fs w') = denied (fs w)
        ∧ log w' = log w.
Proof.
  revert fsrc w. induction fuel as [|k IH]; intros f w; cbn [copy_loop read]; [by eexists|].
  destruct (take_block size f); [by eexists|].
  unfold bind, write. cbn -[alter]. edestruct IH as (w' & -> & ? & ?). eauto.
Qed.

(** A copy that meets no obstacle leaves the bytes of the source at the
    destination and logs one INFO record. *)
Lemma copy_or_replace_file_ok src dest replace w data :
  node_at (fs w) src = Some (File data) →
  is_denied (fs w) src = false → is_denied (fs w) dest = false →
  file_at (fs w) dest = true ∨
    (node_at (fs w) dest = None ∧ dir_at (fs w) (parent dest) = true) →
  copy_or_replace_file src dest replace default_chunk_size w
  = (Ok tt, World (FS (<[dest := File data]> (nodes (fs w))) (denied (fs w)))
                  (log w ++ [(INFO, if replace then File_replaced dest src
                                    else File_copied src dest)])).
Proof.
  intros Hsrc Hds Hdd Hdest.
  unfold copy_or_replace_file, try_except, bind, open_rb. rewrite Hsrc, Hds.
  assert (open_wb dest w = (Ok tt, set_nodes w (<[dest := File []]> (nodes (fs w))))) as ->.
  { unfold open_wb, file_at, dir_at in *. destruct Hdest as [H|[H1 H2]].
    - destruct (node_at (fs w) dest) as [[]|]; try done. by rewrite Hdd.
    - rewrite H1. destruct (node_at (fs w) (parent dest)) as [[]|]; try done. by rewrite Hdd. }
  erewrite (copy_loop_all _ _ _ _ _ []); [| done | lia | cbn; by rewrite lookup_insert_eq].
  cbn. rewrite insert_insert_eq. by destruct replace.
Qed.

(** What [copy_or_replace_file] does when something fails: it logs one
    ERROR record and returns. *)
Lemma copy_or_replace_file_returns src dest replace size w :
  ∃ w', copy_or_replace_file src dest replace size w = (Ok tt, w').
Proof.
  unfold copy_or_replace_file, try_except, bind.
  destruct (open_rb src w) as [[fsrc|e|] w1] eqn:E1.
  - destruct (open_wb dest w1) as [[[]|e|] w2] eqn:E2.
    + destruct (copy_loop_returns (S (length fsrc)) size fsrc dest w2) as (w3 & -> & _).
      destruct replace; by eexists.
    + destruct replace; by eexists.
    + unfold open_wb in E2. repeat case_match; simplify_eq.
  - destruct replace; by eexists.
  - unfold open_rb in E1. repeat case_match; simplify_eq.
Qed.

Lemma calculate_checksum_ok p w data :
  node_at (fs w) p = Some (File data) → is_denied (fs w) p = false →
  calculate_checksum md5 p w = (Ok (md5 data), w).
Proof.
  intros Hp Hd. unfold calculate_checksum, try_except, bind, open_rb, ret.
  rewrite Hp, Hd. by rewrite checksum_loop_all by lia.
Qed.

(** A checksum that fails has logged one ERROR record, touched nothing
    else, and re-raises what [open] raised. *)
Lemma calculate_checksum_raises p w e w' :
  calculate_checksum md5 p w = (Raise e, w') →
  open_rb p w = (Raise e, w) ∧
  ∃ msg, w' = World (fs w) (log w ++ [(ERROR, msg)]).
Proof.
  unfold calculate_checksum, try_except, bind, ret.
  destruct (open_rb p w) as [[f|e'|] w1] eqn:E1; [done| |done].
  assert (w1 = w) as -> by (unfold open_rb in E1; repeat case_match; simplify_eq; done).
  unfold logger, raise.
  destruct (is_FileNotFoundError e'); [|destruct (is_OSError e')];
    intros [= <- <-]; eauto.
Qed.

Lemma calculate_checksum_result p w :
  (∃ data, node_at (fs w) p = Some (File data) ∧ is_denied (fs w) p = false
           ∧ calculate_checksum md5 p w = (Ok (md5 data), w))
  ∨ (∃ e w', calculate_checksum md5 p w = (Raise e, w')).
Proof.
  destruct (node_at (fs w) p) as [[data|]|] eqn:Hp.
  - destruct (is_denied (fs w) p) eqn:Hd.
    + right. unfold calculate_checksum, try_except, bind, open_rb. rewrite Hp, Hd.
      cbn. eauto.
    + left. exists data. split_and!; [done..|]. by apply calculate_checksum_ok.
  - right. unfold calculate_checksum, try_except, bind, open_rb. rewrite Hp. cbn. eauto.
  - right. unfold calculate_checksum, try_except, bind, open_rb. rewrite Hp.
    unfold missing. destruct (under_a_file (fs w) p); cbn; eauto.
Qed.
End Utils_facts.

(** ** Directory creation stays within its budget *)

Section Mkdir.
Implicit Types (w : world) (p : path).

Lemma os_mkdir_not_found p w e w' :
  os_mkdir p w = (Raise e, w') → is_FileNotFoundError e = true → p ≠ [].
Proof. intros H Hf ->. cbn in H. by simplify_eq. Qed.

Lemma os_mkdir_never_diverges p w : (os_mkdir p w).1 ≠ Diverge.
Proof. unfold os_mkdir, missing. by repeat case_match. Qed.

Lemma mkdir_never_diverges fuel parents exist_ok p w :
  parents = false ∨ length p ≤ fuel → (mkdir fuel parents exist_ok p w).1 ≠ Diverge.
Proof.
  revert parents exist_ok p w. induction fuel as [|k IH]; intros parents exist_ok p w Hb.
  all: cbn [mkdir]; unfold try_except;
    pose proof (os_mkdir_never_diverges p w) as Hnd;
    destruct (os_mkdir p w) as [[[]|e|] w1] eqn:E; [done| |done].
  all: destruct (is_FileNotFoundError e) eqn:Hfnf;
    [|unfold bind, is_dir, raise, ret; by repeat case_match].
  all: pose proof (os_mkdir_not_found _ _ _ _ E Hfnf) as Hne.
  - destruct Hb as [->|Hlen]; [done|]. destruct p; [done|]. cbn in Hlen. lia.
  - destruct parents; [|done]. destruct Hb as [?|Hlen]; [done|].
    cbn [negb orb]. case_bool_decide; [done|].
    unfold bind.
    assert (length (parent p) ≤ k) as Hpar.
    { unfold parent. destruct (exists_last Hne) as (q & name & ->).
      rewrite removelast_last. rewrite length_app in Hlen. cbn in Hlen. lia. }
    pose proof (IH true true (parent p) w1 (or_intror Hpar)) as H1.
    destruct (mkdir k true true (parent p) w1) as [[[]|e'|] w2]; [|done..].
    apply IH. by left.
Qed.

Lemma create_folder_never_diverges p w : (create_folder p w).1 ≠ Diverge.
Proof.
  unfold create_folder, try_except, bind, path_exists, mkdir_parents.
  destruct (negb _); [|done].
  pose proof (mkdir_never_diverges (length p) true true p w (or_intror (le_n _))) as H.
  destruct (mkdir (length p) true true p w) as [[[]|e|] w1]; [done| |done].
  unfold logger, raise. by destruct (is_OSError e).
Qed.
End Mkdir.

(** ** The replication decision *)

Section Replicate.
Variable md5 : bytes → string.
Implicit Types (w : world) (source_item replica_item : path).

(** C5. [replicate_file] decides as follows.  When the replica path does
    not exist it is exactly the copy (no digest is computed).  When both
    paths are readable files it computes both digests; if they differ it
    is the copy in replace mode, which leaves the source's bytes at the
    replica path; if they are equal it does nothing at all. *)
Theorem replicate_file_decision source_item replica_item w :
  (node_at (fs w) replica_item = None →
     replicate_file md5 source_item replica_item w
     = copy_or_replace_file source_item replica_item false default_chunk_size w) ∧
  (∀ ds dr,
     node_at (fs w) source_item = Some (File ds) →
     node_at (fs w) replica_item = Some (File dr) →
     is_denied (fs w) source_item = false → is_denied (fs w) replica_item = false →
     calculate_checksum md5 source_item w = (Ok (md5 ds), w) ∧
     calculate_checksum md5 replica_item w = (Ok (md5 dr), w) ∧
     (md5 ds ≠ md5 dr →
        replicate_file md5 source_item replica_item w
        = copy_or_replace_file source_item replica_item true default_chunk_size w ∧
        replicate_file md5 source_item replica_item w
        = (Ok tt, World (FS (<[replica_item := File ds]> (nodes (fs w))) (denied (fs w)))
                        (log w ++ [(INFO, File_replaced replica_item source_item)]))) ∧
     (md5 ds = md5 dr →
        replicate_file md5 source_item replica_item w = (Ok tt, w))).
Proof.
  split.
  - intros Hr. unfold replicate_file, bind, path_exists. rewrite Hr.
    rewrite bool_decide_eq_false_2; [done|]. by intros [??].
  - intros ds dr Hs Hr Hds Hdr.
    pose proof (calculate_checksum_ok md5 _ _ _ Hs Hds) as Hcs.
    pose proof (calculate_checksum_ok md5 _ _ _ Hr Hdr) as Hcr.
    assert (replicate_file md5 source_item replica_item w =
            if bool_decide (md5 ds ≠ md5 dr)
            then copy_or_replace_file source_item replica_item true default_chunk_size w
            else (Ok tt, w)) as Heq.
    { unfold replicate_file, bind, path_exists. rewrite Hr.
      rewrite bool_decide_eq_true_2 by eauto. rewrite Hcs, Hcr.
      by case_bool_decide. }
    split_and!; [done..| |].
    + intros Hne. rewrite Heq, bool_decide_eq_true_2 by done. split; [done|].
      apply copy_or_replace_file_ok; [done..|]. left. unfold file_at. by rewrite Hr.
    + intros He. rewrite Heq, bool_decide_eq_false_2; [done|]. by intros ?.
Qed.

(** How a copy ends: the bytes of the source are at the destination and one
    INFO record is logged, or the filesystem is as before and one ERROR
    record is logged. *)
Lemma copy_or_replace_file_cases src_file dest_file replace w :
  (∃ data,
     node_at (fs w) src_file = Some (File data) ∧
     is_denied (fs w) src_file = false ∧ is_denied (fs w) dest_file = false ∧
     dest_file ≠ [] ∧
     copy_or_replace_file src_file dest_file replace default_chunk_size w
     = (Ok tt, World (FS (<[dest_file := File data]> (nodes (fs w))) (denied (fs w)))
                     (log w ++ [(INFO, if replace then File_replaced dest_file src_file
                                       else File_copied src_file dest_file)]))) ∨
  (∃ msg,
     copy_or_replace_file src_file dest_file replace default_chunk_size w
     = (Ok tt, World (fs w) (log w ++ [(ERROR, msg)]))).
Proof.
  destruct (node_at (fs w) src_file) as [[data|]|] eqn:Hs;
    [destruct (is_denied (fs w) src_file) eqn:Hds|..].
  2: destruct (is_denied (fs w) dest_file) eqn:Hdd.
  3: destruct (decide (file_at (fs w) dest_file = true ∨
                       (node_at (fs w) dest_file = None ∧
                        dir_at (fs w) (parent dest_file) = true))) as [Hok|Hno].
  3: { left. exists data. split_and!; [done..| |by apply copy_or_replace_file_ok].
       intros ->. unfold file_at, dir_at in Hok. cbn in Hok. by destruct Hok as [?|[? ?]]. }
  all: right; unfold copy_or_replace_file, try_except, bind, open_rb, open_wb;
    rewrite ?Hs, ?Hds; cbn beta iota.
  all: try (unfold file_at, dir_at in *;
            destruct (node_at (fs w) dest_file) as [[]|];
            [..|destruct (node_at (fs w) (parent dest_file)) as [[]|]];
            rewrite ?Hdd).
  all: try (exfalso; apply Hno; by eauto).
  all: unfold logger, missing; repeat case_match; destruct replace; eauto.
Qed.

(** Once [replicate_file] has gone through without logging an ERROR, the
    same call finds equal digests and does nothing. *)
Lemma replicate_file_settles source_item replica_item w w' :
  replicate_file md5 source_item replica_item w = (Ok tt, w') →
  (∀ msg, w' ≠ World (fs w) (log w ++ [(ERROR, msg)])) →
  replicate_file md5 source_item replica_item w' = (Ok tt, w').
Proof.
  intros Hrun Hnoerr.
  assert (∀ data replace,
    node_at (fs w) source_item = Some (File data) →
    is_denied (fs w) source_item = false → is_denied (fs w) replica_item = false →
    replica_item ≠ [] →
    w' = World (FS (<[replica_item := File data]> (nodes (fs w))) (denied (fs w)))
               (log w ++ [(INFO, if replace : bool then File_replaced replica_item source_item
                                 else File_copied source_item replica_item)]) →
    replicate_file md5 source_item replica_item w' = (Ok tt, w')) as Hcopied.
  { intros data replace Hs Hds Hdd Hne ->.
    set (w1 := World _ _).
    assert (node_at (fs w1) replica_item = Some (File data)) as Hr1.
    { rewrite node_at_nodes by done. cbn. apply lookup_insert_eq. }
    assert (node_at (fs w1) source_item = Some (File data)) as Hs1.
    { destruct (decide (source_item = replica_item)) as [->|Hdiff]; [done|].
      unfold node_at in *. destruct source_item; [done|]. cbn.
      by rewrite lookup_insert_ne. }
    unfold replicate_file, bind, path_exists. rewrite Hr1.
    rewrite bool_decide_eq_true_2 by eauto.
    rewrite (calculate_checksum_ok md5 _ _ data) by done.
    rewrite (calculate_checksum_ok md5 _ _ data) by done.
    rewrite bool_decide_eq_false_2; [done|]. by intros ?. }
  unfold replicate_file, bind at 1, path_exists at 1 in Hrun.
  destruct (bool_decide (is_Some (node_at (fs w) replica_item))) eqn:Hex.
  - unfold bind at 1 in Hrun.
    destruct (calculate_checksum_result md5 source_item w)
      as [(ds & Hs & Hds & Hcs)|(e & w1 & Hcs)]; rewrite Hcs in Hrun; [|done].
    unfold bind at 1 in Hrun.
    destruct (calculate_checksum_result md5 replica_item w)
      as [(dr & Hr & Hdr & Hcr)|(e & w1 & Hcr)]; rewrite Hcr in Hrun; [|done].
    case_bool_decide as Hneq.
    + destruct (copy_or_replace_file_cases source_item replica_item true w)
        as [(data & Hs' & _ & _ & Hne & Hc)|(msg & Hc)]; rewrite Hc in Hrun.
      * simplify_eq. by eapply (Hcopied _ true).
      * simplify_eq. by destruct (Hnoerr msg).
    + unfold ret in Hrun. simplify_eq.
      unfold replicate_file, bind, path_exists. rewrite Hex, Hcs, Hcr.
      rewrite bool_decide_eq_false_2; [done|]. by intros ?.
  - destruct (copy_or_replace_file_cases source_item replica_item false w)
      as [(data & Hs' & ? & ? & Hne & Hc)|(msg & Hc)]; rewrite Hc in Hrun.
    + simplify_eq. by eapply (Hcopied _ false).
    + simplify_eq. by destruct (Hnoerr msg).
Qed.
End Replicate.

(** ** Entries of the chunk loops *)

Section Entries.
Variable md5 : bytes → string.
Variables source_path replica_path : path.
Implicit Types (w : world) (item_path : path) (item_list : list path).

(** C10. An entry whose source path is neither a directory nor a regular
    file when its turn comes is skipped: nothing is done for it, nothing
    is logged, nothing is raised, and the loop goes on with the next
    entry. *)
Theorem vanished_entry_skipped item_path item_list w :
  dir_at (fs w) (source_path ++ item_path) = false →
  file_at (fs w) (source_path ++ item_path) = false →
  synchronize_item md5 source_path replica_path item_path w = (Ok tt, w) ∧
  synchronize_folders md5 source_path replica_path (item_path :: item_list) w
  = synchronize_folders md5 source_path replica_path item_list w.
Proof.
  intros Hd Hf.
  assert (synchronize_item md5 source_path replica_path item_path w = (Ok tt, w)) as H.
  { unfold synchronize_item, bind, is_dir, is_file. by rewrite Hd, Hf. }
  split; [done|].
  unfold synchronize_folders. cbn [for_each]. unfold bind at 1. by rewrite H.
Qed.

(** The Propagate loop never exhausts a recursion budget: it returns or it
    raises. *)
Lemma synchronize_item_never_diverges item_path w :
  (synchronize_item md5 source_path replica_path item_path w).1 ≠ Diverge.
Proof.
  unfold synchronize_item, bind at 1, is_dir at 1.
  destruct (dir_at _ _); [apply create_folder_never_diverges|].
  unfold bind at 1, is_file at 1. destruct (file_at _ _); [|done].
  unfold replicate_file, bind at 1, path_exists at 1.
  destruct (bool_decide _).
  - unfold bind at 1.
    destruct (calculate_checksum_result md5 (source_path ++ item_path) w)
      as [(ds & _ & _ & ->)|(e & w1 & ->)]; [|done].
    unfold bind at 1.
    destruct (calculate_checksum_result md5 (replica_path ++ item_path) w)
      as [(dr & _ & _ & ->)|(e & w1 & ->)]; [|done].
    case_bool_decide; [|done].
    by destruct (copy_or_replace_file_returns (source_path ++ item_path)
                   (replica_path ++ item_path) true default_chunk_size w) as [w' ->].
  - by destruct (copy_or_replace_file_returns (source_path ++ item_path)
                   (replica_path ++ item_path) false default_chunk_size w) as [w' ->].
Qed.

Lemma synchronize_folders_never_diverges item_list w :
  (synchronize_folders md5 source_path replica_path item_list w).1 ≠ Diverge.
Proof.
  revert w. induction item_list as [|item_path item_list IH]; intros w; [done|].
  unfold synchronize_folders. cbn [for_each]. unfold bind at 1.
  pose proof (synchronize_item_never_diverges item_path w) as H.
  destruct (synchronize_item md5 source_path replica_path item_path w) as [[[]|e|] w1];
    [apply IH|done..].
Qed.
End Entries.

(** ** Deletion *)

Section Deletion.
Implicit Types (w : world) (p q item : path) (f : filesystem).

Lemma children_spec f p q :
  q ∈ children f p ↔ is_Some (nodes f !! q) ∧ q ≠ [] ∧ parent q = p.
Proof.
  unfold children. rewrite list_elem_of_filter, list_elem_of_fmap. split.
  - intros [[Hne Hpar] [[q' n] [-> Hin]]]. apply elem_of_map_to_list in Hin. eauto.
  - intros [[n Hn] [Hne Hpar]]. split; [done|]. exists (q, n). split; [done|].
    by apply elem_of_map_to_list.
Qed.

Lemma child_name q p : q ≠ [] → parent q = p → ∃ name, q = p ++ [name].
Proof.
  intros Hne <-. exists (List.last q String.EmptyString). by apply app_removelast_last.
Qed.

Lemma depth_bounded f p : bounded f p (depth f).
Proof.
  intros q [n Hq] _. unfold depth.
  assert (length q ≤ max_list (length <$> (map_to_list (nodes f)).*1)); [|lia].
  apply max_list_elem_of_le, list_elem_of_fmap. exists q. split; [done|].
  apply list_elem_of_fmap. exists (q, n). split; [done|]. by apply elem_of_map_to_list.
Qed.

Lemma removes_only_refl P w : removes_only P w w.
Proof. by split. Qed.

Lemma removes_only_trans P w1 w2 w3 :
  removes_only P w1 w2 → removes_only P w2 w3 → removes_only P w1 w3.
Proof.
  intros [Hs1 Hf1] [Hs2 Hf2]. split; [by etrans|].
  intros q Hq. by rewrite Hf2, Hf1.
Qed.

Lemma removes_only_weaken (P Q : path → Prop) w w' :
  (∀ q, P q → Q q) → removes_only P w w' → removes_only Q w w'.
Proof. intros HPQ [Hs Hf]. split; [done|]. intros q Hq. apply Hf. naive_solver. Qed.

Lemma removes_only_delete p w :
  removes_only (eq p) w (set_nodes w (delete p (nodes (fs w)))).
Proof.
  split; cbn; [apply delete_subseteq|]. intros q Hq. by apply lookup_delete_ne.
Qed.

Lemma not_below_self p : ¬ below p p.
Proof.
  intros [name Hpre]. apply prefix_length in Hpre. rewrite length_app in Hpre. cbn in Hpre. lia.
Qed.

Lemma below_prefix p q : below p q → p `prefix_of` q.
Proof. intros [name Hpre]. etrans; [|done]. by apply prefix_app_r. Qed.

Lemma unlink_tame p w :
  ∃ r w', unlink p w = (r, w') ∧ r ≠ Diverge ∧ removes_only (eq p) w w'
          ∧ (∀ e, r = Raise e → w' = w).
Proof.
  unfold unlink. repeat case_match; eexists _, _; (split_and!; [done..| |done]);
    first [apply removes_only_refl | apply removes_only_delete].
Qed.

Lemma rmdir_tame p w :
  ∃ r w', rmdir p w = (r, w') ∧ r ≠ Diverge ∧ removes_only (eq p) w w'
          ∧ (∀ e, r = Raise e → w' = w).
Proof.
  unfold rmdir. repeat case_match; eexists _, _; (split_and!; [done..| |done]);
    first [apply removes_only_refl | apply removes_only_delete].
Qed.

Lemma node_kind_preserved p w w' :
  nodes (fs w') !! p = nodes (fs w) !! p →
  file_at (fs w') p = file_at (fs w) p ∧ dir_at (fs w') p = dir_at (fs w) p.
Proof. intros H. unfold file_at, dir_at, node_at. destruct p; [done|]. by rewrite H. Qed.

Section Loop.
Variable delete_path_item : path → M unit.
Variable p : path.
Variable nodes0 : gmap path node.

(** The recursive call, on a directory entry of [p], returns and removes
    nodes at that entry and below it only. *)
Hypothesis delete_path_item_returns : ∀ item w,
  (∃ name, item = p ++ [name]) → dir_at (fs w) item = true →
  nodes (fs w) ⊆ nodes0 →
  ∃ w', delete_path_item item w = (Ok tt, w') ∧
        removes_only (λ q, item `prefix_of` q) w w'.

Lemma delete_loop_tame items w :
  (∀ item, item ∈ items → ∃ name, item = p ++ [name]) →
  nodes (fs w) ⊆ nodes0 →
  ∃ r w',
    for_each items (delete_path_entry delete_path_item) w = (r, w')
    ∧ r ≠ Diverge ∧ removes_only (below p) w w'.
Proof.
  revert w. induction items as [|item items IH]; intros w Hitems Hsub.
  { eexists _, _. split_and!; [done..|apply removes_only_refl]. }
  cbn [for_each]. unfold bind at 1, delete_path_entry at 1, bind at 1, is_dir at 1.
  destruct (Hitems item ltac:(left)) as [name Hname].
  assert (∃ r w1, (if dir_at (fs w) item then delete_path_item item else unlink item) w
                  = (r, w1) ∧ r ≠ Diverge ∧ removes_only (below p) w w1)
    as (r & w1 & -> & Hr & Hs1).
  { destruct (dir_at (fs w) item) eqn:Hd.
    - destruct (delete_path_item_returns item w) as (w1 & -> & Hrem); [by eauto|done..|].
      eexists _, _. split_and!; [done..|].
      eapply removes_only_weaken; [|done]. intros q Hq. exists name. by subst.
    - destruct (unlink_tame item w) as (r & w1 & -> & ? & Hrem & _).
      eexists _, _. split_and!; [done..|].
      eapply removes_only_weaken; [|done]. intros q <-. exists name. by subst. }
  destruct r as [[]|e|]; [|by eexists _, _|done].
  destruct (IH w1) as (r & w2 & -> & ? & ?).
  - intros ??. apply Hitems. by right.
  - etrans; [apply Hs1|done].
  - eexists _, _. split_and!; [done..|]. by eapply removes_only_trans.
Qed.

Lemma delete_path_try_tame w :
  nodes (fs w) ⊆ nodes0 →
  ∃ r w', delete_path_try delete_path_item p w = (r, w')
          ∧ r ≠ Diverge ∧ removes_only (λ q, p `prefix_of` q) w w'
          ∧ (∀ e, r = Raise e → file_at (fs w') p = true ∨ dir_at (fs w') p = true).
Proof.
  intros Hsub. unfold delete_path_try, bind, is_file, is_dir, iterdir.
  destruct (file_at (fs w) p) eqn:Hf.
  { destruct (unlink_tame p w) as (r & w1 & -> & ? & Hrem & Hsame).
    assert (removes_only (λ q, p `prefix_of` q) w w1)
      by (eapply removes_only_weaken; [|done]; by intros q <-).
    destruct r as [[]|e|]; [| |done].
    - cbn. eexists _, _. by split_and!.
    - eexists _, _. split_and!; [done..|]. intros ? _. rewrite (Hsame e) by done. by left. }
  destruct (dir_at (fs w) p) eqn:Hd;
    [|eexists _, _; split_and!; [done..|apply removes_only_refl|done]].
  assert (node_at (fs w) p = Some Dir) as ->.
  { unfold dir_at in Hd. by destruct (node_at (fs w) p) as [[]|]. }
  destruct (delete_loop_tame (children (fs w) p) w) as (r & w1 & -> & ? & Hrem); [|done|].
  { intros item (_ & ? & ?)%children_spec. by apply child_name. }
  assert (dir_at (fs w1) p = true) as Hd1.
  { destruct Hrem as [_ Hframe].
    destruct (node_kind_preserved p w w1) as [_ ->]; [|done].
    apply Hframe, not_below_self. }
  assert (removes_only (λ q, p `prefix_of` q) w w1)
    by (eapply removes_only_weaken; [|done]; apply below_prefix).
  destruct r as [[]|e|]; [|eexists _, _; split_and!; [done..|by right]|done].
  destruct (rmdir_tame p w1) as (r & w2 & -> & ? & Hrem2 & Hsame).
  assert (removes_only (λ q, p `prefix_of` q) w w2).
  { eapply removes_only_trans; [done|].
    eapply removes_only_weaken; [|done]. by intros q <-. }
  destruct r as [[]|e|]; [| |done].
  - cbn. eexists _, _. by split_and!.
  - eexists _, _. split_and!; [done..|]. intros ? _. rewrite (Hsame e) by done. by right.
Qed.
End Loop.

Lemma delete_path_rec_eq fuel p :
  delete_path_rec fuel p
  = try_except (delete_path_try (delete_path_call fuel) p) (delete_path_except p).
Proof. by destruct fuel. Qed.

Lemma delete_path_except_returns p e w :
  ∃ l, delete_path_except p e w = (Ok tt, World (fs w) (log w ++ l)).
Proof.
  unfold delete_path_except, bind, is_file, is_dir, logger, ret.
  destruct w as [f l]. cbn.
  repeat case_match; (eexists; f_equal; f_equal; first [done | by rewrite app_nil_r]).
Qed.

(** The exception clauses log whenever the target is still a file or a
    directory. *)
Lemma delete_path_except_logs p e w :
  file_at (fs w) p = true ∨ dir_at (fs w) p = true →
  ∃ lv msg, lv ≠ INFO ∧
    delete_path_except p e w = (Ok tt, World (fs w) (log w ++ [(lv, msg)])).
Proof.
  intros Hp. unfold delete_path_except, bind, is_file, is_dir, logger, ret.
  destruct (is_FileNotFoundError e); [|by eexists ERROR, _].
  destruct (file_at (fs w) p); [by eexists WARNING, _|].
  destruct (dir_at (fs w) p); [by eexists WARNING, _|]. by destruct Hp.
Qed.

(** The budget is enough for the recursive calls of a [try] block. *)
Lemma delete_path_call_returns fuel p w0 :
  bounded (fs w0) p fuel →
  (∀ k item w, k < fuel → bounded (fs w) item k →
     ∃ w', delete_path_rec k item w = (Ok tt, w') ∧
           removes_only (λ q, item `prefix_of` q) w w') →
  ∀ item w,
    (∃ name, item = p ++ [name]) → dir_at (fs w) item = true →
    nodes (fs w) ⊆ nodes (fs w0) →
    ∃ w', delete_path_call fuel item w = (Ok tt, w') ∧
          removes_only (λ q, item `prefix_of` q) w w'.
Proof.
  intros Hb IH item w [name ->] Hd Hsub.
  assert (is_Some (nodes (fs w0) !! (p ++ [name]))) as Hin.
  { unfold dir_at, node_at in Hd. destruct (p ++ [name]) eqn:E; [by destruct p|].
    destruct (nodes (fs w) !! (s :: l)) as [n|] eqn:Hn; [|done].
    eapply lookup_weaken in Hn; [|done]. eauto. }
  destruct fuel as [|k].
  - exfalso. specialize (Hb _ Hin ltac:(by apply prefix_app_r)).
    rewrite length_app in Hb. cbn in Hb. lia.
  - cbn [delete_path_call]. apply IH; [lia|].
    intros q [n Hq] Hpre. eapply lookup_weaken in Hq; [|done].
    assert (p `prefix_of` q) by (etrans; [by apply prefix_app_r|done]).
    specialize (Hb q ltac:(eauto) ltac:(done)). rewrite length_app. cbn. lia.
Qed.

Lemma delete_path_rec_returns fuel p w :
  bounded (fs w) p fuel →
  ∃ w', delete_path_rec fuel p w = (Ok tt, w') ∧
        removes_only (λ q, p `prefix_of` q) w w'.
Proof.
  revert p w. induction (lt_wf fuel) as [fuel _ IH]. intros p w Hb.
  rewrite delete_path_rec_eq. unfold try_except.
  edestruct (delete_path_try_tame (delete_path_call fuel) p (nodes (fs w)))
    as (r & w1 & -> & Hr & Hs & _); [|reflexivity|].
  { eapply delete_path_call_returns; [done|]. intros k item w' Hk. by apply IH. }
  destruct r as [[]|e|]; [by eexists| |done].
  destruct (delete_path_except_returns p e w1) as [l ->]. by eexists.
Qed.

Lemma delete_path_returns p w : ∃ w', delete_path p w = (Ok tt, w').
Proof.
  unfold delete_path.
  destruct (delete_path_rec_returns (depth (fs w)) p w (depth_bounded _ _))
    as (w' & Hr & _). eauto.
Qed.

End Deletion.

(** ** Failures inside an entry *)

Section Failures.
Variable md5 : bytes → string.
Variables source_path replica_path : path.
Implicit Types (w : world) (item_path : path) (item_list : list path) (e : exc).

Lemma clean_up_item_returns item_path w :
  ∃ w', clean_up_item source_path replica_path item_path w = (Ok tt, w').
Proof.
  unfold clean_up_item, bind, path_exists.
  destruct (negb _); [|by eexists].
  destruct (delete_path_returns (replica_path ++ item_path) w) as [w' ->]. by eexists.
Qed.

Lemma clean_up_replica_returns item_list w :
  ∃ w', clean_up_replica source_path replica_path item_list w = (Ok tt, w').
Proof.
  revert w. induction item_list as [|item_path item_list IH]; intros w; [by eexists|].
  unfold clean_up_replica. cbn [for_each]. unfold bind at 1.
  destruct (clean_up_item_returns item_path w) as [w1 ->]. apply IH.
Qed.

Lemma create_folder_raises p w e w1 :
  node_at (fs w) p = None → mkdir_parents p w = (Raise e, w1) →
  ∃ msg, create_folder p w = (Raise e, World (fs w1) (log w1 ++ [(ERROR, msg)])).
Proof.
  intros Hp Hm. unfold create_folder, try_except, bind, path_exists. rewrite Hp.
  rewrite bool_decide_eq_false_2 by (by intros [??]). cbn [negb]. rewrite Hm.
  unfold logger, raise. destruct (is_OSError e); eauto.
Qed.

(** C2, as the code has it.  In the Prune phase, once the existence test
    of an entry has answered, nothing leaves the iteration: an entry that
    has a counterpart in the source is left alone, an entry that has none
    is handed to [delete_path], which returns normally whatever the
    deletion meets, and the loop goes on with the next entry on the state
    this one left.  In the Propagate phase whatever an entry raises leaves
    [synchronize_folders] at that entry, with the remaining entries not
    processed; a failing checksum or a failing directory creation does
    raise, after one ERROR record of the helper; and in the single-threaded
    path the error leaves the pass before the Prune phase. *)
Theorem entry_failure_propagation :
  (∀ item_path item_list w,
     is_Some (node_at (fs w) (source_path ++ item_path)) →
     clean_up_item source_path replica_path item_path w = (Ok tt, w) ∧
     clean_up_replica source_path replica_path (item_path :: item_list) w
     = clean_up_replica source_path replica_path item_list w) ∧
  (∀ item_path item_list w,
     node_at (fs w) (source_path ++ item_path) = None →
     ∃ w1,
       delete_path (replica_path ++ item_path) w = (Ok tt, w1) ∧
       clean_up_item source_path replica_path item_path w = (Ok tt, w1) ∧
       clean_up_replica source_path replica_path (item_path :: item_list) w
       = clean_up_replica source_path replica_path item_list w1) ∧
  (∀ item_path item_list w e w1,
     synchronize_item md5 source_path replica_path item_path w = (Raise e, w1) →
     synchronize_folders md5 source_path replica_path (item_path :: item_list) w
     = (Raise e, w1)) ∧
  (∀ item_path w e w1,
     dir_at (fs w) (source_path ++ item_path) = false →
     file_at (fs w) (source_path ++ item_path) = true →
     is_Some (node_at (fs w) (replica_path ++ item_path)) →
     calculate_checksum md5 (source_path ++ item_path) w = (Raise e, w1) ∨
     (∃ d, calculate_checksum md5 (source_path ++ item_path) w = (Ok d, w) ∧
           calculate_checksum md5 (replica_path ++ item_path) w = (Raise e, w1)) →
     synchronize_item md5 source_path replica_path item_path w = (Raise e, w1) ∧
     ∃ msg, w1 = World (fs w) (log w ++ [(ERROR, msg)])) ∧
  (∀ item_path w e w1,
     dir_at (fs w) (source_path ++ item_path) = true →
     node_at (fs w) (replica_path ++ item_path) = None →
     mkdir_parents (replica_path ++ item_path) w = (Raise e, w1) →
     ∃ msg, synchronize_item md5 source_path replica_path item_path w
            = (Raise e, World (fs w1) (log w1 ++ [(ERROR, msg)]))) ∧
  (∀ source_items replica_items w e w1,
     synchronize_folders md5 source_path replica_path source_items w = (Raise e, w1) →
     process_without_threads md5 source_path replica_path source_items replica_items w
     = (Raise e, w1)).
Proof.
  split_and!.
  - intros item_path item_list w Hs.
    assert (clean_up_item source_path replica_path item_path w = (Ok tt, w)) as H.
    { unfold clean_up_item, bind, path_exists. by rewrite bool_decide_eq_true_2. }
    split; [done|].
    unfold clean_up_replica. cbn [for_each]. unfold bind at 1. by rewrite H.
  - intros item_path item_list w Hs.
    destruct (delete_path_returns (replica_path ++ item_path) w) as [w1 Hdel].
    assert (clean_up_item source_path replica_path item_path w = (Ok tt, w1)) as H.
    { unfold clean_up_item, bind, path_exists. rewrite Hs.
      by rewrite bool_decide_eq_false_2 by (by intros [??]). }
    exists w1. split_and!; [done..|].
    unfold clean_up_replica. cbn [for_each]. unfold bind at 1. by rewrite H.
  - intros item_path item_list w e w1 H.
    unfold synchronize_folders. cbn [for_each]. unfold bind at 1. by rewrite H.
  - intros item_path w e w1 Hd Hf Hr Hc.
    unfold synchronize_item, bind at 1, is_dir at 1. rewrite Hd.
    unfold bind at 1, is_file at 1. rewrite Hf.
    unfold replicate_file, bind at 1, path_exists at 1.
    rewrite bool_decide_eq_true_2 by done.
    destruct Hc as [Hc|(d & Hc1 & Hc)].
    + unfold bind at 1. rewrite Hc. split; [done|].
      by apply calculate_checksum_raises in Hc as [_ ?].
    + unfold bind at 1. rewrite Hc1. unfold bind at 1. rewrite Hc. split; [done|].
      by apply calculate_checksum_raises in Hc as [_ ?].
  - intros item_path w e w1 Hd Hn Hm.
    destruct (create_folder_raises _ _ _ _ Hn Hm) as [msg Hc]. exists msg.
    unfold synchronize_item, bind at 1, is_dir at 1. by rewrite Hd.
  - intros source_items replica_items w e w1 H.
    unfold process_without_threads, bind at 1. by rewrite H.
Qed.
End Failures.

(** ** The worker pool *)

Section Pool_facts.
Variable md5 : bytes → string.
Variables source_path replica_path : path.
Variable prog : list action.
Implicit Types (st : pool) (c : pick) (sched : list pick).

Local Abbreviation step := (step md5 source_path replica_path prog).
Local Abbreviation run := (run md5 source_path replica_path prog).

Local Abbreviation pool_inv := (pool_inv prog).

Lemma pool_inv_spawn w : pool_inv (spawn w).
Proof.
  split; cbn; [lia|by rewrite take_0..| |done].
  intros i. rewrite take_0. by intros ?%elem_of_nil.
Qed.

Lemma starts_of_snoc l a :
  starts_of (l ++ [a]) =
  starts_of l ++ match a with Start tg chunk => [(tg, chunk)] | Join _ => [] end.
Proof. unfold starts_of. rewrite omap_app. by destruct a. Qed.

Lemma pool_inv_step c st st' : pool_inv st → step c st = Some st' → pool_inv st'.
Proof.
  intros [Hpc Hst Hth Hj Hs] Hstep. destruct c as [|i]; cbn in Hstep.
  - destruct (prog !! pc st) as [a|] eqn:Ha; [|done].
    pose proof (lookup_lt_Some _ _ _ Ha) as Hlt.
    pose proof (take_S_r _ _ _ Ha) as Htake.
    destruct a as [tg chunk|i].
    + simplify_eq. split; cbn.
      * lia.
      * unfold started in *. rewrite omap_app, Hst, Htake, starts_of_snoc. done.
      * rewrite Htake, starts_of_snoc, !length_app, Hth. done.
      * intros i. rewrite Htake. intros [Hi|Hi%list_elem_of_singleton]%elem_of_app; [|done].
        destruct (Hj i Hi) as [tg' Htg]. exists tg'.
        rewrite lookup_app_l; [done|]. by eapply lookup_lt_Some.
      * unfold worker_steps in *. rewrite omap_app. cbn. rewrite app_nil_r.
        eapply Forall_impl; [done|]. intros ? ?. cbn in *. rewrite length_app. lia.
    + destruct (threads st !! i) as [[tg [|??]]|] eqn:Hi; [|done..].
      simplify_eq. split; cbn.
      * lia.
      * unfold started in *. rewrite omap_app, Hst, Htake, starts_of_snoc. cbn.
        by rewrite !app_nil_r.
      * rewrite Htake, starts_of_snoc, app_nil_r. done.
      * intros j. rewrite Htake.
        intros [Hin|Hin%list_elem_of_singleton]%elem_of_app; [by apply Hj|].
        simplify_eq. eauto.
      * unfold worker_steps in *. rewrite omap_app. cbn. by rewrite app_nil_r.
  - destruct (threads st !! i) as [[tg [|item todo]]|] eqn:Hi; [done| |done].
    destruct (target_item md5 source_path replica_path tg item (pworld st)) as [r w'].
    simplify_eq. split; cbn.
    + done.
    + unfold started in *. rewrite omap_app. cbn. by rewrite app_nil_r.
    + by rewrite length_insert.
    + intros j Hin. destruct (Hj j Hin) as [tg' Htg]. exists tg'.
      rewrite list_lookup_insert_ne; [done|]. intros ->. by simplify_eq.
    + unfold worker_steps in *. rewrite omap_app. cbn. rewrite length_insert.
      apply Forall_app. split; [done|]. apply Forall_singleton. cbn.
      by eapply lookup_lt_Some.
Qed.

Lemma run_invariant (P : pool → Prop) :
  (∀ c st st', pool_inv st → P st → step c st = Some st' → P st') →
  ∀ sched st st', pool_inv st → P st → run sched st = Some st' → pool_inv st' ∧ P st'.
Proof.
  intros Hstep sched. induction sched as [|c sched IH]; intros st st' Hinv HP Hrun.
  - cbn in Hrun. by simplify_eq.
  - cbn in Hrun. destruct (step c st) as [st1|] eqn:E; [|done].
    eapply IH; [| |done].
    + by eapply pool_inv_step.
    + by eapply Hstep.
Qed.

Lemma pool_inv_run sched w st : run sched (spawn w) = Some st → pool_inv st.
Proof.
  intros H. eapply (run_invariant (λ _, True)); [done| |done|done]. apply pool_inv_spawn.
Qed.

Lemma target_fun_eq tg (chunk : list path) :
  target_fun md5 source_path replica_path tg chunk
  = for_each chunk (target_item md5 source_path replica_path tg).
Proof. by destruct tg. Qed.

(** A worker left to run alone does what its target function does on its
    chunk: the iterations of the pool are those of the loops of
    [synchronize_folders] and [clean_up_replica]. *)
Lemma worker_runs_target st i tg chunk :
  threads st !! i = Some (Thread tg chunk) →
  ∃ k st' r,
    run (replicate k (Worker i)) st = Some st' ∧
    target_fun md5 source_path replica_path tg chunk (pworld st) = (r, pworld st') ∧
    threads st' !! i = Some (Thread tg []) ∧ pc st' = pc st.
Proof.
  revert st. induction chunk as [|item chunk IH]; intros st Hi.
  { exists 0, st, (Ok tt). by rewrite target_fun_eq. }
  pose proof (lookup_lt_Some _ _ _ Hi) as Hlt.
  destruct (target_item md5 source_path replica_path tg item (pworld st)) as [r w1] eqn:E.
  assert (step (Worker i) st
          = Some (Pool (pc st)
                       (<[i := Thread tg (match r with Ok _ => chunk | _ => [] end)]>
                          (threads st))
                       w1 (history st ++ [Stepped i tg item]))) as Hstep.
  { cbn. by rewrite Hi, E. }
  destruct r as [[]|e|].
  - destruct (IH (Pool (pc st) (<[i := Thread tg chunk]> (threads st)) w1
                       (history st ++ [Stepped i tg item])))
      as (k & st' & r & Hrun & Hfun & Hdone & Hpc).
    { cbn. by apply list_lookup_insert_eq. }
    exists (S k), st', r. split_and!; [|..|done|done].
    + cbn [replicate run]. by rewrite Hstep.
    + rewrite target_fun_eq in *. cbn [for_each]. unfold bind at 1. by rewrite E.
  - eexists 1, _, (Raise e). split_and!.
    + cbn [replicate run]. by rewrite Hstep.
    + rewrite target_fun_eq. cbn [for_each]. unfold bind at 1. by rewrite E.
    + cbn. by apply list_lookup_insert_eq.
    + done.
  - eexists 1, _, Diverge. split_and!.
    + cbn [replicate run]. by rewrite Hstep.
    + rewrite target_fun_eq. cbn [for_each]. unfold bind at 1. by rewrite E.
    + cbn. by apply list_lookup_insert_eq.
    + done.
Qed.

(** The join barrier, for any program in which the thread [n] is started
    only after the threads below [n] have been joined. *)
Section Barrier.
Variable n : nat.
Hypothesis joined_before_next : ∀ k,
  n < length (starts_of (take k prog)) → ∀ i, i < n → Join i ∈ take k prog.

Lemma barrier_step c st st' :
  pool_inv st → in_two_batches n (worker_steps (history st)) →
  step c st = Some st' → in_two_batches n (worker_steps (history st')).
Proof.
  intros [Hpc Hst Hth Hj Hs] (h1 & h2 & Hh & H1 & H2) Hstep.
  destruct c as [|i]; cbn in Hstep.
  - exists h1, h2. split_and!; [|done..]. rewrite <- Hh.
    destruct (prog !! pc st) as [[tg chunk|i]|]; [| |done].
    + simplify_eq. cbn. unfold worker_steps. rewrite omap_app. cbn. by rewrite app_nil_r.
    + destruct (threads st !! i) as [[tg [|??]]|]; [|done..]. simplify_eq. cbn.
      unfold worker_steps. rewrite omap_app. cbn. by rewrite app_nil_r.
  - destruct (threads st !! i) as [[tg [|item todo]]|] eqn:Hi; [done| |done].
    destruct (target_item md5 source_path replica_path tg item (pworld st)) as [r w'].
    simplify_eq. cbn. unfold worker_steps in *. rewrite omap_app, Hh. cbn.
    destruct (decide (n ≤ i)) as [Hle|Hlt].
    { exists h1, (h2 ++ [(i, tg, item)]). rewrite app_assoc. split_and!; [done..|].
      apply Forall_app. split; [done|]. by apply Forall_singleton. }
    destruct h2 as [|s h2].
    { exists (h1 ++ [(i, tg, item)]), []. rewrite !app_nil_r. split_and!; [done| |done].
      apply Forall_app. split; [done|]. apply Forall_singleton. cbn. lia. }
    exfalso. rewrite Hh in Hs.
    apply Forall_app in Hs as [_ Hs]. apply Forall_cons in Hs as [Hs _].
    apply Forall_cons in H2 as [H2 _]. cbn in *.
    destruct (Hj i) as [tg' Htg].
    { apply joined_before_next; lia. }
    by simplify_eq.
Qed.

Lemma barrier_run sched w st :
  run sched (spawn w) = Some st → in_two_batches n (worker_steps (history st)).
Proof.
  intros H. eapply (run_invariant (λ st, in_two_batches n (worker_steps (history st)))).
  - intros ?????. by eapply barrier_step.
  - apply pool_inv_spawn.
  - exists [], []. by split_and!.
  - done.
Qed.
End Barrier.
End Pool_facts.

(** ** The two execution paths of a pass *)

Section Paths.
Variable md5 : bytes → string.
Variables source_path replica_path : path.
Implicit Types (source_items replica_items : list (list path)) (w : world).

Local Abbreviation run := (run md5 source_path replica_path).

Lemma starts_of_app l1 l2 : starts_of (l1 ++ l2) = starts_of l1 ++ starts_of l2.
Proof. apply omap_app. Qed.

Lemma starts_of_Start tg (chunks : list (list path)) :
  starts_of (Start tg <$> chunks) = pair tg <$> chunks.
Proof. induction chunks as [|c chunks IH]; [done|]. cbn. by rewrite <- IH. Qed.

Lemma starts_of_Join (l : list nat) : starts_of (Join <$> l) = [].
Proof. by induction l. Qed.

Lemma starts_of_batch first source_items replica_items :
  starts_of (batch first source_items replica_items)
  = batch_threads source_items replica_items.
Proof.
  unfold batch, batch_threads.
  by rewrite !starts_of_app, !starts_of_Start, starts_of_Join, app_nil_r.
Qed.

Lemma starts_of_take_le k (l : list action) :
  length (starts_of (take k l)) ≤ length (starts_of l).
Proof.
  rewrite <- (take_drop k l) at 2. rewrite starts_of_app, length_app. lia.
Qed.

(** In [process_with_threads] the first thread of the second batch is
    started after every thread of the first batch has been joined. *)
Lemma process_with_threads_joins source_items replica_items k :
  let n := length source_items + length replica_items in
  n < length (starts_of (take k (process_with_threads source_items replica_items))) →
  ∀ i, i < n → Join i ∈ take k (process_with_threads source_items replica_items).
Proof.
  intros n Hk i Hi. unfold process_with_threads in *. fold n in Hk |- *.
  destruct (decide (k ≤ length (batch 0 source_items replica_items))) as [Hle|Hgt].
  - rewrite take_app_le in Hk by done.
    pose proof (starts_of_take_le k (batch 0 source_items replica_items)) as Hl.
    rewrite starts_of_batch in Hl. unfold batch_threads in Hl.
    rewrite length_app, !length_fmap in Hl. lia.
  - rewrite take_app_ge by lia. apply elem_of_app. left.
    unfold batch. rewrite !elem_of_app. right. right.
    apply list_elem_of_fmap. exists i. split; [done|].
    apply elem_of_seq. lia.
Qed.

(** C1, as the code has it.  In the single-threaded path the Prune phase
    runs on the state the complete Propagate phase has left, and not at
    all when Propagate raised.  In the worker pool the only barrier is
    the join that ends a batch: under every interleaving all iterations
    of the workers of the first batch, propagate and prune alike, come
    before all iterations of the workers of the second batch. *)
Theorem barrier_between_batches :
  (∀ (source_list replica_list : list path) w,
     process_without_threads md5 source_path replica_path source_list replica_list w
     = match synchronize_folders md5 source_path replica_path source_list w with
       | (Ok _, w1) => clean_up_replica source_path replica_path replica_list w1
       | (Raise e, w1) => (Raise e, w1)
       | (Diverge, w1) => (Diverge, w1)
       end) ∧
  (∀ source_items replica_items sched w st,
     run (process_with_threads source_items replica_items) sched (spawn w) = Some st →
     in_two_batches (length source_items + length replica_items)
                    (worker_steps (history st))).
Proof.
  split.
  - intros. reflexivity.
  - intros source_items replica_items sched w st Hrun.
    eapply barrier_run; [|done]. apply process_with_threads_joins.
Qed.

(** C4. The worker pool starts, for every source chunk, a thread of
    [synchronize_folders] and, for every replica chunk, a thread of
    [clean_up_replica], and then starts all of them a second time: these
    are the threads of every run up to the return of the main thread.
    The single-threaded path runs [synchronize_folders] once and then
    [clean_up_replica] once. *)
Theorem double_execution :
  (∀ source_items replica_items,
     starts_of (process_with_threads source_items replica_items)
     = batch_threads source_items replica_items
       ++ batch_threads source_items replica_items) ∧
  (∀ source_items replica_items sched w st,
     let prog := process_with_threads source_items replica_items in
     run prog sched (spawn w) = Some st → returned prog st →
     started (history st)
     = batch_threads source_items replica_items
       ++ batch_threads source_items replica_items ∧
     length (threads st) = 2 * (length source_items + length replica_items) ∧
     Forall (λ t, th_todo t = []) (threads st)) ∧
  (∀ (source_list replica_list : list path),
     process_without_threads md5 source_path replica_path source_list replica_list
     = (synchronize_folders md5 source_path replica_path source_list;;
        clean_up_replica source_path replica_path replica_list)).
Proof.
  assert (∀ source_items replica_items,
     starts_of (process_with_threads source_items replica_items)
     = batch_threads source_items replica_items
       ++ batch_threads source_items replica_items) as Hstarts.
  { intros. unfold process_with_threads. by rewrite starts_of_app, !starts_of_batch. }
  split_and!; [done| |done].
  intros source_items replica_items sched w st prog Hrun Hret.
  destruct (pool_inv_run _ _ _ _ _ _ _ Hrun) as [_ Hst Hth Hj _].
  unfold returned in Hret. rewrite Hret, firstn_all in Hst, Hth, Hj.
  fold prog in Hstarts. unfold prog in *. rewrite Hstarts in Hst, Hth.
  assert (length (threads st) = 2 * (length source_items + length replica_items)) as Hlen.
  { rewrite Hth. unfold batch_threads. rewrite !length_app, !length_fmap. lia. }
  split_and!; [done..|].
  apply Forall_lookup. intros i t Hi.
  pose proof (lookup_lt_Some _ _ _ Hi) as Hlt.
  destruct (Hj i) as [tg Htg]; [|by simplify_eq].
  unfold process_with_threads, batch. rewrite !elem_of_app.
  destruct (decide (i < length source_items + length replica_items)).
  - left. right. right. apply list_elem_of_fmap. exists i. split; [done|].
    apply elem_of_seq. lia.
  - right. right. right. apply list_elem_of_fmap. exists i. split; [done|].
    apply elem_of_seq. lia.
Qed.
End Paths.

(** ** Closed runs *)

Section Closed_runs.
Import Examples.
Local Open Scope string_scope.
Local Open Scope nat_scope.
Local Open Scope list_scope.

Lemma partition_exact_witness :
  1 ≤ 2 ∧
  length (Chunks.chunk_list [["a"]; ["b"]; ["c"]] 2) = 2 ∧
  concat (Chunks.chunk_list [["a"]; ["b"]; ["c"]] 2) ≡ₚ [["a"]; ["b"]; ["c"]].
Proof.
  split; [lia|].
  destruct (partition_exact [["a"]; ["b"]; ["c"]] 2 ltac:(lia)) as (H1 & H2 & _).
  exact (conj H1 H2).
Defined.

Lemma chunk_order_preserved_witness :
  1 ≤ 2 ∧ 1 < 2 ∧
  ∃ c, Chunks.chunk_list [10; 11; 12; 13; 14] 2 !! 1 = Some c ∧
       sublist c [10; 11; 12; 13; 14] ∧
       ∀ k, c !! k = [10; 11; 12; 13; 14] !! (1 + k * 2).
Proof.
  split; [lia|]. split; [lia|].
  apply (chunk_order_preserved [10; 11; 12; 13; 14] 2 1); lia.
Defined.

Lemma replicate_file_decision_witness :
  replicate_file plain_digest ["src"; "a.txt"] ["rep"; "a.txt"] missing_in_replica
  = copy_or_replace_file ["src"; "a.txt"] ["rep"; "a.txt"] false default_chunk_size
      missing_in_replica ∧
  replicate_file plain_digest ["src"; "a.txt"] ["rep"; "a.txt"] different_content
  = copy_or_replace_file ["src"; "a.txt"] ["rep"; "a.txt"] true default_chunk_size
      different_content ∧
  replicate_file plain_digest ["src"; "a.txt"] ["rep"; "a.txt"] same_content
  = (Ok tt, same_content).
Proof.
  split_and!.
  - apply (replicate_file_decision plain_digest). reflexivity.
  - eapply (replicate_file_decision plain_digest);
      [reflexivity | reflexivity | reflexivity | reflexivity | by vm_compute].
  - eapply (replicate_file_decision plain_digest);
      [reflexivity | reflexivity | reflexivity | reflexivity | reflexivity].
Defined.

Lemma vanished_entry_skipped_witness :
  dir_at (fs missing_in_replica) (src ++ ["gone.txt"]) = false ∧
  file_at (fs missing_in_replica) (src ++ ["gone.txt"]) = false ∧
  synchronize_item plain_digest src rep ["gone.txt"] missing_in_replica
  = (Ok tt, missing_in_replica) ∧
  synchronize_folders plain_digest src rep [["gone.txt"]; ["a.txt"]] missing_in_replica
  = synchronize_folders plain_digest src rep [["a.txt"]] missing_in_replica.
Proof.
  split; [reflexivity|]. split; [reflexivity|].
  apply (vanished_entry_skipped plain_digest src rep); reflexivity.
Defined.



(** C1 as stated fails in the worker pool.  With two threads on
    [unsynced], the interleaving [prune_first] is a complete run of
    [process_with_threads] in which the worker of [clean_up_replica]
    deletes [stale.txt] before the worker of [synchronize_folders] of the
    same batch copies [a.txt]. *)
Lemma prune_overtakes_propagate :
  (get_items_chunks src 2 unsynced).1 = Ok (Chunked [[["a.txt"]]; []]) ∧
  (get_items_chunks rep 2 unsynced).1 = Ok (Chunked [[["stale.txt"]]; []]) ∧
  ∃ st,
    run plain_digest src rep
        (process_with_threads [[["a.txt"]]; []] [[["stale.txt"]]; []])
        prune_first (spawn unsynced) = Some st ∧
    returned (process_with_threads [[["a.txt"]]; []] [[["stale.txt"]]; []]) st ∧
    worker_steps (history st)
    = [(2, Clean_up_replica, ["stale.txt"]); (0, Synchronize_folders, ["a.txt"]);
       (6, Clean_up_replica, ["stale.txt"]); (4, Synchronize_folders, ["a.txt"])] ∧
    log (pworld st)
    = [(INFO, Deleted_file ["rep"; "stale.txt"]);
       (INFO, File_copied ["src"; "a.txt"] ["rep"; "a.txt"])] ∧
    ¬ propagate_before_prune (worker_steps (history st)).
Proof.
  split; [reflexivity|]. split; [reflexivity|].
  eexists. split; [vm_compute; reflexivity|].
  split; [reflexivity|]. split; [reflexivity|]. split; [reflexivity|].
  intros H. specialize (H 1 0 _ _ eq_refl eq_refl eq_refl eq_refl). lia.
Qed.

Lemma barrier_between_batches_witness :
  ∃ st,
    run plain_digest src rep
        (process_with_threads [[["a.txt"]]; []] [[["stale.txt"]]; []])
        prune_first (spawn unsynced) = Some st ∧
    in_two_batches 4 (worker_steps (history st)).
Proof.
  eexists. split; [vm_compute; reflexivity|].
  apply (proj2 (barrier_between_batches plain_digest src rep)
               [[["a.txt"]]; []] [[["stale.txt"]]; []] prune_first unsynced).
  vm_compute. reflexivity.
Defined.

Lemma double_execution_witness :
  ∃ st,
    run plain_digest src rep
        (process_with_threads [[["a.txt"]]; []] [[["stale.txt"]]; []])
        prune_first (spawn unsynced) = Some st ∧
    started (history st)
    = batch_threads [[["a.txt"]]; []] [[["stale.txt"]]; []]
      ++ batch_threads [[["a.txt"]]; []] [[["stale.txt"]]; []] ∧
    length (threads st) = 8 ∧
    Forall (λ t, th_todo t = []) (threads st).
Proof.
  destruct (run plain_digest src rep
              (process_with_threads [[["a.txt"]]; []] [[["stale.txt"]]; []])
              prune_first (spawn unsynced)) as [st|] eqn:Hrun;
    [|vm_compute in Hrun; discriminate].
  exists st. split; [reflexivity|].
  apply (proj1 (proj2 (double_execution plain_digest src rep))
               [[["a.txt"]]; []] [[["stale.txt"]]; []] prune_first unsynced st Hrun).
  vm_compute in Hrun. injection Hrun as <-. reflexivity.
Defined.

(** C2 as stated fails in the Propagate phase.  The checksum of the
    replica of [a] fails; the error leaves the loop, [b] is not copied,
    and in a single-threaded pass the Prune phase does not run:
    [stale.txt] stays. *)
Lemma failing_checksum_ends_chunk :
  synchronize_folders plain_digest src rep [["a"]; ["b"]] type_clash
  = (Raise (IsADirectoryError ["rep"; "a"]),
     World (fs type_clash)
           [(ERROR, IOError_checksum ["rep"; "a"] (IsADirectoryError ["rep"; "a"]))]) ∧
  file_at (fs type_clash) ["src"; "b"] = true ∧
  node_at (fs type_clash) ["rep"; "b"] = None ∧
  process_without_threads plain_digest src rep [["a"]; ["b"]] [["a"]; ["stale.txt"]]
    type_clash
  = (Raise (IsADirectoryError ["rep"; "a"]),
     World (fs type_clash)
           [(ERROR, IOError_checksum ["rep"; "a"] (IsADirectoryError ["rep"; "a"]))]) ∧
  file_at (fs type_clash) ["rep"; "stale.txt"] = true.
Proof. split_and!; reflexivity. Qed.

Lemma entry_failure_propagation_witness :
  synchronize_item plain_digest src rep ["a"] type_clash
  = (Raise (IsADirectoryError ["rep"; "a"]),
     World (fs type_clash)
           [(ERROR, IOError_checksum ["rep"; "a"] (IsADirectoryError ["rep"; "a"]))]) ∧
  synchronize_folders plain_digest src rep [["a"]; ["b"]] type_clash
  = (Raise (IsADirectoryError ["rep"; "a"]),
     World (fs type_clash)
           [(ERROR, IOError_checksum ["rep"; "a"] (IsADirectoryError ["rep"; "a"]))]) ∧
  node_at (fs locked_stale) (src ++ ["locked.txt"]) = None ∧
  ∃ w1,
    clean_up_item src rep ["locked.txt"] locked_stale = (Ok tt, w1) ∧
    clean_up_replica src rep [["locked.txt"]; ["other.txt"]] locked_stale
    = clean_up_replica src rep [["other.txt"]] w1.
Proof.
  destruct (entry_failure_propagation plain_digest src rep)
    as (_ & Hprune & Hloop & Hsum & _).
  destruct (Hsum ["a"] type_clash (IsADirectoryError ["rep"; "a"])
              (World (fs type_clash)
                 [(ERROR, IOError_checksum ["rep"; "a"] (IsADirectoryError ["rep"; "a"]))]))
    as [H _].
  - reflexivity.
  - reflexivity.
  - eexists. reflexivity.
  - right. eexists. split; reflexivity.
  - split; [exact H|]. split; [exact (Hloop _ _ _ _ _ H)|]. split; [reflexivity|].
    destruct (Hprune ["locked.txt"] [["other.txt"]] locked_stale eq_refl)
      as (w1 & _ & Hitem & Hrest).
    exists w1. exact (conj Hitem Hrest).
Defined.

(** C3 on the code.  [copy_or_replace_file] returns normally whatever
    happens inside it; on [no_parent] opening the destination raises
    [FileNotFoundError], and [replicate_file] logs it and returns. *)
Theorem copy_failure_not_propagated :
  (∀ src_file dest_file replace chunk_size w,
     ∃ w', copy_or_replace_file src_file dest_file replace chunk_size w = (Ok tt, w')) ∧
  open_wb ["rep"; "d"; "f.txt"] no_parent
  = (Raise (FileNotFoundError ["rep"; "d"; "f.txt"]), no_parent) ∧
  replicate_file plain_digest ["src"; "d"; "f.txt"] ["rep"; "d"; "f.txt"] no_parent
  = (Ok tt,
     World (fs no_parent)
           [(ERROR, Failed_to_copy ["src"; "d"; "f.txt"] ["rep"; "d"; "f.txt"]
                      (FileNotFoundError ["rep"; "d"; "f.txt"]))]).
Proof.
  split; [apply copy_or_replace_file_returns|]. split; reflexivity.
Qed.

(** C7 on the code.  On [file_over_directory] a single-threaded pass
    returns normally, having logged the failed copy of [a/f]; a second
    pass on the filesystem it left finds the same work to do and calls
    the copy again. *)
Theorem second_pass_copies_again :
  process_syncronization plain_digest src rep 1 [] file_over_directory
  = (Ok tt,
     World (fs file_over_directory)
           [(ERROR, Failed_to_copy ["src"; "a"; "f"] ["rep"; "a"; "f"]
                      (NotADirectoryError ["rep"; "a"; "f"]))]) ∧
  process_syncronization plain_digest src rep 1 [] (World (fs file_over_directory) [])
  = (Ok tt,
     World (fs file_over_directory)
           [(ERROR, Failed_to_copy ["src"; "a"; "f"] ["rep"; "a"; "f"]
                      (NotADirectoryError ["rep"; "a"; "f"]))]).
Proof. split; vm_compute; reflexivity. Qed.
End Closed_runs.


(** * Further properties of the code *)

(** ** [chunk_list]: load balance and idle workers *)

Section Chunk_shape.
Import Chunks ChunksFacts.
Context {A : Type}.
Implicit Types (sq : list A).

Lemma slice_len_step n i j step :
  0 < step → i ≤ j → j < step →
  slice_len n j step ≤ slice_len n i step ≤ slice_len n j step + 1.
Proof.
  intros Hs Hij Hj. unfold slice_len. split.
  - apply Nat.Div0.div_le_mono. lia.
  - rewrite <- (Nat.div_add _ 1 step) by lia.
    apply Nat.Div0.div_le_mono. lia.
Qed.

(** X1. Round-robin chunks are balanced: an earlier chunk is never shorter
    than a later one and never longer by more than one entry. *)
Theorem chunk_list_balanced sq n i j c d :
  i ≤ j → j < n →
  chunk_list sq n !! i = Some c → chunk_list sq n !! j = Some d →
  length d ≤ length c ≤ length d + 1.
Proof.
  intros Hij Hj Hc Hd.
  rewrite chunk_list_lookup in Hc by lia. rewrite chunk_list_lookup in Hd by lia.
  simplify_eq. rewrite !slice_step_length by lia. apply slice_len_step; lia.
Qed.

(** X2. With at least as many workers as entries every entry is alone in
    its chunk and the remaining chunks are empty: those workers have
    nothing to do. *)
Theorem chunk_list_more_workers sq n :
  length sq ≤ n →
  chunk_list sq n = ((λ x, [x]) <$> sq) ++ replicate (n - length sq) [].
Proof.
  intros Hn. apply list_eq. intros j.
  destruct (decide (j < n)) as [Hj|Hj].
  2: { rewrite !lookup_ge_None_2; [done|..].
       - rewrite length_app, length_fmap, length_replicate. lia.
       - rewrite chunk_list_length. lia. }
  rewrite chunk_list_lookup by done.
  destruct (decide (j < length sq)) as [Hlt|Hge].
  - rewrite lookup_app_l by (rewrite length_fmap; lia).
    rewrite list_lookup_fmap.
    destruct (lookup_lt_is_Some_2 sq j Hlt) as [x Hx]. rewrite Hx. cbn. f_equal.
    apply list_eq. intros [|k]; rewrite slice_step_lookup by lia.
    + by rewrite Nat.add_0_r.
    + cbn. apply lookup_ge_None_2. nia.
  - rewrite lookup_app_r by (rewrite length_fmap; lia).
    rewrite length_fmap, lookup_replicate_2 by lia. f_equal.
    apply list_eq. intros k. rewrite slice_step_lookup by lia.
    cbn. apply lookup_ge_None_2. nia.
Qed.
End Chunk_shape.

(** ** [calculate_checksum] and [create_folder] *)

Section Checksum_and_folders.
Variable md5 : bytes → string.
Implicit Types (w : world) (p q : path) (e : exc).

(** X3. [calculate_checksum] either returns the digest of the whole content
    of a readable regular file, leaving the filesystem and the log as they
    were, or raises the [OSError] that opening the file raised, after
    exactly one ERROR record ("File not found" for [FileNotFoundError], the
    IOError line otherwise); it never changes the filesystem. *)
Theorem calculate_checksum_outcome p w :
  (∃ data,
     node_at (fs w) p = Some (File data) ∧ is_denied (fs w) p = false ∧
     calculate_checksum md5 p w = (Ok (md5 data), w)) ∨
  (∃ e,
     open_rb p w = (Raise e, w) ∧ is_OSError e = true ∧
     calculate_checksum md5 p w
     = (Raise e,
        World (fs w)
              (log w ++ [(ERROR, if is_FileNotFoundError e then File_not_found p
                                 else IOError_checksum p e)]))).
Proof.
  unfold calculate_checksum, try_except, bind, open_rb, ret, logger, raise, missing.
  destruct (node_at (fs w) p) as [[data|]|] eqn:Hp.
  - destruct (is_denied (fs w) p) eqn:Hd.
    + right. by eexists.
    + left. exists data. rewrite checksum_loop_all by lia. done.
  - right. by eexists.
  - right. destruct (under_a_file (fs w) p); by eexists.
Qed.

Lemma adds_dirs_refl p w : adds_dirs p w w.
Proof. split_and!; [done| |done..]. intros q Hq [n Hn]. congruence. Qed.

Lemma adds_dirs_trans p1 p2 w1 w2 w3 :
  p1 `prefix_of` p2 → adds_dirs p1 w1 w2 → adds_dirs p2 w2 w3 → adds_dirs p2 w1 w3.
Proof.
  intros Hpre (Hs1 & Hn1 & Hd1 & Hl1) (Hs2 & Hn2 & Hd2 & Hl2).
  split_and!; [by etrans| |congruence..].
  intros q Hq Hq3. destruct (nodes (fs w2) !! q) as [n|] eqn:Hq2.
  - destruct (Hn1 q Hq ltac:(eauto)) as [Hdir Hpre1].
    split; [|by etrans]. by eapply lookup_weaken.
  - by apply Hn2.
Qed.

Lemma os_mkdir_adds p w r w' : os_mkdir p w = (r, w') → adds_dirs p w w'.
Proof.
  unfold os_mkdir. intros H.
  destruct (node_at (fs w) p) as [n|] eqn:Hp; [simplify_eq; apply adds_dirs_refl|].
  assert (nodes (fs w) !! p = None) as Hnone by (by destruct p).
  repeat case_match; simplify_eq; try apply adds_dirs_refl.
  split_and!; cbn; [by apply insert_subseteq| |done..].
  intros q Hq Hq'. destruct (decide (p = q)) as [->|Hne].
  - by rewrite lookup_insert_eq.
  - rewrite lookup_insert_ne in Hq' by done. destruct Hq'. congruence.
Qed.

Lemma prefix_parent p : parent p `prefix_of` p.
Proof.
  unfold parent. destruct (decide (p = [])) as [->|Hne]; [done|].
  destruct (exists_last Hne) as (q & name & ->). rewrite removelast_last.
  by apply prefix_app_r.
Qed.

(** Whatever happens, [Path.mkdir] adds directories on the way to [p] at
    most. *)
Lemma mkdir_adds fuel parents exist_ok p w r w' :
  mkdir fuel parents exist_ok p w = (r, w') → adds_dirs p w w'.
Proof.
  revert parents exist_ok p w r w'.
  induction fuel as [|k IH]; intros parents exist_ok p w r w'; cbn [mkdir];
    unfold try_except; destruct (os_mkdir p w) as [[[]|e|] w1] eqn:E;
    pose proof (os_mkdir_adds _ _ _ _ E) as Hadd; intros H; try by simplify_eq.
  all: destruct (is_FileNotFoundError e);
    [|unfold bind, is_dir, raise, ret in H; repeat case_match; by simplify_eq].
  all: destruct (negb parents || bool_decide (parent p = p));
    [unfold raise in H; by simplify_eq|].
  - unfold diverge in H. by simplify_eq.
  - unfold bind in H.
    destruct (mkdir k true true (parent p) w1) as [[[]|e'|] w2] eqn:E2;
      pose proof (IH _ _ _ _ _ _ E2) as Hadd2.
    + pose proof (IH _ _ _ _ _ _ H) as Hadd3.
      eapply (adds_dirs_trans p p); [done|done|].
      eapply (adds_dirs_trans (parent p) p); [apply prefix_parent|done|done].
    + simplify_eq. eapply (adds_dirs_trans p p); [done|done|].
      eapply (adds_dirs_trans (parent p) p); [apply prefix_parent|done|apply adds_dirs_refl].
    + simplify_eq. eapply (adds_dirs_trans p p); [done|done|].
      eapply (adds_dirs_trans (parent p) p); [apply prefix_parent|done|apply adds_dirs_refl].
Qed.

(** A [Path.mkdir(exist_ok=True)] that returns leaves a directory at [p]. *)
Lemma os_mkdir_ok_dir p w w' : os_mkdir p w = (Ok tt, w') → dir_at (fs w') p = true.
Proof.
  unfold os_mkdir. intros H. destruct p as [|c p]; [done|].
  destruct (node_at (fs w) (c :: p)); [done|].
  destruct (node_at (fs w) (parent (c :: p))) as [[]|]; try done.
  destruct (is_denied (fs w) (c :: p)); [done|]. simplify_eq.
  unfold dir_at. cbn. by rewrite lookup_insert_eq.
Qed.

Lemma mkdir_ok_dir fuel parents p w w' :
  mkdir fuel parents true p w = (Ok tt, w') → dir_at (fs w') p = true.
Proof.
  revert parents p w w'.
  induction fuel as [|k IH]; intros parents p w w'; cbn [mkdir];
    unfold try_except; destruct (os_mkdir p w) as [[[]|e|] w1] eqn:E.
  all: try (intros [= <-]; by eapply os_mkdir_ok_dir).
  all: try done.
  all: destruct (is_FileNotFoundError e);
    [|unfold bind, is_dir, raise, ret; destruct (dir_at (fs w1) p) eqn:Hd; cbn;
      [by intros [= <-]|done]].
  - destruct (negb parents || bool_decide (parent p = p)); done.
  - destruct (negb parents || bool_decide (parent p = p)); [done|].
    unfold bind. destruct (mkdir k true true (parent p) w1) as [[[]|e'|] w2]; [|done..].
    apply IH.
Qed.

Lemma parent_take p : parent p = take (length p - 1) p.
Proof. unfold parent. rewrite removelast_firstn_len. f_equal. lia. Qed.

Lemma clear_way_parent f p : clear_way f p → clear_way f (parent p).
Proof.
  intros Hc k Hk. rewrite parent_take in *. rewrite length_take in Hk.
  rewrite take_take. replace (k `min` (length p - 1)) with k by lia. apply Hc. lia.
Qed.

Lemma clear_way_not_under_a_file f p : clear_way f p → under_a_file f p = false.
Proof.
  intros Hc. unfold under_a_file. destruct (existsb _ _) eqn:E; [|done].
  apply existsb_exists in E as (k & Hin & Hf). apply in_seq in Hin.
  destruct (Hc k ltac:(lia)) as [Hf' _]. congruence.
Qed.

Lemma os_mkdir_clear_way p w :
  clear_way (fs w) p →
  (dir_at (fs w) p = true ∧ os_mkdir p w = (Raise (FileExistsError p), w)) ∨
  (node_at (fs w) p = None ∧
   os_mkdir p w = (Ok tt, set_nodes w (<[p := Dir]> (nodes (fs w))))) ∨
  (node_at (fs w) p = None ∧ node_at (fs w) (parent p) = None ∧
   os_mkdir p w = (Raise (FileNotFoundError p), w)).
Proof.
  intros Hc.
  destruct (Hc (length p) ltac:(lia)) as [Hfile Hden]. rewrite firstn_all in Hfile, Hden.
  destruct (Hc (length p - 1) ltac:(lia)) as [Hpfile _]. rewrite <- parent_take in Hpfile.
  unfold os_mkdir, file_at, dir_at in *.
  destruct (node_at (fs w) p) as [[]|] eqn:Hp; [done|by left|].
  destruct (node_at (fs w) (parent p)) as [[]|] eqn:Hpp; [done| |].
  - right. left. by rewrite Hden.
  - right. right. unfold missing. by rewrite clear_way_not_under_a_file.
Qed.

Lemma parent_length p : p ≠ [] → S (length (parent p)) = length p.
Proof. intros Hne. rewrite parent_take, length_take. destruct p; [done|cbn; lia]. Qed.

(** With nothing in the way [Path.mkdir(parents=True, exist_ok=True)]
    returns. *)
Lemma mkdir_clear_way fuel p w :
  clear_way (fs w) p → length p ≤ fuel → ∃ w', mkdir fuel true true p w = (Ok tt, w').
Proof.
  revert p w. induction fuel as [|k IH]; intros p w Hc Hlen.
  all: cbn [mkdir]; unfold try_except.
  all: destruct (os_mkdir_clear_way p w Hc)
         as [[Hdir ->]|[[Hp ->]|(Hp & Hpp & ->)]]; cbn [is_FileNotFoundError].
  all: try (unfold bind, is_dir; rewrite Hdir; cbn; by eexists).
  all: try by eexists.
  all: assert (p ≠ []) as Hne by (by intros ->).
  all: pose proof (parent_length p Hne) as Hplen.
  all: rewrite bool_decide_eq_false_2 by (intros Heq; rewrite Heq in Hplen; lia).
  all: cbn [negb orb].
  - lia.
  - unfold bind.
    destruct (IH (parent p) w (clear_way_parent _ _ Hc) ltac:(lia)) as [w1 Hm]. rewrite Hm.
    pose proof (mkdir_ok_dir _ _ _ _ _ Hm) as Hdir.
    pose proof (mkdir_adds _ _ _ _ _ _ _ Hm) as (Hsub & Hnew & Hd & Hl).
    destruct (Hc (length p) ltac:(lia)) as [_ Hden]. rewrite firstn_all in Hden.
    assert (node_at (fs w1) p = None) as Hp1.
    { rewrite node_at_nodes in * by done.
      destruct (nodes (fs w1) !! p) as [n|] eqn:Hn; [|done].
      destruct (Hnew p Hp ltac:(eauto)) as [_ Hpre%prefix_length]. lia. }
    assert (os_mkdir p w1 = (Ok tt, set_nodes w1 (<[p := Dir]> (nodes (fs w1))))) as Hos.
    { unfold os_mkdir. rewrite Hp1. unfold dir_at in Hdir.
      destruct (node_at (fs w1) (parent p)) as [[]|]; try done.
      unfold is_denied in *. by rewrite Hd, Hden. }
    destruct k; cbn [mkdir]; unfold try_except; rewrite Hos; by eexists.
Qed.

Lemma os_mkdir_raises_OSError p w e w' :
  os_mkdir p w = (Raise e, w') → is_OSError e = true.
Proof. unfold os_mkdir, missing. intros H. repeat case_match; by simplify_eq. Qed.

Lemma mkdir_raises_OSError fuel parents exist_ok p w e w' :
  mkdir fuel parents exist_ok p w = (Raise e, w') → is_OSError e = true.
Proof.
  revert parents exist_ok p w e w'.
  induction fuel as [|k IH]; intros parents exist_ok p w e w'; cbn [mkdir];
    unfold try_except; destruct (os_mkdir p w) as [[[]|e0|] w1] eqn:E; try done.
  all: pose proof (os_mkdir_raises_OSError _ _ _ _ E) as He0.
  all: destruct (is_FileNotFoundError e0);
    [|unfold bind, is_dir, raise, ret; repeat case_match; intros; by simplify_eq].
  all: destruct (negb parents || bool_decide (parent p = p));
    [unfold raise; intros; by simplify_eq|].
  - done.
  - unfold bind. destruct (mkdir k true true (parent p) w1) as [[[]|e1|] w2] eqn:E2.
    + apply IH.
    + intros [= <- <-]. by eapply IH.
    + done.
Qed.

(** X4. When [create_folder] returns normally the path exists and a second
    call does nothing.  A path that already existed (a directory or a
    regular file) is left as it was, with no log record; a path that was
    missing is now a directory, the only nodes added are directories on the
    way to it, and one INFO record is logged. *)
Theorem create_folder_result p w w' :
  create_folder p w = (Ok tt, w') →
  is_Some (node_at (fs w') p) ∧
  (is_Some (node_at (fs w) p) → w' = w) ∧
  (node_at (fs w) p = None →
     dir_at (fs w') p = true ∧ log w' = log w ++ [(INFO, Created_folder p)]) ∧
  nodes (fs w) ⊆ nodes (fs w') ∧
  (∀ q, nodes (fs w) !! q = None → is_Some (nodes (fs w') !! q) →
        nodes (fs w') !! q = Some Dir ∧ q `prefix_of` p) ∧
  create_folder p w' = (Ok tt, w').
Proof.
  unfold create_folder at 1, try_except, bind, path_exists, mkdir_parents.
  destruct (node_at (fs w) p) as [n|] eqn:Hp.
  - rewrite bool_decide_eq_true_2 by eauto. cbn. intros [= <-].
    split_and!; [by eauto|done|done|done| |].
    + intros q Hq [m Hm]. congruence.
    + unfold create_folder, try_except, bind, path_exists. rewrite Hp.
      by rewrite bool_decide_eq_true_2 by eauto.
  - rewrite bool_decide_eq_false_2 by (by intros [??]). cbn [negb].
    destruct (mkdir (length p) true true p w) as [[[]|e|] w1] eqn:Hm.
    + pose proof (mkdir_ok_dir _ _ _ _ _ Hm) as Hdir.
      pose proof (mkdir_adds _ _ _ _ _ _ _ Hm) as (Hsub & Hnew & Hd & Hl).
      unfold logger. intros [= <-]. cbn.
      assert (is_Some (node_at (fs w1) p)) as Hex.
      { unfold dir_at in Hdir. destruct (node_at (fs w1) p); [by eauto|done]. }
      split_and!; [done|by intros [??]|by rewrite Hl|done|done|].
      unfold create_folder, try_except, bind, path_exists. cbn.
      by rewrite bool_decide_eq_true_2.
    + unfold logger, raise. by destruct (is_OSError e).
    + done.
Qed.

(** X5. With nothing in the way (no regular file and no refusal of the
    operating system from the root down to the path) [create_folder]
    creates a missing directory, whatever number of its parents is missing
    too. *)
Theorem create_folder_creates p w :
  clear_way (fs w) p → node_at (fs w) p = None →
  ∃ w', create_folder p w = (Ok tt, w') ∧ dir_at (fs w') p = true ∧
        log w' = log w ++ [(INFO, Created_folder p)].
Proof.
  intros Hc Hp. unfold create_folder, try_except, bind, path_exists, mkdir_parents.
  rewrite Hp. rewrite bool_decide_eq_false_2 by (by intros [??]). cbn [negb].
  destruct (mkdir_clear_way (length p) p w Hc (le_n _)) as [w1 Hm]. rewrite Hm.
  pose proof (mkdir_ok_dir _ _ _ _ _ Hm) as Hdir.
  pose proof (mkdir_adds _ _ _ _ _ _ _ Hm) as (_ & _ & _ & Hl).
  eexists. split; [done|]. cbn. by rewrite Hl.
Qed.

(** X6. When [create_folder] fails it has logged exactly one ERROR record,
    the "Failed to create folder" one, and re-raises an [OSError]; the
    parents it created before the failure stay. *)
Theorem create_folder_failure p w e w' :
  create_folder p w = (Raise e, w') →
  is_OSError e = true ∧
  log w' = log w ++ [(ERROR, Failed_to_create_folder p e)] ∧
  denied (fs w') = denied (fs w) ∧
  nodes (fs w) ⊆ nodes (fs w') ∧
  (∀ q, nodes (fs w) !! q = None → is_Some (nodes (fs w') !! q) →
        nodes (fs w') !! q = Some Dir ∧ q `prefix_of` p).
Proof.
  unfold create_folder, try_except, bind, path_exists, mkdir_parents.
  destruct (negb _); [|done].
  destruct (mkdir (length p) true true p w) as [[[]|e'|] w1] eqn:Hm; [done| |done].
  pose proof (mkdir_adds _ _ _ _ _ _ _ Hm) as (Hsub & Hnew & Hd & Hl).
  rewrite (mkdir_raises_OSError _ _ _ _ _ _ _ Hm). unfold logger, raise. intros [= <- <-]. cbn.
  rewrite Hl. by rewrite (mkdir_raises_OSError _ _ _ _ _ _ _ Hm).
Qed.
End Checksum_and_folders.

(** ** [copy_or_replace_file] and [replicate_file] *)

Section Copy.
Variable md5 : bytes → string.
Implicit Types (w : world) (p q src_file dest_file : path) (e : exc).

Lemma take_block_0 (f : bytes) : take_block 0 f = [].
Proof. by destruct f. Qed.

Lemma copy_loop_frame fuel size fsrc dest_file w :
  ∃ w', copy_loop fuel size fsrc dest_file w = (Ok tt, w') ∧
        denied (fs w') = denied (fs w) ∧ log w' = log w ∧
        (∀ q, q ≠ dest_file → nodes (fs w') !! q = nodes (fs w) !! q) ∧
        (is_Some (nodes (fs w) !! dest_file) → is_Some (nodes (fs w') !! dest_file)).
Proof.
  revert fsrc w. induction fuel as [|k IH]; intros f w; cbn [copy_loop read];
    [by eexists|].
  destruct (take_block size f); [by eexists|].
  unfold bind, write. cbn -[alter].
  edestruct IH as (w' & -> & Hd & Hl & Hf & Hs). eexists. split; [done|].
  split_and!; [done..| |].
  - intros q Hq. rewrite Hf by done. cbn -[alter]. by rewrite lookup_alter_ne.
  - intros [n Hn]. apply Hs. cbn -[alter]. rewrite lookup_alter_eq, Hn. by eexists.
Qed.

(** X7. A copy to another path that meets no obstacle leaves exactly the
    bytes of the source at the destination whatever positive [chunk_size]
    is used, and logs one INFO record; with [chunk_size = 0] the first read
    returns no block, the loop ends at once and the destination is left
    empty, logged as a success all the same. *)
Theorem copy_or_replace_file_chunk_size src_file dest_file replace chunk_size w data :
  src_file ≠ dest_file →
  node_at (fs w) src_file = Some (File data) →
  is_denied (fs w) src_file = false → is_denied (fs w) dest_file = false →
  file_at (fs w) dest_file = true ∨
    (node_at (fs w) dest_file = None ∧ dir_at (fs w) (parent dest_file) = true) →
  copy_or_replace_file src_file dest_file replace chunk_size w
  = (Ok tt,
     World (FS (<[dest_file := File (if decide (chunk_size = 0%N) then [] else data)]>
                  (nodes (fs w)))
               (denied (fs w)))
           (log w ++ [(INFO, if replace then File_replaced dest_file src_file
                             else File_copied src_file dest_file)])).
Proof.
  intros _ Hsrc Hds Hdd Hdest.
  unfold copy_or_replace_file, try_except, bind, open_rb. rewrite Hsrc, Hds.
  assert (open_wb dest_file w
          = (Ok tt, set_nodes w (<[dest_file := File []]> (nodes (fs w))))) as ->.
  { unfold open_wb, file_at, dir_at in *. destruct Hdest as [H|[H1 H2]].
    - destruct (node_at (fs w) dest_file) as [[]|]; try done. by rewrite Hdd.
    - rewrite H1. destruct (node_at (fs w) (parent dest_file)) as [[]|]; try done.
      by rewrite Hdd. }
  destruct (decide (chunk_size = 0%N)) as [->|Hne].
  - cbn [copy_loop read]. rewrite take_block_0. cbn. by destruct replace.
  - erewrite (copy_loop_all _ _ _ _ _ []); [| done | lia | cbn; by rewrite lookup_insert_eq].
    cbn. rewrite insert_insert_eq. by destruct replace.
Qed.

(** X8. Whatever happens inside it, [copy_or_replace_file] returns
    normally, logs exactly one record, and changes no node but the
    destination, which it never removes; when the source cannot be opened
    the destination is not touched either. *)
Theorem copy_or_replace_file_frame src_file dest_file replace chunk_size w :
  ∃ w' lv msg,
    copy_or_replace_file src_file dest_file replace chunk_size w = (Ok tt, w') ∧
    log w' = log w ++ [(lv, msg)] ∧
    denied (fs w') = denied (fs w) ∧
    (∀ q, q ≠ dest_file → nodes (fs w') !! q = nodes (fs w) !! q) ∧
    (is_Some (nodes (fs w) !! dest_file) → is_Some (nodes (fs w') !! dest_file)) ∧
    (∀ e, open_rb src_file w = (Raise e, w) → fs w' = fs w ∧ lv = ERROR).
Proof.
  unfold copy_or_replace_file, try_except, bind.
  destruct (open_rb src_file w) as [[fsrc|e|] w1] eqn:E1.
  - assert (w1 = w) as -> by (unfold open_rb in E1; repeat case_match; by simplify_eq).
    destruct (open_wb dest_file w) as [[[]|e|] w2] eqn:E2.
    + assert (denied (fs w2) = denied (fs w) ∧ log w2 = log w ∧
              (∀ q, q ≠ dest_file → nodes (fs w2) !! q = nodes (fs w) !! q) ∧
              is_Some (nodes (fs w2) !! dest_file)) as (Hd & Hl & Hf & Hs).
      { unfold open_wb in E2. repeat case_match; simplify_eq; cbn.
        all: split_and!; [done..| |by rewrite lookup_insert_eq].
        all: intros q Hq; by rewrite lookup_insert_ne. }
      destruct (copy_loop_frame (S (length fsrc)) chunk_size fsrc dest_file w2)
        as (w3 & -> & Hd3 & Hl3 & Hf3 & Hs3).
      destruct replace; (eexists _, INFO, _; split; [done|]; cbn).
      all: split_and!; [by rewrite Hl3, Hl|congruence| |by eauto|done].
      all: intros q Hq; by rewrite Hf3, Hf.
    + assert (w2 = w) as ->
        by (unfold open_wb in E2; repeat case_match; by simplify_eq).
      destruct replace; (eexists _, ERROR, _; split; [done|]; cbn);
        (split_and!; [done..|]); intros e' He'; congruence.
    + unfold open_wb in E2. repeat case_match; simplify_eq.
  - assert (w1 = w) as -> by (unfold open_rb in E1; repeat case_match; by simplify_eq).
    destruct replace; (eexists _, ERROR, _; split; [done|]; cbn); by split_and!.
  - unfold open_rb in E1. repeat case_match; simplify_eq.
Qed.

(** X9. After a [replicate_file] that returned normally and logged no
    record but INFO ones (no ERROR of a failed copy, whatever the state the
    failure left) both paths are regular files with equal digests. *)
Theorem replicate_file_postcondition source_item replica_item w w' :
  replicate_file md5 source_item replica_item w = (Ok tt, w') →
  info_only w w' →
  ∃ ds dr,
    node_at (fs w') source_item = Some (File ds) ∧
    node_at (fs w') replica_item = Some (File dr) ∧
    md5 ds = md5 dr.
Proof.
  intros Hrun Hinfo.
  assert (∀ msg, w' ≠ World (fs w) (log w ++ [(ERROR, msg)])) as Hnoerr.
  { intros msg ->. destruct Hinfo as (l0 & Hlog & Hinfo).
    cbn in Hlog. apply app_inv_head in Hlog. subst l0.
    inversion Hinfo as [|?? H1 ?]. cbn in H1. done. }
  clear Hinfo.
  assert (∀ data l,
    node_at (fs w) source_item = Some (File data) → replica_item ≠ [] →
    w' = World (FS (<[replica_item := File data]> (nodes (fs w))) (denied (fs w))) l →
    ∃ ds dr, node_at (fs w') source_item = Some (File ds) ∧
             node_at (fs w') replica_item = Some (File dr) ∧ md5 ds = md5 dr) as Hcopied.
  { intros data l Hs Hne ->. exists data, data. split_and!; [|by rewrite node_at_nodes by done; cbn; rewrite lookup_insert_eq|done].
    destruct (decide (source_item = replica_item)) as [->|Hdiff].
    - rewrite node_at_nodes by done. cbn. by rewrite lookup_insert_eq.
    - unfold node_at in *. destruct source_item; [done|]. cbn.
      by rewrite lookup_insert_ne. }
  unfold replicate_file, bind at 1, path_exists at 1 in Hrun.
  destruct (bool_decide (is_Some (node_at (fs w) replica_item))) eqn:Hex.
  - unfold bind at 1 in Hrun.
    destruct (calculate_checksum_result md5 source_item w)
      as [(ds & Hs & Hds & Hcs)|(e & w1 & Hcs)]; rewrite Hcs in Hrun; [|done].
    unfold bind at 1 in Hrun.
    destruct (calculate_checksum_result md5 replica_item w)
      as [(dr & Hr & Hdr & Hcr)|(e & w1 & Hcr)]; rewrite Hcr in Hrun; [|done].
    case_bool_decide as Hneq.
    + destruct (copy_or_replace_file_cases source_item replica_item true w)
        as [(data & Hs' & _ & _ & Hne & Hc)|(msg & Hc)]; rewrite Hc in Hrun.
      * simplify_eq. by eapply Hcopied.
      * simplify_eq. by destruct (Hnoerr msg).
    + unfold ret in Hrun. simplify_eq. exists ds, dr. split_and!; [done..|].
      by destruct (decide (md5 ds = md5 dr)).
  - destruct (copy_or_replace_file_cases source_item replica_item false w)
      as [(data & Hs' & ? & ? & Hne & Hc)|(msg & Hc)]; rewrite Hc in Hrun.
    + simplify_eq. by eapply Hcopied.
    + simplify_eq. by destruct (Hnoerr msg).
Qed.
End Copy.

(** ** [delete_path]: what it removes *)

Section Delete_clears.
Implicit Types (w : world) (p q item : path) (f : filesystem).

Lemma prefix_sibling p (a b : string) q :
  (p ++ [a]) `prefix_of` q → (p ++ [b]) `prefix_of` q → a = b.
Proof.
  intros [k1 ->] [k2 H]. rewrite <- !app_assoc in H. apply app_inv_head in H.
  by injection H.
Qed.

(** In a well-formed filesystem a node below [p] lies at or below an entry
    of [p]. *)
Lemma well_formed_entry f p q :
  well_formed f → is_Some (nodes f !! q) → below p q →
  ∃ name, is_Some (nodes f !! (p ++ [name])) ∧ (p ++ [name]) `prefix_of` q.
Proof.
  intros Hwf Hq [name [rest ->]]. exists name. split; [|by eexists].
  revert Hq. induction rest as [|x rest IH] using rev_ind; [by rewrite app_nil_r|].
  intros Hq. apply IH.
  specialize (Hwf _ Hq). rewrite app_assoc in Hwf. unfold parent in Hwf.
  rewrite removelast_last in Hwf.
  specialize (Hwf ltac:(by destruct ((p ++ [name]) ++ rest))).
  unfold dir_at, node_at in Hwf.
  destruct ((p ++ [name]) ++ rest) eqn:E; [by destruct p|].
  destruct (nodes f !! (s :: l)); [by eauto|done].
Qed.

Lemma no_nodes_below_non_dir f p q :
  well_formed f → dir_at f p = false → below p q → nodes f !! q = None.
Proof.
  intros Hwf Hp Hq. destruct (nodes f !! q) as [n|] eqn:Hn; [|done].
  destruct (well_formed_entry f p q Hwf ltac:(eauto) Hq) as (name & Hex & _).
  specialize (Hwf _ Hex ltac:(by destruct p)).
  unfold parent in Hwf. rewrite removelast_last in Hwf. congruence.
Qed.

Lemma prefix_or_below p q : p `prefix_of` q → q = p ∨ below p q.
Proof.
  intros [[|name rest] ->]; [left; by rewrite app_nil_r|].
  right. exists name. exists rest. by rewrite <- app_assoc.
Qed.

Lemma cleared_nil w : cleared [] w w.
Proof. split; [done|]. intros q. split; [by intros ?%Exists_nil|done]. Qed.

Lemma cleared_app items1 items2 w0 w1 w2 :
  cleared items1 w0 w1 → cleared items2 w1 w2 → cleared (items1 ++ items2) w0 w2.
Proof.
  intros [Hd1 H1] [Hd2 H2]. split; [congruence|]. intros q. rewrite Exists_app. split.
  - intros [Hex|Hex]; [|by apply H2].
    destruct (nodes (fs w2) !! q) as [n|] eqn:Hn; [|done].
    destruct (decide (Exists (λ item, item `prefix_of` q) items2)) as [Hin|Hout].
    + rewrite <- Hn. by apply H2.
    + rewrite <- Hn. etrans; [by apply H2|]. by apply H1.
  - intros Hno. etrans; [apply H2|apply H1]; intros Hin; apply Hno; [by right|by left].
Qed.

Lemma cleared_subseteq items w0 w : cleared items w0 w → nodes (fs w) ⊆ nodes (fs w0).
Proof.
  intros [_ H]. apply map_subseteq_spec. intros q n Hq.
  destruct (decide (Exists (λ item, item `prefix_of` q) items)) as [Hin|Hout].
  - destruct (H q) as [Hnone _]. rewrite Hnone in Hq; done.
  - destruct (H q) as [_ Hsame]. by rewrite <- Hsame.
Qed.

Lemma cleared_well_formed items w0 w :
  cleared items w0 w → well_formed (fs w0) → well_formed (fs w).
Proof.
  intros Hc Hwf q Hq Hne. pose proof Hc as [_ H].
  assert (¬ Exists (λ item, item `prefix_of` q) items) as Hout.
  { intros Hin. destruct (H q) as [Hnone _]. rewrite Hnone in Hq by done. by destruct Hq. }
  assert (is_Some (nodes (fs w0) !! q)) as Hq0.
  { destruct (H q) as [_ Hsame]. by rewrite <- Hsame. }
  specialize (Hwf q Hq0 Hne). unfold dir_at, node_at in *.
  destruct (parent q) eqn:E; [done|]. rewrite <- E in *.
  destruct (H (parent q)) as [_ Hsame]. rewrite Hsame; [done|].
  intros Hin. apply Hout. eapply Exists_impl; [done|]. intros item Hpre. cbn in *.
  etrans; [done|apply prefix_parent].
Qed.

(** Removing a regular file of a well-formed filesystem removes all there
    is at and below its path. *)
Lemma unlink_clears p w :
  well_formed (fs w) → file_at (fs w) p = true → is_denied (fs w) p = false →
  cleared [p] w (set_nodes w (delete p (nodes (fs w)))) ∧
  unlink p w = (Ok tt, set_nodes w (delete p (nodes (fs w)))).
Proof.
  intros Hwf Hf Hd. split.
  - split; [done|]. intros q. rewrite Exists_cons, Exists_nil. cbn. split.
    + intros [Hpre|[]]. destruct (prefix_or_below _ _ Hpre) as [->|Hbelow].
      * apply lookup_delete_eq.
      * apply lookup_delete_None. right.
        apply (no_nodes_below_non_dir (fs w) p q); [done| |done].
        unfold file_at, dir_at in *. by destruct (node_at (fs w) p) as [[]|].
    + intros Hno. apply lookup_delete_ne. intros ->. apply Hno. by left.
  - unfold unlink, file_at in *. destruct (node_at (fs w) p) as [[]|]; try done.
    by rewrite Hd.
Qed.

Lemma info_only_refl w : info_only w w.
Proof. exists []. by rewrite app_nil_r. Qed.

Lemma info_only_trans w1 w2 w3 : info_only w1 w2 → info_only w2 w3 → info_only w1 w3.
Proof.
  intros (l1 & H1 & F1) (l2 & H2 & F2). exists (l1 ++ l2).
  split; [by rewrite H2, H1, app_assoc|by apply Forall_app].
Qed.

Lemma info_only_log w w' : log w' = log w → info_only w w'.
Proof. intros H. exists []. by rewrite app_nil_r. Qed.

Section Loop.
Variable delete_path_item : path → M unit.
Variable p : path.
Variable w0 : world.
Hypothesis w0_well_formed : well_formed (fs w0).
Hypothesis nothing_denied : ∀ q, p `prefix_of` q → is_denied (fs w0) q = false.

(** The recursive call removes the whole directory entry it is given. *)
Hypothesis delete_path_item_clears : ∀ item w,
  (∃ name, item = p ++ [name]) → dir_at (fs w) item = true →
  well_formed (fs w) → nodes (fs w) ⊆ nodes (fs w0) → denied (fs w) = denied (fs w0) →
  ∃ w', delete_path_item item w = (Ok tt, w') ∧ cleared [item] w w' ∧ info_only w w'.

Lemma delete_loop_clears items done w :
  NoDup items →
  (∀ item, item ∈ items →
     (∃ name, item = p ++ [name]) ∧ is_Some (nodes (fs w0) !! item) ∧ item ∉ done) →
  (∀ item, item ∈ done → ∃ name, item = p ++ [name]) →
  cleared done w0 w →
  ∃ w', for_each items (delete_path_entry delete_path_item) w = (Ok tt, w') ∧
        cleared (done ++ items) w0 w' ∧ info_only w w'.
Proof.
  revert done w. induction items as [|item items IH]; intros done w Hnd Hitems Hdone Hc.
  { exists w. rewrite app_nil_r. split_and!; [done..|apply info_only_refl]. }
  apply NoDup_cons in Hnd as [Hnotin Hnd].
  destruct (Hitems item ltac:(left)) as ([name ->] & Hex & Hfresh).
  pose proof (cleared_well_formed _ _ _ Hc w0_well_formed) as Hwf.
  pose proof (cleared_subseteq _ _ _ Hc) as Hsub.
  pose proof Hc as [Hden Hlook].
  assert (¬ Exists (λ it, it `prefix_of` p ++ [name]) done) as Hout.
  { intros Hin. apply Exists_exists in Hin as (d & Hd & Hpre).
    destruct (Hdone d Hd) as [name' ->].
    assert (name' = name) as -> by (by eapply prefix_sibling). by apply Hfresh. }
  assert (nodes (fs w) !! (p ++ [name]) = nodes (fs w0) !! (p ++ [name])) as Hsame
    by (by apply Hlook).
  assert (∃ w1, delete_path_entry delete_path_item (p ++ [name]) w = (Ok tt, w1) ∧
                cleared [p ++ [name]] w w1 ∧ info_only w w1) as (w1 & Hstep & Hc1 & Hi1).
  { unfold delete_path_entry, bind, is_dir.
    destruct (dir_at (fs w) (p ++ [name])) eqn:Hdir.
    - apply delete_path_item_clears; by eauto.
    - assert (file_at (fs w) (p ++ [name]) = true) as Hfile.
      { unfold file_at, dir_at, node_at in *. destruct (p ++ [name]) eqn:E; [by destruct p|].
        rewrite Hsame. destruct Hex as [n Hn]. rewrite Hn. rewrite Hsame, Hn in Hdir.
        by destruct n. }
      assert (is_denied (fs w) (p ++ [name]) = false) as Hnd'.
      { unfold is_denied. rewrite Hden. apply nothing_denied. by apply prefix_app_r. }
      destruct (unlink_clears _ _ Hwf Hfile Hnd') as [Hcl ->].
      eexists. split_and!; [done..|]. by apply info_only_log. }
  cbn [for_each]. unfold bind at 1. rewrite Hstep.
  destruct (IH (done ++ [p ++ [name]]) w1) as (w' & Hloop & Hc' & Hi'); [done|..].
  - intros item Hin. destruct (Hitems item ltac:(by right)) as (Hn & Hex' & Hfr).
    split_and!; [done..|]. rewrite elem_of_app, list_elem_of_singleton.
    intros [?| ->]; [done|]. done.
  - intros item [Hin| ->%list_elem_of_singleton]%elem_of_app; [by apply Hdone|by eauto].
  - by eapply cleared_app.
  - exists w'. rewrite <- app_assoc in Hc'. split_and!; [done..|].
    by eapply info_only_trans.
Qed.

(** The [try] block removes all there is at and below [p], and logs one
    INFO record if there was something at [p]. *)
Lemma delete_path_try_clears :
  p ≠ [] →
  ∃ w', delete_path_try delete_path_item p w0 = (Ok tt, w') ∧
        cleared [p] w0 w' ∧ info_only w0 w'.
Proof.
  intros Hne. unfold delete_path_try, bind at 1, is_file at 1.
  assert (is_denied (fs w0) p = false) as Hdp by (by apply nothing_denied).
  destruct (file_at (fs w0) p) eqn:Hf.
  { destruct (unlink_clears _ _ w0_well_formed Hf Hdp) as [Hc Hu].
    unfold bind. rewrite Hu. eexists. split_and!; [done..|].
    exists [(INFO, Deleted_file p)]. split; [done|]. by apply Forall_singleton. }
  unfold bind at 1, is_dir at 1. destruct (dir_at (fs w0) p) eqn:Hd.
  2: { exists w0. split_and!; [done| |apply info_only_refl].
       split; [done|]. intros q. rewrite Exists_cons, Exists_nil. split; [|done].
       intros [Hpre|[]]. destruct (prefix_or_below _ _ Hpre) as [->|Hbelow].
       - unfold file_at, dir_at, node_at in *. destruct p; [done|].
         by destruct (nodes (fs w0) !! (s :: l)) as [[]|].
       - by eapply no_nodes_below_non_dir. }
  unfold bind at 1, iterdir.
  assert (node_at (fs w0) p = Some Dir) as ->.
  { unfold dir_at in Hd. by destruct (node_at (fs w0) p) as [[]|]. }
  destruct (delete_loop_clears (children (fs w0) p) [] w0) as (w1 & Hloop & Hc1 & Hi1).
  { unfold children. apply NoDup_filter, NoDup_fst_map_to_list. }
  { intros item (Hex & Hn & Hpar)%children_spec.
    split_and!; [by apply child_name|done|by intros ?%elem_of_nil]. }
  { by intros item ?%elem_of_nil. }
  { apply cleared_nil. }
  cbn beta. unfold bind at 1. rewrite Hloop.
  cbn [app] in Hc1. pose proof Hc1 as [Hden1 Hlook1].
  assert (∀ q, below p q → nodes (fs w1) !! q = None) as Hbelow.
  { intros q Hq. destruct (nodes (fs w1) !! q) as [n|] eqn:Hn; [|done].
    pose proof (cleared_subseteq _ _ _ Hc1) as Hsub.
    apply (lookup_weaken _ _ _ _ Hn) in Hsub as Hn0.
    destruct (well_formed_entry (fs w0) p q w0_well_formed ltac:(eauto) Hq)
      as (name & Hex & Hpre).
    rewrite <- Hn. apply Hlook1. apply Exists_exists. exists (p ++ [name]). split; [|done].
    apply children_spec. split_and!; [done|by destruct p|].
    unfold parent. by rewrite removelast_last. }
  assert (nodes (fs w1) !! p = nodes (fs w0) !! p) as Hp1.
  { apply Hlook1. intros Hin. apply Exists_exists in Hin as (item & Hin & Hpre).
    apply children_spec in Hin as (_ & Hn & Hpar).
    destruct (child_name _ _ Hn Hpar) as [name ->]. by apply prefix_snoc_not in Hpre. }
  assert (rmdir p w1 = (Ok tt, set_nodes w1 (delete p (nodes (fs w1))))) as Hr.
  { unfold rmdir. unfold dir_at, node_at in Hd |- *. destruct p as [|c p'] eqn:Ep; [done|].
    rewrite <- Ep in *. rewrite Hp1.
    destruct (nodes (fs w0) !! p) as [[]|]; try done.
    destruct (children (fs w1) p) as [|item rest] eqn:Ech.
    - unfold is_denied in *. rewrite Hden1, Hdp. cbn.
      by rewrite bool_decide_eq_false_2 by (by subst).
    - exfalso. assert (item ∈ children (fs w1) p) as Hin by (rewrite Ech; left).
      apply children_spec in Hin as (Hex & Hn & Hpar).
      destruct (child_name _ _ Hn Hpar) as [name ->].
      rewrite Hbelow in Hex; [by destruct Hex|]. by exists name. }
  unfold bind. rewrite Hr. eexists. split_and!; [done| |].
  - split; [by cbn|]. intros q. rewrite Exists_cons, Exists_nil. cbn. split.
    + intros [Hpre|[]]. apply lookup_delete_None.
      destruct (prefix_or_below _ _ Hpre) as [->|Hq]; [by left|right; by apply Hbelow].
    + intros Hno. rewrite lookup_delete_ne by (intros ->; apply Hno; by left).
      apply Hlook1. intros Hin. apply Hno. left.
      apply Exists_exists in Hin as (item & Hin & Hpre).
      apply children_spec in Hin as (_ & Hn & Hpar).
      destruct (child_name _ _ Hn Hpar) as [name ->].
      etrans; [|done]. by apply prefix_app_r.
  - eapply info_only_trans; [done|].
    exists [(INFO, Deleted_folder p)]. split; [done|]. by apply Forall_singleton.
Qed.
End Loop.

Lemma delete_path_rec_clears fuel p w :
  bounded (fs w) p fuel → well_formed (fs w) → p ≠ [] →
  (∀ q, p `prefix_of` q → is_denied (fs w) q = false) →
  ∃ w', delete_path_rec fuel p w = (Ok tt, w') ∧ cleared [p] w w' ∧ info_only w w'.
Proof.
  revert p w. induction (lt_wf fuel) as [fuel _ IH]. intros p w Hb Hwf Hne Hden.
  rewrite delete_path_rec_eq. unfold try_except.
  destruct (delete_path_try_clears (delete_path_call fuel) p w Hwf Hden)
    as (w' & -> & Hc & Hi); [|done|by eauto].
  intros item w1 [name ->] Hdir Hwf1 Hsub Hden1.
  assert (is_Some (nodes (fs w) !! (p ++ [name]))) as Hin.
  { unfold dir_at, node_at in Hdir. destruct (p ++ [name]) eqn:E; [by destruct p|].
    destruct (nodes (fs w1) !! (s :: l)) as [n|] eqn:Hn; [|done].
    eapply lookup_weaken in Hn; [|done]. eauto. }
  destruct fuel as [|k].
  { exfalso. specialize (Hb _ Hin ltac:(by apply prefix_app_r)).
    rewrite length_app in Hb. cbn in Hb. lia. }
  cbn [delete_path_call]. apply IH; [lia| |done|by destruct p|].
  - intros q [n Hq] Hpre. eapply lookup_weaken in Hq; [|done].
    assert (p `prefix_of` q) by (etrans; [by apply prefix_app_r|done]).
    specialize (Hb q ltac:(eauto) ltac:(done)). rewrite length_app. cbn. lia.
  - intros q Hpre. unfold is_denied. rewrite Hden1. apply Hden.
    etrans; [by apply prefix_app_r|done].
Qed.

Lemma delete_path_cleared p w :
  well_formed (fs w) → p ≠ [] →
  (∀ q, p `prefix_of` q → is_denied (fs w) q = false) →
  ∃ w', delete_path p w = (Ok tt, w') ∧ cleared [p] w w' ∧ info_only w w'.
Proof.
  intros Hwf Hne Hden. unfold delete_path.
  by apply delete_path_rec_clears; [apply depth_bounded|..].
Qed.


Lemma unlink_log p w r w' : unlink p w = (r, w') → log w' = log w.
Proof. unfold unlink. repeat case_match; by intros [= <- <-]. Qed.

Lemma rmdir_log p w r w' : rmdir p w = (r, w') → log w' = log w.
Proof. unfold rmdir. repeat case_match; by intros [= <- <-]. Qed.

Section Loop_log.
Variable delete_path_item : path → M unit.
Hypothesis delete_path_item_log : ∀ item w r w',
  delete_path_item item w = (r, w') → log w `prefix_of` log w'.

Lemma delete_loop_log items w r w' :
  for_each items (delete_path_entry delete_path_item) w = (r, w') →
  log w `prefix_of` log w'.
Proof.
  revert w. induction items as [|item items IH]; intros w; cbn [for_each].
  { by intros [= <- <-]. }
  unfold bind at 1, delete_path_entry at 1, bind at 1, is_dir at 1.
  destruct ((if dir_at (fs w) item then delete_path_item item else unlink item) w)
    as [r1 w1] eqn:E.
  assert (log w `prefix_of` log w1) as H1.
  { destruct (dir_at (fs w) item); [by eapply delete_path_item_log|].
    by rewrite (unlink_log _ _ _ _ E). }
  destruct r1 as [[]|e|]; [|by intros [= <- <-]..].
  intros H. etrans; [done|]. by apply IH.
Qed.

Lemma delete_path_try_log p w r w' :
  delete_path_try delete_path_item p w = (r, w') → log w `prefix_of` log w'.
Proof.
  unfold delete_path_try, bind at 1, is_file at 1.
  destruct (file_at (fs w) p).
  { unfold bind. destruct (unlink p w) as [[[]|e|] w1] eqn:E;
      rewrite <- (unlink_log _ _ _ _ E); unfold logger; intros [= <- <-]; cbn;
      [by apply prefix_app_r|done..]. }
  unfold bind at 1, is_dir at 1. destruct (dir_at (fs w) p); [|by intros [= <- <-]].
  unfold bind at 1, iterdir at 1.
  destruct (node_at (fs w) p) as [[]|]; [by intros [= <- <-]| |by intros [= <- <-]].
  unfold bind at 1.
  destruct (for_each _ _ w) as [r1 w1] eqn:E. apply delete_loop_log in E.
  destruct r1 as [[]|e|]; [|by intros [= <- <-]..].
  unfold bind. destruct (rmdir p w1) as [[[]|e|] w2] eqn:E2;
    rewrite <- (rmdir_log _ _ _ _ E2) in E; unfold logger; intros [= <- <-]; cbn;
    [|done..].
  etrans; [done|]. by apply prefix_app_r.
Qed.

(** When the [try] block returns normally the target is gone. *)
Lemma delete_path_try_gone p w w' :
  p ≠ [] → delete_path_try delete_path_item p w = (Ok tt, w') →
  nodes (fs w') !! p = None.
Proof.
  intros Hne. unfold delete_path_try, bind at 1, is_file at 1.
  destruct (file_at (fs w) p) eqn:Hf.
  { unfold bind. unfold unlink. unfold file_at in Hf.
    destruct (node_at (fs w) p) as [[]|]; try done.
    destruct (is_denied (fs w) p); [done|]. unfold logger. intros [= <-]. cbn.
    apply lookup_delete_eq. }
  unfold bind at 1, is_dir at 1. destruct (dir_at (fs w) p) eqn:Hd.
  2:{ intros [= <-]. unfold file_at, dir_at in *. rewrite node_at_nodes in * by done.
      by destruct (nodes (fs w) !! p) as [[]|]. }
  unfold bind at 1, iterdir at 1.
  destruct (node_at (fs w) p) as [[]|]; [done| |done].
  unfold bind at 1. destruct (for_each _ _ w) as [[[]|e|] w1]; [|done..].
  unfold bind, rmdir. destruct (node_at (fs w1) p) as [[]|]; [done| |done].
  destruct (children (fs w1) p); [|done].
  destruct (_ || _); [done|]. unfold logger. intros [= <-]. cbn. apply lookup_delete_eq.
Qed.
End Loop_log.

Lemma delete_path_rec_log fuel p w r w' :
  delete_path_rec fuel p w = (r, w') → log w `prefix_of` log w'.
Proof.
  revert p w r w'. induction fuel as [|k IH]; intros p w r w';
    rewrite delete_path_rec_eq; unfold try_except;
    destruct (delete_path_try _ p w) as [r1 w1] eqn:E.
  - apply delete_path_try_log in E; [|by intros ???? [= <- <-]].
    destruct r1 as [[]|e|]; [by intros [= <- <-]| |by intros [= <- <-]].
    destruct (delete_path_except_returns p e w1) as [l ->]. intros [= <- <-]. cbn.
    etrans; [done|]. by apply prefix_app_r.
  - apply delete_path_try_log in E; [|by apply IH].
    destruct r1 as [[]|e|]; [by intros [= <- <-]| |by intros [= <- <-]].
    destruct (delete_path_except_returns p e w1) as [l ->]. intros [= <- <-]. cbn.
    etrans; [done|]. by apply prefix_app_r.
Qed.

Lemma not_info_only w w1 lv msg :
  log w `prefix_of` log w1 → lv ≠ INFO →
  ¬ info_only w (World (fs w1) (log w1 ++ [(lv, msg)])).
Proof.
  intros [l1 Hl1] Hlv (l & Hlog & Hinfo). cbn in Hlog.
  rewrite Hl1, <- app_assoc in Hlog. apply app_inv_head in Hlog. subst l.
  apply Forall_app in Hinfo as [_ Hinfo]. inversion Hinfo as [|?? H1 ?]. by cbn in H1.
Qed.

End Delete_clears.

(** ** The two phases: what they can touch *)

Section Phases.
Variable md5 : bytes → string.
Variables source_path replica_path : path.
Implicit Types (w : world) (q item_path : path) (item_list : list path).

Lemma only_propagates_refl w : only_propagates replica_path w w.
Proof. split_and!; [done..|]. intros q Hq [n Hn]. congruence. Qed.

Lemma only_propagates_trans w1 w2 w3 :
  only_propagates replica_path w1 w2 → only_propagates replica_path w2 w3 →
  only_propagates replica_path w1 w3.
Proof.
  intros (Hd1 & Hk1 & Hs1 & Hn1) (Hd2 & Hk2 & Hs2 & Hn2).
  split_and!; [congruence|by eauto| |].
  - intros q Hq Hex. rewrite Hs2, Hs1; by eauto.
  - intros q Hq Hq3. destruct (nodes (fs w2) !! q) as [n|] eqn:Hq2.
    + destruct (Hn1 q Hq ltac:(eauto)) as [?|[Hdir Hpre]]; [by left|].
      destruct (decide (replica_path `prefix_of` q)); [by left|].
      right. split; [|done]. rewrite Hs2; by eauto.
    + by apply Hn2.
Qed.

Lemma calculate_checksum_world p w r w' :
  calculate_checksum md5 p w = (r, w') → fs w' = fs w.
Proof.
  destruct (calculate_checksum_result md5 p w) as [(d & _ & _ & ->)|(e & w1 & H)].
  - by intros [= <- <-].
  - rewrite H. intros [= <- <-]. by apply calculate_checksum_raises in H as [_ [msg ->]].
Qed.

Lemma copy_or_replace_file_changes src_file dest_file replace chunk_size w r w' :
  copy_or_replace_file src_file dest_file replace chunk_size w = (r, w') →
  denied (fs w') = denied (fs w) ∧
  (∀ q, q ≠ dest_file → nodes (fs w') !! q = nodes (fs w) !! q) ∧
  (is_Some (nodes (fs w) !! dest_file) → is_Some (nodes (fs w') !! dest_file)).
Proof.
  unfold copy_or_replace_file, try_except, bind.
  destruct (open_rb src_file w) as [[fsrc|e|] w1] eqn:E1.
  - assert (w1 = w) as -> by (unfold open_rb in E1; repeat case_match; by simplify_eq).
    destruct (open_wb dest_file w) as [[[]|e|] w2] eqn:E2.
    + assert (denied (fs w2) = denied (fs w) ∧
              (∀ q, q ≠ dest_file → nodes (fs w2) !! q = nodes (fs w) !! q) ∧
              is_Some (nodes (fs w2) !! dest_file)) as (Hd & Hf & Hs).
      { unfold open_wb in E2. repeat case_match; simplify_eq; cbn.
        all: split_and!; [done| |by rewrite lookup_insert_eq].
        all: intros q Hq; by rewrite lookup_insert_ne. }
      destruct (copy_loop_frame (S (length fsrc)) chunk_size fsrc dest_file w2)
        as (w3 & -> & Hd3 & Hl3 & Hf3 & Hs3).
      destruct replace; intros [= <- <-]; cbn.
      all: split_and!; [congruence| |by eauto].
      all: intros q Hq; by rewrite Hf3, Hf.
    + assert (w2 = w) as ->
        by (unfold open_wb in E2; repeat case_match; by simplify_eq).
      destruct replace; by intros [= <- <-].
    + unfold open_wb in E2. repeat case_match; simplify_eq.
  - assert (w1 = w) as -> by (unfold open_rb in E1; repeat case_match; by simplify_eq).
    destruct replace; by intros [= <- <-].
  - unfold open_rb in E1. repeat case_match; simplify_eq.
Qed.

Lemma replicate_file_changes source_item replica_item w r w' :
  replicate_file md5 source_item replica_item w = (r, w') →
  denied (fs w') = denied (fs w) ∧
  (∀ q, q ≠ replica_item → nodes (fs w') !! q = nodes (fs w) !! q) ∧
  (is_Some (nodes (fs w) !! replica_item) → is_Some (nodes (fs w') !! replica_item)).
Proof.
  unfold replicate_file, bind at 1, path_exists at 1.
  destruct (bool_decide _); [|apply copy_or_replace_file_changes].
  unfold bind at 1.
  destruct (calculate_checksum md5 source_item w) as [[cs|e|] w1] eqn:E1;
    pose proof (calculate_checksum_world _ _ _ _ E1) as H1.
  2,3: intros [= <- <-]; by rewrite H1.
  unfold bind at 1.
  destruct (calculate_checksum md5 replica_item w1) as [[cr|e|] w2] eqn:E2;
    pose proof (calculate_checksum_world _ _ _ _ E2) as H2.
  2,3: intros [= <- <-]; by rewrite H2, H1.
  case_bool_decide.
  - intros Hc. apply copy_or_replace_file_changes in Hc. by rewrite H2, H1 in Hc.
  - intros [= <- <-]. by rewrite H2, H1.
Qed.

Lemma create_folder_adds p w r w' :
  create_folder p w = (r, w') →
  denied (fs w') = denied (fs w) ∧ nodes (fs w) ⊆ nodes (fs w') ∧
  (∀ q, nodes (fs w) !! q = None → is_Some (nodes (fs w') !! q) →
        nodes (fs w') !! q = Some Dir ∧ q `prefix_of` p).
Proof.
  unfold create_folder, try_except, bind, path_exists, mkdir_parents.
  destruct (negb _).
  2: { intros [= <- <-]. split_and!; [done..|]. intros q Hq [n Hn]. congruence. }
  destruct (mkdir (length p) true true p w) as [[[]|e|] w1] eqn:Hm;
    pose proof (mkdir_adds _ _ _ _ _ _ _ Hm) as (Hsub & Hnew & Hd & Hl).
  - by intros [= <- <-].
  - unfold logger, raise. destruct (is_OSError e); by intros [= <- <-].
  - by intros [= <- <-].
Qed.

Lemma synchronize_item_propagates item_path w r w' :
  synchronize_item md5 source_path replica_path item_path w = (r, w') →
  only_propagates replica_path w w'.
Proof.
  unfold synchronize_item, bind at 1, is_dir at 1. destruct (dir_at _ _).
  - intros (Hd & Hsub & Hnew)%create_folder_adds. split_and!; [done| | |].
    + intros q [n Hn]. exists n. by eapply lookup_weaken.
    + intros q _ [n Hn]. rewrite Hn. by eapply lookup_weaken.
    + intros q Hq Hq'. destruct (Hnew q Hq Hq') as [Hdir Hpre].
      destruct (prefix_weak_total q replica_path (replica_path ++ item_path))
        as [?|?]; [done|by apply prefix_app_r|by right|by left].
  - unfold bind at 1, is_file at 1. destruct (file_at _ _).
    2: { intros [= <- <-]. apply only_propagates_refl. }
    intros (Hd & Hf & Hs)%replicate_file_changes. split_and!; [done| | |].
    + intros q Hq. destruct (decide (q = replica_path ++ item_path)) as [->|Hne];
        [by apply Hs|by rewrite Hf].
    + intros q Hq _. apply Hf. intros ->. apply Hq. by apply prefix_app_r.
    + intros q Hq Hq'. left.
      destruct (decide (q = replica_path ++ item_path)) as [->|Hne];
        [by apply prefix_app_r|].
      rewrite Hf, Hq in Hq' by done. by destruct Hq'.
Qed.

(** X12. The Propagate loop into a replica root that has no entry yet,
    however it ends, removes no node and changes no existing node outside
    the replica root; what it adds lies at or below the replica root, or is
    a missing parent directory of the replica root. *)
Theorem synchronize_folders_frame item_list w r w' :
  children (fs w) replica_path = [] →
  synchronize_folders md5 source_path replica_path item_list w = (r, w') →
  only_propagates replica_path w w'.
Proof.
  intros _. revert w. induction item_list as [|item_path item_list IH]; intros w.
  { intros [= <- <-]. apply only_propagates_refl. }
  unfold synchronize_folders. cbn [for_each]. unfold bind at 1.
  destruct (synchronize_item md5 source_path replica_path item_path w) as [[[]|e|] w1] eqn:E;
    pose proof (synchronize_item_propagates _ _ _ _ E) as H1.
  - intros H. eapply only_propagates_trans; [done|]. by apply IH.
  - by intros [= <- <-].
  - by intros [= <- <-].
Qed.

Lemma delete_path_changes p w :
  ∃ w', delete_path p w = (Ok tt, w') ∧ removes_only (λ q, p `prefix_of` q) w w'.
Proof.
  unfold delete_path.
  destruct (delete_path_rec_returns (depth (fs w)) p w (depth_bounded _ _)) as (w' & ? & ?).
  by exists w'.
Qed.

Lemma clean_up_replica_changes item_list w :
  ¬ replica_path `prefix_of` source_path → ¬ source_path `prefix_of` replica_path →
  ∃ w', clean_up_replica source_path replica_path item_list w = (Ok tt, w') ∧
        nodes (fs w') ⊆ nodes (fs w) ∧
        (∀ q, ¬ replica_path `prefix_of` q → nodes (fs w') !! q = nodes (fs w) !! q) ∧
        (∀ q, (∀ item_path, item_path ∈ item_list →
                 (replica_path ++ item_path) `prefix_of` q →
                 is_Some (node_at (fs w) (source_path ++ item_path))) →
              nodes (fs w') !! q = nodes (fs w) !! q).
Proof.
  intros Hrs Hsr.
  assert (∀ x, ¬ replica_path `prefix_of` source_path ++ x) as Hsrc.
  { intros x Hpre.
    destruct (prefix_weak_total replica_path source_path (source_path ++ x));
      [done|by apply prefix_app_r|done..]. }
  induction item_list as [|item_path item_list IH] in w |- *.
  { exists w. by split_and!. }
  unfold clean_up_replica. cbn [for_each]. unfold bind at 1.
  assert (∃ w1, clean_up_item source_path replica_path item_path w = (Ok tt, w1) ∧
      removes_only (λ q, (replica_path ++ item_path) `prefix_of` q ∧
                         node_at (fs w) (source_path ++ item_path) = None) w w1)
    as (w1 & -> & Hsub1 & Hframe1).
  { unfold clean_up_item, bind, path_exists.
    destruct (node_at (fs w) (source_path ++ item_path)) as [n|] eqn:Hn.
    - rewrite bool_decide_eq_true_2 by eauto. cbn. exists w. split; [done|].
      apply removes_only_refl.
    - rewrite bool_decide_eq_false_2 by (by intros [??]). cbn.
      destruct (delete_path_changes (replica_path ++ item_path) w) as (w1 & -> & Hrem).
      exists w1. split; [done|]. eapply removes_only_weaken; [|done]. naive_solver. }
  destruct (IH w1) as (w' & Hloop & Hsub & Hout & Hkeep).
  fold (clean_up_replica source_path replica_path item_list). rewrite Hloop.
  assert (∀ x, node_at (fs w1) (source_path ++ x) = node_at (fs w) (source_path ++ x))
    as Hsame.
  { intros x. unfold node_at. destruct (source_path ++ x) eqn:E; [done|]. rewrite <- E.
    apply Hframe1. intros [Hpre _]. eapply (Hsrc x). etrans; [|done].
    by apply prefix_app_r. }
  exists w'. split_and!; [done|by etrans| |].
  - intros q Hq. rewrite Hout by done. apply Hframe1. intros [Hpre _]. apply Hq.
    etrans; [|done]. by apply prefix_app_r.
  - intros q Hq. rewrite Hkeep.
    + apply Hframe1. intros [Hpre Hnone].
      destruct (Hq item_path ltac:(left) Hpre) as [n Hn]. congruence.
    + intros item Hin Hpre. rewrite Hsame. apply Hq; [by right|done].
Qed.
(** X13. When neither root lies inside the other, nothing is refused at
    or below the source root and the Prune loop has logged nothing but INFO
    records, the loop has returned normally, has added or changed no node,
    has changed nothing outside the replica root, and has left as it was
    every node that does not lie at or below a listed entry without a
    counterpart in the source: an entry that has one is kept. *)
Theorem clean_up_replica_frame item_list w r w' :
  ¬ replica_path `prefix_of` source_path → ¬ source_path `prefix_of` replica_path →
  (∀ q, source_path `prefix_of` q → is_denied (fs w) q = false) →
  clean_up_replica source_path replica_path item_list w = (r, w') →
  info_only w w' →
  r = Ok tt ∧
  nodes (fs w') ⊆ nodes (fs w) ∧
  (∀ q, ¬ replica_path `prefix_of` q → nodes (fs w') !! q = nodes (fs w) !! q) ∧
  (∀ q, (∀ item_path, item_path ∈ item_list →
           (replica_path ++ item_path) `prefix_of` q →
           is_Some (node_at (fs w) (source_path ++ item_path))) →
        nodes (fs w') !! q = nodes (fs w) !! q).
Proof.
  intros Hrs Hsr _ Hrun _.
  destruct (clean_up_replica_changes item_list w Hrs Hsr) as (w1 & Hrun1 & H).
  rewrite Hrun in Hrun1. by injection Hrun1 as -> ->.
Qed.
End Phases.

(** ** The Prune phase on a well-formed replica *)

Section Prune.
Variables source_path replica_path : path.
Implicit Types (w : world) (q item_path : path) (item_list : list path).

Lemma clean_up_replica_cleared item_list w :
  well_formed (fs w) → replica_path ≠ [] →
  ¬ replica_path `prefix_of` source_path → ¬ source_path `prefix_of` replica_path →
  (∀ q, replica_path `prefix_of` q → is_denied (fs w) q = false) →
  ∃ w', clean_up_replica source_path replica_path item_list w = (Ok tt, w') ∧
        cleared (stale_entries source_path replica_path w item_list) w w' ∧
        info_only w w' ∧ well_formed (fs w').
Proof.
  intros Hwf Hne Hrs Hsr Hden.
  assert (∀ x, ¬ replica_path `prefix_of` source_path ++ x) as Hsrc.
  { intros x Hpre.
    destruct (prefix_weak_total replica_path source_path (source_path ++ x));
      [done|by apply prefix_app_r|done..]. }
  induction item_list as [|item_path item_list IH] in w, Hwf, Hden |- *.
  { exists w. split_and!; [done|apply cleared_nil|apply info_only_refl|done]. }
  unfold clean_up_replica. cbn [for_each]. unfold bind at 1.
  assert (∃ w1, clean_up_item source_path replica_path item_path w = (Ok tt, w1) ∧
      cleared (stale_entries source_path replica_path w [item_path]) w w1 ∧
      info_only w w1) as (w1 & -> & Hc1 & Hi1).
  { unfold clean_up_item, bind, path_exists, stale_entries.
    rewrite filter_cons, filter_nil.
    destruct (decide (is_Some (node_at (fs w) (source_path ++ item_path)))) as [Hs|Hs].
    - rewrite bool_decide_eq_true_2 by done. rewrite decide_False by naive_solver.
      exists w. split_and!; [done|apply cleared_nil|apply info_only_refl].
    - rewrite bool_decide_eq_false_2 by done. rewrite decide_True by done. cbn.
      apply delete_path_cleared; [done|by destruct replica_path|].
      intros q Hq. apply Hden. etrans; [|done]. by apply prefix_app_r. }
  pose proof (cleared_well_formed _ _ _ Hc1 Hwf) as Hwf1.
  pose proof Hc1 as [Hden1 Hlook1].
  destruct (IH w1 Hwf1) as (w' & Hloop & Hc & Hi & Hwf').
  { intros q Hq. unfold is_denied. rewrite Hden1. by apply Hden. }
  fold (clean_up_replica source_path replica_path item_list). rewrite Hloop.
  assert (stale_entries source_path replica_path w1 item_list
          = stale_entries source_path replica_path w item_list) as Hstale.
  { unfold stale_entries. f_equal. apply list_filter_iff. intros x.
    assert (node_at (fs w1) (source_path ++ x) = node_at (fs w) (source_path ++ x)) as ->;
      [|done].
    unfold node_at. destruct (source_path ++ x) eqn:E; [done|]. rewrite <- E.
    apply Hlook1. intros Hin. apply Exists_exists in Hin as (d & Hd & Hpre).
    unfold stale_entries in Hd. apply list_elem_of_fmap in Hd as (y & -> & _).
    apply (Hsrc x). etrans; [|done]. by apply prefix_app_r. }
  exists w'. split_and!; [done| |by eapply info_only_trans|done].
  rewrite Hstale in Hc.
  replace (stale_entries source_path replica_path w (item_path :: item_list))
    with (stale_entries source_path replica_path w [item_path]
          ++ stale_entries source_path replica_path w item_list).
  - by eapply cleared_app.
  - unfold stale_entries. rewrite <- fmap_app. f_equal.
    by rewrite <- filter_app.
Qed.

End Prune.

(** ** The worker pool: every run ends, and none gets stuck *)

Section Pool_progress.
Variable md5 : bytes → string.
Variables source_path replica_path : path.
Implicit Types (st : pool) (c : pick) (sched : list pick) (prog : list action).

Local Abbreviation step := (step md5 source_path replica_path).
Local Abbreviation run := (run md5 source_path replica_path).

Lemma step_work prog c st st' : step prog c st = Some st' → S (work prog st') ≤ work prog st.
Proof.
  destruct c as [|i]; unfold step.
  - destruct (prog !! pc st) as [a|] eqn:Ha; [|done].
    pose proof (drop_S _ _ _ Ha) as Hdrop. destruct a as [tg chunk|i].
    + intros [= <-]. unfold work. cbn [pc threads]. rewrite Hdrop, sum_list_with_app.
      cbn [sum_list_with cost th_todo]. lia.
    + destruct (threads st !! i) as [[tg [|??]]|]; [|done..]. intros [= <-].
      unfold work. cbn [pc threads]. rewrite Hdrop. cbn [sum_list_with cost]. lia.
  - destruct (threads st !! i) as [[tg [|item todo]]|] eqn:Hi; [done| |done].
    destruct (target_item md5 source_path replica_path tg item (pworld st)) as [r w'].
    intros [= <-]. unfold work. cbn [pc threads].
    pose proof (lookup_lt_Some _ _ _ Hi) as Hlt.
    rewrite insert_take_drop by done.
    rewrite <- (take_drop_middle (threads st) i _ Hi) at 3.
    rewrite !sum_list_with_app. cbn [sum_list_with th_todo length].
    destruct r; cbn [length]; lia.
Qed.

Lemma run_work prog sched st st' :
  run prog sched st = Some st' → length sched + work prog st' ≤ work prog st.
Proof.
  revert st. induction sched as [|c sched IH]; intros st; cbn.
  - intros [= <-]. lia.
  - destruct (step prog c st) as [st1|] eqn:E; [|done].
    intros H%IH. apply step_work in E. lia.
Qed.

Lemma cost_Start tg (chunks : list (list path)) :
  sum_list_with cost (Start tg <$> chunks) = length chunks + length (concat chunks).
Proof.
  induction chunks as [|c chunks IH]; [done|]. cbn. rewrite IH, length_app. lia.
Qed.

Lemma cost_Join (l : list nat) : sum_list_with cost (Join <$> l) = length l.
Proof. induction l as [|i l IH]; [done|]. cbn. by rewrite IH. Qed.

Lemma cost_batch first source_items replica_items :
  sum_list_with cost (batch first source_items replica_items)
  = 2 * (length source_items + length replica_items)
    + length (concat source_items) + length (concat replica_items).
Proof.
  unfold batch. rewrite !sum_list_with_app, !cost_Start, cost_Join, length_seq. lia.
Qed.

(** X15. Every run of [process_with_threads] is finite: whatever the
    scheduler picks, it takes at most one pick per statement of the main
    thread (two batches of one start and one join per chunk) and two per
    entry, one in each batch. *)
Theorem process_with_threads_bounded source_items replica_items sched w st :
  run (process_with_threads source_items replica_items) sched (spawn w) = Some st →
  length sched
  ≤ 4 * (length source_items + length replica_items)
    + 2 * (length (concat source_items) + length (concat replica_items)).
Proof.
  intros H%run_work.
  assert (work (process_with_threads source_items replica_items) (spawn w)
          = 4 * (length source_items + length replica_items)
            + 2 * (length (concat source_items) + length (concat replica_items))) as Hw.
  { unfold work, spawn, process_with_threads. cbn [pc threads].
    rewrite drop_0, sum_list_with_app, !cost_batch. cbn [sum_list_with]. lia. }
  lia.
Qed.

(** In [batch], every [join] is on a thread that the statements before it
    have started. *)
Lemma batch_joins_started pre first source_items replica_items k i :
  length (starts_of pre) = first → length pre ≤ k →
  (pre ++ batch first source_items replica_items) !! k = Some (Join i) →
  i < length (starts_of (take k (pre ++ batch first source_items replica_items))).
Proof.
  intros Hfirst Hk Hlook. unfold batch in *.
  set (n := length source_items + length replica_items) in *.
  rewrite (app_assoc (Start Synchronize_folders <$> source_items)) in Hlook |- *.
  set (starts := (Start Synchronize_folders <$> source_items)
                 ++ (Start Clean_up_replica <$> replica_items)) in *.
  assert (length starts = n) as Hn
    by (unfold starts; rewrite length_app, !length_fmap; done).
  assert (length (starts_of starts) = n) as Hsn.
  { unfold starts. rewrite starts_of_app, !starts_of_Start, length_app, !length_fmap. done. }
  rewrite lookup_app_r in Hlook by done.
  apply lookup_app_Some in Hlook as [Hin|[Hge Hin]].
  { unfold starts in Hin. apply lookup_app_Some in Hin as [Hin|[_ Hin]];
      apply list_lookup_fmap_Some in Hin as (? & ? & ?); done. }
  apply list_lookup_fmap_Some in Hin as (j & [= ->] & Hj).
  apply lookup_seq in Hj as [-> Hlt].
  rewrite (app_assoc pre), take_app_ge by (rewrite length_app; lia).
  rewrite !starts_of_app, !length_app, Hfirst, Hsn. lia.
Qed.

Lemma process_with_threads_joins_started source_items replica_items k i :
  process_with_threads source_items replica_items !! k = Some (Join i) →
  i < length (starts_of (take k (process_with_threads source_items replica_items))).
Proof.
  unfold process_with_threads. intros Hlook.
  destruct (decide (k < length (batch 0 source_items replica_items))) as [Hlt|Hge].
  - rewrite lookup_app_l in Hlook by done. rewrite take_app_le by lia.
    by apply (batch_joins_started [] 0); [done|cbn; lia|].
  - apply batch_joins_started; [|lia|done].
    rewrite starts_of_batch. unfold batch_threads. by rewrite length_app, !length_fmap.
Qed.

End Pool_progress.

(** ** The enumeration of a tree *)

Section Enumeration.
Implicit Types (f : filesystem) (w : world) (d q x root : path).

Lemma elem_of_concat_fmap {A B} (g : A → list B) (l : list A) (y : B) :
  y ∈ concat (g <$> l) ↔ ∃ a, y ∈ g a ∧ a ∈ l.
Proof.
  induction l as [|a l IH]; cbn.
  - split; [by intros ?%elem_of_nil|by intros (? & _ & ?%elem_of_nil)].
  - rewrite elem_of_app, IH. split.
    + intros [?|(a' & ? & ?)]; [exists a; split; [done|left]|exists a'; split; [done|by right]].
    + intros (a' & Hy & [->|?]%elem_of_cons); [by left|right; by eauto].
Qed.

Lemma concat_fmap_bind {A B} (g : A → list B) (l : list A) : concat (g <$> l) = l ≫= g.
Proof. induction l as [|a l IH]; [done|]. cbn. by rewrite IH. Qed.

Lemma children_NoDup f d : NoDup (children f d).
Proof. unfold children. apply NoDup_filter, NoDup_fst_map_to_list. Qed.

Lemma child_dirs_spec f d c :
  c ∈ filter (λ q, dir_at f q) (children f d) ↔
  (∃ name, c = d ++ [name]) ∧ dir_at f c = true.
Proof.
  rewrite list_elem_of_filter, children_spec. split.
  - intros (Hd & Hex & Hne & Hpar). split; [by apply child_name|].
    by destruct (dir_at f c).
  - intros ([name ->] & Hd). split_and!; [by rewrite Hd| |by destruct d|].
    + unfold dir_at, node_at in Hd. destruct (d ++ [name]) eqn:E; [by destruct d|].
      destruct (nodes f !! (s :: l)); [by eauto|done].
    + unfold parent. by rewrite removelast_last.
Qed.

Lemma below_trans d name x : below (d ++ [name]) x → below d x.
Proof.
  intros [n Hpre]. exists name. etrans; [|done]. by apply prefix_app_r.
Qed.

Lemma not_below_nil d : ¬ below d [].
Proof.
  intros [name Hn%prefix_length]. rewrite length_app in Hn. cbn in Hn. lia.
Qed.

(** The directories the walk visits: the root, and directories below it. *)
Lemma iterate_directories_sound fuel f d x :
  x ∈ iterate_directories fuel f d → x = d ∨ (below d x ∧ dir_at f x = true).
Proof.
  revert d. induction fuel as [|k IH]; intros d; cbn [iterate_directories].
  { intros [->|?%elem_of_nil]%elem_of_cons; [by left|done]. }
  intros [->|Hin]%elem_of_cons; [by left|]. right.
  apply elem_of_concat_fmap in Hin as (c & Hx & Hc).
  apply (proj1 (child_dirs_spec _ _ _)) in Hc as [[name ->] Hd].
  destruct (IH _ Hx) as [->|[Hb Hdx]].
  - split; [|done]. by exists name.
  - split; [|done]. by eapply below_trans.
Qed.

Lemma iterate_directories_NoDup fuel f d : NoDup (iterate_directories fuel f d).
Proof.
  revert d. induction fuel as [|k IH]; intros d; cbn [iterate_directories].
  { apply NoDup_singleton. }
  apply NoDup_cons. split.
  - intros (c & Hx & Hc)%elem_of_concat_fmap.
    apply (proj1 (child_dirs_spec _ _ _)) in Hc as [[name ->] Hd].
    destruct (iterate_directories_sound _ _ _ _ Hx) as [Heq|[Hb _]].
    + apply (f_equal length) in Heq. rewrite length_app in Heq. cbn in Heq. lia.
    + apply below_trans in Hb. by apply not_below_self in Hb.
  - rewrite concat_fmap_bind. apply NoDup_bind; [|by auto|].
    + intros c1 c2 y Hc1 Hc2 H1 H2.
      apply (proj1 (child_dirs_spec _ _ _)) in Hc1 as [[n1 ->] _].
      apply (proj1 (child_dirs_spec _ _ _)) in Hc2 as [[n2 ->] _].
      assert (∀ n, y ∈ iterate_directories k f (d ++ [n]) → (d ++ [n]) `prefix_of` y) as Hp.
      { intros n [->|[Hb _]]%iterate_directories_sound; [done|by apply below_prefix]. }
      f_equal. f_equal. eapply prefix_sibling; by apply Hp.
    + apply NoDup_filter, children_NoDup.
Qed.

(** In a well-formed filesystem the walk reaches every directory below the
    root that its budget allows. *)
Lemma iterate_directories_complete fuel f d x :
  well_formed f → dir_at f x = true → below d x →
  length x ≤ length d + fuel → x ∈ iterate_directories fuel f d.
Proof.
  intros Hwf Hdx. revert d. induction fuel as [|k IH]; intros d Hb Hlen.
  { apply below_prefix in Hb as Hpre. destruct Hb as [name Hn%prefix_length].
    rewrite length_app in Hn. cbn in Hn. lia. }
  cbn [iterate_directories]. right.
  assert (is_Some (nodes f !! x)) as Hex.
  { unfold dir_at, node_at in Hdx. destruct x; [by apply not_below_nil in Hb|].
    destruct (nodes f !! (s :: x)); [by eauto|done]. }
  destruct (well_formed_entry f d x Hwf Hex Hb) as (name & Hc & Hpre).
  apply elem_of_concat_fmap. exists (d ++ [name]).
  destruct (prefix_or_below _ _ Hpre) as [->|Hbc].
  - split; [destruct k; left|]. all: try (apply child_dirs_spec; by eauto).
  - assert (dir_at f (d ++ [name]) = true) as Hdc.
    { destruct (dir_at f (d ++ [name])) eqn:E; [done|].
      rewrite (no_nodes_below_non_dir f _ x Hwf E Hbc) in Hex. by destruct Hex. }
    split; [|apply child_dirs_spec; by eauto].
    apply IH; [done|]. rewrite length_app. cbn. lia.
Qed.

Lemma relative_to_app root rel : relative_to root (root ++ rel) = rel.
Proof. unfold relative_to. by rewrite drop_app_length. Qed.

Lemma concat_split {A} (ls : list (list A)) (pre : list A) (x : A) (post : list A) :
  concat ls = pre ++ x :: post →
  ∃ ls1 a b ls2, ls = ls1 ++ (a ++ x :: b) :: ls2 ∧ pre = concat ls1 ++ a.
Proof.
  revert pre. induction ls as [|l ls IH]; intros pre; cbn.
  { by destruct pre. }
  intros [(k & Hl & Hk)|(k & Hpre & Hk)]%app_eq_inv.
  - destruct k as [|y k].
    + cbn in Hk. symmetry in Hk. destruct (IH [] Hk) as (ls1 & a & b & ls2 & -> & Hnil).
      exists (l :: ls1), a, b, ls2. split; [done|]. cbn.
      rewrite app_nil_r in Hl. subst l. by rewrite <- app_assoc, <- Hnil, app_nil_r.
    + injection Hk as <- Hpost. exists [], pre, k, ls. by subst l.
  - destruct (IH k Hk) as (ls1 & a & b & ls2 & -> & ->).
    exists (l :: ls1), a, b, ls2. split; [done|]. cbn. by rewrite <- app_assoc.
Qed.

Lemma iterate_directories_preorder fuel f d0 pre x post :
  iterate_directories fuel f d0 = pre ++ x :: post →
  (x = d0 ∧ pre = []) ∨ (below d0 x ∧ dir_at f x = true ∧ parent x ∈ pre).
Proof.
  revert d0 pre post. induction fuel as [|k IH]; intros d0 pre post; cbn [iterate_directories].
  { destruct pre as [|? [|]]; [|done..]. intros [= <-]. by left. }
  destruct pre as [|y pre]; [intros [= <-]; by left|].
  cbn. intros [= <- Hc]. right.
  apply concat_split in Hc as (ls1 & a & b & ls2 & Hls & ->).
  apply fmap_app_inv in Hls as (cs1 & cs2' & -> & Hcs2 & Hcs).
  symmetry in Hcs2. apply fmap_cons_inv in Hcs2 as (c & cs2 & Hit & -> & ->).
  assert (c ∈ filter (λ q, dir_at f q) (children f d0)) as Hc.
  { rewrite Hcs. apply elem_of_app. right. left. }
  apply (proj1 (child_dirs_spec _ _ _)) in Hc as [[name ->] Hd].
  symmetry in Hit. destruct (IH _ _ _ Hit) as [[-> ->]|(Hb & Hdx & Hin)].
  - split_and!; [by exists name|done|]. unfold parent. rewrite removelast_last. left.
  - split_and!; [by eapply below_trans|done|].
    right. apply elem_of_app. by right.
Qed.

Lemma parent_snoc q (name : string) : parent (q ++ [name]) = q.
Proof. unfold parent. by rewrite removelast_last. Qed.

Lemma get_items_chunks_tree root w :
  well_formed (fs w) →
  ∃ l,
    (∀ n, get_items_chunks root n w
          = (Ok (if bool_decide (n = 1) then Flat l else Chunked (Chunks.chunk_list l n)), w)) ∧
    NoDup l ∧ parents_first l ∧
    ∀ rel, rel ∈ l ↔ rel ≠ [] ∧ is_Some (nodes (fs w) !! (root ++ rel)).
Proof.
  intros Hwf.
  set (dirs := iterate_directories (depth (fs w)) (fs w) root).
  set (found := concat (children (fs w) <$> dirs)).
  assert (∀ q, q ∈ found ↔ is_Some (nodes (fs w) !! q) ∧ below root q) as Hfound.
  { intros q. unfold found. rewrite elem_of_concat_fmap. split.
    - intros (x & (Hex & Hne & Hpar)%children_spec & Hx). split; [done|].
      destruct (child_name _ _ Hne Hpar) as [name ->].
      apply iterate_directories_sound in Hx as [->|[Hb _]];
        [by exists name|].
      destruct Hb as [n Hpre]. exists n. by apply prefix_app_r.
    - intros [Hex Hb]. exists (parent q).
      assert (q ≠ []) as Hne by (intros ->; by apply not_below_nil in Hb).
      split; [by apply children_spec|].
      destruct Hb as [name [rest ->]].
      destruct rest as [|z rest _] using rev_ind.
      + rewrite app_nil_r. unfold parent. rewrite removelast_last. destruct (depth _); left.
      + rewrite app_assoc. unfold parent. rewrite removelast_last.
        apply iterate_directories_complete; [done| | |].
        * specialize (Hwf _ Hex Hne). rewrite app_assoc in Hwf. unfold parent in Hwf.
          by rewrite removelast_last in Hwf.
        * exists name. by apply prefix_app_r.
        * pose proof (depth_bounded (fs w) [] _ Hex (prefix_nil _)) as Hd.
          rewrite !length_app in *. cbn in *. lia. }
  assert (NoDup found) as Hnd.
  { unfold found. rewrite concat_fmap_bind. apply NoDup_bind.
    - intros x1 x2 y _ _ (_ & _ & <-)%children_spec (_ & _ & <-)%children_spec. done.
    - intros x _. apply children_NoDup.
    - apply iterate_directories_NoDup. }
  exists (relative_to root <$> found). split_and!.
  - intros n. unfold get_items_chunks, glob_all, bind, ret. by case_bool_decide.
  - apply NoDup_fmap_2_strong; [|done].
    intros q1 q2 [_ [n1 [r1 ->]]]%Hfound [_ [n2 [r2 ->]]]%Hfound.
    rewrite <- !app_assoc, !relative_to_app. by intros ->.
  - intros l1 x l2 Hl.
    apply fmap_app_inv in Hl as (f1 & f2' & -> & Hf2 & Hf).
    symmetry in Hf2. apply fmap_cons_inv in Hf2 as (q & f2 & -> & -> & ->).
    unfold found in Hf. apply concat_split in Hf as (ls1 & a & b & ls2 & Hls & ->).
    apply fmap_app_inv in Hls as (ds1 & ds2' & -> & Hds2 & Hds).
    symmetry in Hds2. apply fmap_cons_inv in Hds2 as (d & ds2 & Hch & -> & ->).
    assert (q ∈ children (fs w) d) as Hq.
    { rewrite <- Hch. apply elem_of_app. right. left. }
    apply children_spec in Hq as (Hex & Hne & Hpar).
    destruct (child_name _ _ Hne Hpar) as [name ->].
    destruct (iterate_directories_preorder _ _ _ _ _ _ Hds) as [[-> ->]|(Hb & Hd & Hin)].
    + left. by rewrite relative_to_app.
    + right. apply below_prefix in Hb as Hpre. destruct Hpre as [rd ->].
      rewrite <- app_assoc, relative_to_app, parent_snoc.
      apply list_elem_of_fmap. exists (root ++ rd). rewrite relative_to_app. split; [done|].
      apply elem_of_app. left. apply elem_of_concat_fmap. exists (parent (root ++ rd)).
      split; [|done].
      assert (rd ≠ []) as Hrd.
      { intros ->. rewrite app_nil_r in Hb. by apply not_below_self in Hb. }
      assert (root ++ rd ≠ []) as Hnn by (by destruct root, rd).
      apply children_spec. split_and!; [|done..].
      unfold dir_at in Hd. rewrite node_at_nodes in Hd by done.
      destruct (nodes (fs w) !! (root ++ rd)); [by eauto|done].
  - intros rel. rewrite list_elem_of_fmap. split.
    + intros (q & -> & [Hex [name [rest ->]]]%Hfound).
      rewrite <- app_assoc, relative_to_app. split; [done|]. by rewrite <- app_assoc in Hex.
    + intros [Hne Hex]. exists (root ++ rel). rewrite relative_to_app. split; [done|].
      apply Hfound. split; [done|]. destruct rel as [|name rest]; [done|].
      exists name. exists rest. by rewrite <- app_assoc.
Qed.

End Enumeration.

(** ** One pass without threads *)

Section Sequential_pass.
Variable md5 : bytes → string.
Variables source_path replica_path : path.
Implicit Types (w : world) (q rel : path) (f : filesystem).

Lemma parent_app p rel : rel ≠ [] → parent (p ++ rel) = p ++ parent rel.
Proof. intros H. unfold parent. by rewrite removelast_app. Qed.

Lemma parent_ne p : p ≠ [] → parent p ≠ p.
Proof.
  intros Hne Heq. apply (f_equal length) in Heq.
  pose proof (parent_length p Hne). lia.
Qed.

(** Adding a node inside a directory, or writing a regular file over a
    regular file, keeps a filesystem well-formed. *)
Lemma well_formed_insert f p n den :
  well_formed f → p ≠ [] → dir_at f (parent p) = true →
  (nodes f !! p = Some Dir → n = Dir) →
  well_formed (FS (<[p := n]> (nodes f)) den).
Proof.
  intros Hwf Hne Hpar Hkind q Hq Hqne.
  assert (∀ x, x ≠ p → dir_at f x = true →
               dir_at (FS (<[p := n]> (nodes f)) den) x = true) as Hkeep.
  { intros x Hx. unfold dir_at, node_at. cbn. destruct x; [done|].
    by rewrite lookup_insert_ne. }
  destruct (decide (q = p)) as [->|Hqp].
  { apply Hkeep; [by apply parent_ne|done]. }
  cbn in Hq. rewrite lookup_insert_ne in Hq by done.
  specialize (Hwf q Hq Hqne).
  destruct (decide (parent q = p)) as [Hp|Hp]; [|by apply Hkeep].
  rewrite Hp in *. unfold dir_at in *. rewrite node_at_nodes in * by done. cbn.
  rewrite lookup_insert_eq.
  destruct (nodes f !! p) as [[]|] eqn:E; try done. by rewrite Hkind.
Qed.

Lemma create_folder_in_dir p w :
  p ≠ [] → nodes (fs w) !! p = None → dir_at (fs w) (parent p) = true →
  is_denied (fs w) p = false →
  create_folder p w
  = (Ok tt, World (FS (<[p := Dir]> (nodes (fs w))) (denied (fs w)))
                  (log w ++ [(INFO, Created_folder p)])).
Proof.
  intros Hne Hp Hpar Hd.
  unfold create_folder, try_except, bind, path_exists, mkdir_parents.
  rewrite node_at_nodes, Hp by done.
  rewrite bool_decide_eq_false_2 by (by intros [??]). cbn [negb].
  destruct p as [|a p]; [done|]. cbn [length mkdir]. unfold try_except, os_mkdir.
  rewrite node_at_nodes, Hp by done.
  unfold dir_at in Hpar. destruct (node_at (fs w) (parent (a :: p))) as [[]|]; try done.
  by rewrite Hd.
Qed.

Lemma info_only_one w w' m : log w' = log w ++ [(INFO, m)] → info_only w w'.
Proof. intros H. exists [(INFO, m)]. split; [done|]. by repeat constructor. Qed.

(** One iteration of the Propagate loop when nothing is in its way. *)
Lemma synchronize_item_mirrors rel w :
  rel ≠ [] → well_formed (fs w) →
  is_denied (fs w) (source_path ++ rel) = false →
  is_denied (fs w) (replica_path ++ rel) = false →
  (∀ n m, nodes (fs w) !! (source_path ++ rel) = Some n →
          nodes (fs w) !! (replica_path ++ rel) = Some m → same_kind n m = true) →
  (is_Some (nodes (fs w) !! (source_path ++ rel)) →
   dir_at (fs w) (replica_path ++ parent rel) = true) →
  ∃ w', synchronize_item md5 source_path replica_path rel w = (Ok tt, w') ∧
    denied (fs w') = denied (fs w) ∧ info_only w w' ∧ well_formed (fs w') ∧
    (∀ q, q ≠ replica_path ++ rel → nodes (fs w') !! q = nodes (fs w) !! q) ∧
    (is_Some (nodes (fs w) !! (source_path ++ rel)) →
     mirrors md5 (nodes (fs w) !! (source_path ++ rel))
                 (nodes (fs w') !! (replica_path ++ rel))) ∧
    (nodes (fs w) !! (source_path ++ rel) = None → w' = w).
Proof.
  intros Hne Hwf Hds Hdr Hcompat Hpar.
  assert (source_path ++ rel ≠ []) as Hsne by (by destruct source_path, rel).
  assert (replica_path ++ rel ≠ []) as Hrne by (by destruct replica_path, rel).
  rewrite <- (parent_app replica_path rel Hne) in Hpar.
  assert (dir_at (fs w) (source_path ++ rel)
          = match nodes (fs w) !! (source_path ++ rel) with Some Dir => true | _ => false end)
    as Hdir by (unfold dir_at; by rewrite node_at_nodes).
  assert (file_at (fs w) (source_path ++ rel)
          = match nodes (fs w) !! (source_path ++ rel) with Some (File _) => true | _ => false end)
    as Hfile by (unfold file_at; by rewrite node_at_nodes).
  unfold synchronize_item, bind, is_dir, is_file. rewrite Hdir. clear Hdir.
  destruct (nodes (fs w) !! (source_path ++ rel)) as [[data|]|] eqn:Hs; cbv beta iota;
    rewrite ?Hfile; cbv beta iota.
  - unfold replicate_file, bind, path_exists. cbv beta iota. rewrite (node_at_nodes _ _ Hrne).
    destruct (nodes (fs w) !! (replica_path ++ rel)) as [[data'|]|] eqn:Hr.
    + rewrite bool_decide_eq_true_2 by eauto.
      rewrite (calculate_checksum_ok md5 _ _ data) by (by rewrite ?node_at_nodes).
      rewrite (calculate_checksum_ok md5 _ _ data') by (by rewrite ?node_at_nodes).
      case_bool_decide as Hsum.
      * rewrite (copy_or_replace_file_ok _ _ _ _ data); [|by rewrite ?node_at_nodes|done|done|].
        2:{ left. unfold file_at. by rewrite node_at_nodes, Hr. }
        eexists. split; [done|]. cbn. split_and!.
        -- done.
        -- by eapply info_only_one.
        -- apply well_formed_insert; [done|done|apply Hpar; eauto|]. by rewrite Hr.
        -- intros q Hq. by rewrite lookup_insert_ne.
        -- intros _. exists data. by rewrite lookup_insert_eq.
        -- done.
      * exists w. split_and!; [done|done|apply info_only_refl|done|done| |done].
        intros _. exists data'. by split.
    + by specialize (Hcompat _ _ eq_refl eq_refl).
    + rewrite bool_decide_eq_false_2 by (by intros [??]).
      rewrite (copy_or_replace_file_ok _ _ _ _ data); [|by rewrite ?node_at_nodes|done|done|].
      2:{ right. rewrite node_at_nodes by done. split; [done|]. apply Hpar. eauto. }
      eexists. split; [done|]. cbn. split_and!; [done|by eapply info_only_one| | | |done].
      * apply well_formed_insert; [done|done|apply Hpar; eauto|]. by rewrite Hr.
      * intros q Hq. by rewrite lookup_insert_ne.
      * intros _. exists data. by rewrite lookup_insert_eq.
  - destruct (nodes (fs w) !! (replica_path ++ rel)) as [[data'|]|] eqn:Hr.
    + by specialize (Hcompat _ _ eq_refl eq_refl).
    + exists w. unfold create_folder, try_except, bind, path_exists.
      rewrite node_at_nodes, Hr by done. rewrite bool_decide_eq_true_2 by eauto.
      split_and!; [done|done|apply info_only_refl|done|done|done|done].
    + rewrite create_folder_in_dir; [|done|done|apply Hpar; eauto|done].
      eexists. split; [done|]. cbn. split_and!; [done|by eapply info_only_one| | | |done].
      * apply well_formed_insert; [done|done|apply Hpar; eauto|done].
      * intros q Hq. by rewrite lookup_insert_ne.
      * intros _. by rewrite lookup_insert_eq.
  - exists w. split_and!; [done|done|apply info_only_refl|done|done|by intros [??]|done].
Qed.

Lemma mirrors_same_kind n m : mirrors md5 (Some n) (Some m) → same_kind n m = true.
Proof. destruct n, m; cbn; try done. by intros (? & ? & ?). Qed.

Lemma disjoint_roots_source rel :
  ¬ replica_path `prefix_of` source_path → ¬ source_path `prefix_of` replica_path →
  ¬ replica_path `prefix_of` source_path ++ rel.
Proof.
  intros Hrs Hsr Hpre.
  destruct (prefix_weak_total replica_path source_path (source_path ++ rel));
    [done|by apply prefix_app_r|done..].
Qed.

Lemma synchronize_folders_propagated l done w0 w :
  ¬ replica_path `prefix_of` source_path → ¬ source_path `prefix_of` replica_path →
  well_formed (fs w0) →
  (∀ q, source_path `prefix_of` q ∨ replica_path `prefix_of` q → is_denied (fs w0) q = false) →
  (∀ rel n m, nodes (fs w0) !! (source_path ++ rel) = Some n →
              nodes (fs w0) !! (replica_path ++ rel) = Some m → same_kind n m = true) →
  dir_at (fs w0) replica_path = true →
  (∀ rel, rel ∈ done ++ l → rel ≠ []) →
  (∀ l1 x l2, l = l1 ++ x :: l2 → parent x = [] ∨ parent x ∈ done ++ l1) →
  propagated md5 source_path replica_path done w0 w →
  ∃ w', synchronize_folders md5 source_path replica_path l w = (Ok tt, w') ∧
        propagated md5 source_path replica_path (done ++ l) w0 w'.
Proof.
  intros Hrs Hsr Hwf0 Hden0 Hcompat Hroot.
  assert (source_path ≠ []) as Hsne by (intros ->; apply Hsr, prefix_nil).
  assert (replica_path ≠ []) as Hrne by (intros ->; apply Hrs, prefix_nil).
  revert done w. induction l as [|x l IH]; intros done w Hnes Hord Hinv.
  { exists w. by rewrite app_nil_r. }
  destruct Hinv as (Hden & Hinfo & Hwf & Hout & Hmir & Hsame).
  assert (x ≠ []) as Hx by (apply Hnes, elem_of_app; right; left).
  assert (nodes (fs w) !! (source_path ++ x) = nodes (fs w0) !! (source_path ++ x)) as Hs.
  { apply Hout. by apply disjoint_roots_source. }
  assert (∀ q, is_denied (fs w) q = is_denied (fs w0) q) as Hdq.
  { intros q. unfold is_denied. by rewrite Hden. }
  destruct (synchronize_item_mirrors x w) as (w1 & Hrun & Hden1 & Hinfo1 & Hwf1 & Hframe & Hmir1 & Hskip).
  - done.
  - done.
  - rewrite Hdq. apply Hden0. left. by apply prefix_app_r.
  - rewrite Hdq. apply Hden0. right. by apply prefix_app_r.
  - rewrite Hs. intros n m Hn Hm.
    destruct (decide (x ∈ done)) as [Hin|Hin].
    + apply mirrors_same_kind. rewrite <- Hn, <- Hm. apply Hmir; [done|]. rewrite Hn. eauto.
    + rewrite Hsame in Hm by (by intros [? _]). by eapply Hcompat.
  - rewrite Hs. intros Hex.
    destruct (Hord [] x l eq_refl) as [Hp|Hp].
    + rewrite Hp. specialize (Hsame []). rewrite !app_nil_r in *.
      unfold dir_at in *. rewrite node_at_nodes in * by done.
      rewrite Hsame; [done|]. intros [Hin _].
      by apply (Hnes []); [apply elem_of_app; left|].
    + rewrite app_nil_r in Hp.
      pose proof (Hwf0 _ Hex ltac:(by destruct source_path)) as Hpd.
      rewrite parent_app in Hpd by done.
      unfold dir_at in Hpd. rewrite node_at_nodes in Hpd by (by destruct source_path).
      destruct (nodes (fs w0) !! (source_path ++ parent x)) as [[]|] eqn:Hpn; try done.
      specialize (Hmir _ Hp). rewrite Hpn in Hmir. specialize (Hmir ltac:(eauto)).
      cbn in Hmir. unfold dir_at. rewrite node_at_nodes by (by destruct replica_path).
      by rewrite Hmir.
  - unfold synchronize_folders. cbn [for_each]. unfold bind at 1. rewrite Hrun.
    destruct (IH (done ++ [x]) w1) as (w' & Hloop & Hinv').
    + intros rel. rewrite <- app_assoc. apply Hnes.
    + intros l1 y l2 ->. rewrite <- app_assoc. apply (Hord (x :: l1) y l2 eq_refl).
    + split_and!.
      * by rewrite Hden1.
      * by eapply info_only_trans.
      * done.
      * intros q Hq. rewrite Hframe; [by apply Hout|].
        intros ->. apply Hq. by apply prefix_app_r.
      * intros rel Hin Hex. destruct (decide (rel = x)) as [->|Hne].
        -- rewrite <- Hs. apply Hmir1. by rewrite Hs.
        -- rewrite Hframe by (by intros ?%app_inv_head).
           apply Hmir; [|done]. apply elem_of_app in Hin as [?|Hin]; [done|].
           by apply list_elem_of_singleton in Hin.
      * intros rel Hnot. destruct (decide (rel = x)) as [->|Hne].
        -- assert (nodes (fs w0) !! (source_path ++ x) = None) as Hnone.
           { destruct (nodes (fs w0) !! (source_path ++ x)) eqn:E; [|done].
             exfalso. apply Hnot. split; [apply elem_of_app; right; left|eauto]. }
           rewrite Hskip by (by rewrite Hs). apply Hsame. rewrite Hnone. by intros [_ [??]].
        -- rewrite Hframe by (by intros ?%app_inv_head).
           apply Hsame. intros [Hin Hex]. apply Hnot. split; [|done].
           apply elem_of_app. by left.
    + fold (synchronize_folders md5 source_path replica_path l). rewrite Hloop.
      exists w'. split; [done|]. by rewrite <- app_assoc in Hinv'.
Qed.

Lemma well_formed_ancestor f p k :
  well_formed f → p ≠ [] → is_Some (nodes f !! (p ++ k)) → is_Some (nodes f !! p).
Proof.
  intros Hwf Hne. induction k as [|z k IH] using rev_ind; [by rewrite app_nil_r|].
  intros Hex. apply IH.
  specialize (Hwf _ Hex ltac:(by destruct p)).
  rewrite app_assoc, parent_snoc in Hwf. unfold dir_at in Hwf.
  rewrite node_at_nodes in Hwf by (by destruct p).
  destruct (nodes f !! (p ++ k)); [by eauto|done].
Qed.

Lemma sequential_pass_spec sched w :
  ¬ replica_path `prefix_of` source_path → ¬ source_path `prefix_of` replica_path →
  well_formed (fs w) →
  (∀ q, source_path `prefix_of` q ∨ replica_path `prefix_of` q → is_denied (fs w) q = false) →
  (∀ rel n m, nodes (fs w) !! (source_path ++ rel) = Some n →
              nodes (fs w) !! (replica_path ++ rel) = Some m → same_kind n m = true) →
  dir_at (fs w) replica_path = true →
  ∃ w', process_syncronization md5 source_path replica_path 1 sched w = (Ok tt, w') ∧
        (∀ q, ¬ replica_path `prefix_of` q → nodes (fs w') !! q = nodes (fs w) !! q) ∧
        nodes (fs w') !! replica_path = Some Dir ∧
        (∀ rel, rel ≠ [] → mirrors md5 (nodes (fs w) !! (source_path ++ rel))
                                       (nodes (fs w') !! (replica_path ++ rel))) ∧
        denied (fs w') = denied (fs w) ∧ info_only w w' ∧ well_formed (fs w').
Proof.
  intros Hrs Hsr Hwf Hden Hcompat Hroot.
  assert (source_path ≠ []) as Hsne by (intros ->; apply Hsr, prefix_nil).
  assert (replica_path ≠ []) as Hrne by (intros ->; apply Hrs, prefix_nil).
  destruct (get_items_chunks_tree source_path w Hwf) as (ls & Hgs & _ & Hord & Hls).
  destruct (get_items_chunks_tree replica_path w Hwf) as (lr & Hgr & _ & _ & Hlr).
  unfold process_syncronization, bind. rewrite (Hgs 1), (Hgr 1).
  rewrite bool_decide_eq_true_2 by done.
  unfold process_without_threads, bind.
  destruct (synchronize_folders_propagated ls [] w w) as (w1 & -> & Hinv); try done.
  { intros rel Hin. by apply Hls in Hin as [? _]. }
  { split_and!; [done|apply info_only_refl|done|done| |done].
    by intros rel ?%elem_of_nil. }
  cbn [app] in Hinv. destruct Hinv as (Hden1 & Hinfo1 & Hwf1 & Hout & Hmir & Hsame).
  destruct (clean_up_replica_cleared source_path replica_path lr w1) as (w2 & -> & Hc & Hi2 & Hwf2);
    try done.
  { intros q Hq. unfold is_denied. rewrite Hden1. apply Hden. by right. }
  pose proof (cleared_subseteq _ _ _ Hc) as Hsub.
  destruct Hc as [Hden2 Hlook].
  assert (∀ item, item ∈ stale_entries source_path replica_path w1 lr →
            ∃ i, item = replica_path ++ i ∧ i ≠ [] ∧
                 nodes (fs w) !! (source_path ++ i) = None) as Hstale.
  { intros item Hin. unfold stale_entries in Hin.
    apply list_elem_of_fmap in Hin as (i & -> & Hin).
    apply list_elem_of_filter in Hin as [Hno Hin]. apply Hlr in Hin as [Hi _].
    exists i. split_and!; [done..|].
    rewrite node_at_nodes in Hno by (by destruct source_path).
    rewrite Hout in Hno by (by apply disjoint_roots_source).
    destruct (nodes (fs w) !! (source_path ++ i)); [|done]. exfalso. eauto. }
  exists w2. split_and!.
  - done.
  - intros q Hq. rewrite <- Hout by done. apply Hlook.
    intros (item & Hin & Hpre)%Exists_exists.
    destruct (Hstale _ Hin) as (i & -> & _). apply Hq. etrans; [|done]. by apply prefix_app_r.
  - assert (nodes (fs w2) !! replica_path = nodes (fs w1) !! replica_path) as ->.
    { apply Hlook. intros (item & Hin & Hpre)%Exists_exists.
      destruct (Hstale _ Hin) as (i & -> & Hi & _). apply prefix_length in Hpre.
      rewrite length_app in Hpre. destruct i; [done|]. cbn in Hpre. lia. }
    specialize (Hsame []). rewrite !app_nil_r in Hsame. rewrite Hsame.
    + unfold dir_at in Hroot. rewrite node_at_nodes in Hroot by done.
      by destruct (nodes (fs w) !! replica_path) as [[]|].
    + intros [Hin _]. by apply Hls in Hin as [? _].
  - intros rel Hne. destruct (nodes (fs w) !! (source_path ++ rel)) as [n|] eqn:Hs.
    + assert (nodes (fs w2) !! (replica_path ++ rel)
              = nodes (fs w1) !! (replica_path ++ rel)) as ->.
      { apply Hlook. intros (item & Hin & Hpre)%Exists_exists.
        destruct (Hstale _ Hin) as (i & -> & Hi & Hnone).
        apply prefix_app_inv in Hpre as [k ->]. rewrite app_assoc in Hs.
        destruct (well_formed_ancestor (fs w) (source_path ++ i) k Hwf) as [? Hex];
          [by destruct source_path|by eauto|]. congruence. }
      rewrite <- Hs. apply Hmir; [|by rewrite Hs; eauto].
      apply Hls. split; [done|]. rewrite Hs. eauto.
    + cbn. destruct (nodes (fs w) !! (replica_path ++ rel)) as [m|] eqn:Hr.
      * apply Hlook. apply Exists_exists. exists (replica_path ++ rel). split; [|done].
        unfold stale_entries. apply list_elem_of_fmap. exists rel. split; [done|].
        apply list_elem_of_filter. split.
        -- rewrite node_at_nodes by (by destruct source_path).
           rewrite Hout by (by apply disjoint_roots_source). rewrite Hs. by intros [??].
        -- apply Hlr. split; [done|]. rewrite Hr. eauto.
      * eapply lookup_weaken_None; [|done]. rewrite Hsame; [done|].
        rewrite Hs. by intros [_ [??]].
  - by rewrite Hden2.
  - by eapply info_only_trans.
  - done.
Qed.

Lemma for_each_unchanged {A} (l : list A) (body : A → M unit) w :
  (∀ x, x ∈ l → body x w = (Ok tt, w)) → for_each l body w = (Ok tt, w).
Proof.
  induction l as [|x l IH]; intros Hbody; [done|].
  cbn [for_each]. unfold bind. rewrite Hbody by left.
  apply IH. intros y Hy. apply Hbody. by right.
Qed.

Lemma synchronize_item_unchanged rel w :
  rel ≠ [] →
  is_denied (fs w) (source_path ++ rel) = false →
  is_denied (fs w) (replica_path ++ rel) = false →
  mirrors md5 (nodes (fs w) !! (source_path ++ rel)) (nodes (fs w) !! (replica_path ++ rel)) →
  synchronize_item md5 source_path replica_path rel w = (Ok tt, w).
Proof.
  intros Hne Hds Hdr Hmir.
  assert (source_path ++ rel ≠ []) as Hsne by (by destruct source_path, rel).
  assert (replica_path ++ rel ≠ []) as Hrne by (by destruct replica_path, rel).
  assert (dir_at (fs w) (source_path ++ rel)
          = match nodes (fs w) !! (source_path ++ rel) with Some Dir => true | _ => false end)
    as Hdir by (unfold dir_at; by rewrite node_at_nodes).
  assert (file_at (fs w) (source_path ++ rel)
          = match nodes (fs w) !! (source_path ++ rel) with Some (File _) => true | _ => false end)
    as Hfile by (unfold file_at; by rewrite node_at_nodes).
  unfold synchronize_item, bind, is_dir, is_file. rewrite Hdir. clear Hdir.
  destruct (nodes (fs w) !! (source_path ++ rel)) as [[data|]|] eqn:Hs; cbv beta iota;
    rewrite ?Hfile; cbv beta iota; [| |done].
  - destruct Hmir as (data' & Hr & Hsum).
    unfold replicate_file, bind, path_exists. cbv beta iota.
    rewrite (node_at_nodes _ _ Hrne), Hr. rewrite bool_decide_eq_true_2 by eauto.
    rewrite (calculate_checksum_ok md5 _ _ data) by (by rewrite ?node_at_nodes).
    rewrite (calculate_checksum_ok md5 _ _ data') by (by rewrite ?node_at_nodes).
    rewrite bool_decide_eq_false_2; [done|]. intros H. by apply H.
  - cbn in Hmir. unfold create_folder, try_except, bind, path_exists.
    rewrite node_at_nodes, Hmir by done. by rewrite bool_decide_eq_true_2 by eauto.
Qed.

End Sequential_pass.

(** ** Passes under any interleaving *)

Section Any_interleaving.
Variable md5 : bytes → string.
Variables source_path replica_path : path.
Implicit Types (w : world) (q rel : path) (st : pool).

Lemma for_each_invariant {A} (P : world → Prop) (l : list A) (body : A → M unit) w r w' :
  (∀ x w1 r1 w2, x ∈ l → P w1 → body x w1 = (r1, w2) → P w2) →
  P w → for_each l body w = (r, w') → P w'.
Proof.
  revert w. induction l as [|x l IH]; intros w Hbody HP; cbn [for_each].
  { by intros [= <- <-]. }
  unfold bind. destruct (body x w) as [[[]|e|] w1] eqn:E.
  - apply IH; [|by eapply Hbody; [left|..]]. intros y ????. apply Hbody. by right.
  - intros [= <- <-]. by eapply Hbody; [left|..].
  - intros [= <- <-]. by eapply Hbody; [left|..].
Qed.

(** What holds of the shared world before a run of the pool and is kept by
    every iteration a started thread can make holds after the run,
    whatever the interleaving. *)
Lemma run_world_invariant prog (Q : target → path → Prop) (P : world → Prop) sched st st' :
  (∀ tg chunk, Start tg chunk ∈ prog → Forall (Q tg) chunk) →
  (∀ tg x w r w', Q tg x → P w →
     target_item md5 source_path replica_path tg x w = (r, w') → P w') →
  P (pworld st) →
  Forall (λ t, Forall (Q (th_target t)) (th_todo t)) (threads st) →
  run md5 source_path replica_path prog sched st = Some st' →
  P (pworld st').
Proof.
  intros Hprog Hitem. revert st. induction sched as [|c sched IH]; intros st HP Hth; cbn.
  { by intros [= <-]. }
  destruct (step md5 source_path replica_path prog c st) as [st1|] eqn:Hstep; [|done].
  apply IH; destruct c as [|i]; cbn in Hstep.
  - destruct (prog !! pc st) as [[tg chunk|i]|] eqn:Ha; [| |done].
    + by simplify_eq.
    + destruct (threads st !! i) as [[tg [|??]]|]; simplify_eq. done.
  - destruct (threads st !! i) as [[tg [|item todo]]|] eqn:Hi; [done| |done].
    destruct (target_item md5 source_path replica_path tg item (pworld st)) as [r w'] eqn:E.
    simplify_eq. cbn. eapply Hitem; [|done..].
    pose proof (Forall_lookup_1 _ _ _ _ Hth Hi) as Hq. cbn in Hq.
    by apply Forall_cons in Hq as [? _].
  - destruct (prog !! pc st) as [[tg chunk|i]|] eqn:Ha; [| |done].
    + simplify_eq. cbn. apply Forall_app. split; [done|]. apply Forall_singleton. cbn.
      eapply Hprog. by eapply list_elem_of_lookup_2.
    + destruct (threads st !! i) as [[tg [|??]]|]; simplify_eq. done.
  - destruct (threads st !! i) as [[tg [|item todo]]|] eqn:Hi; [done| |done].
    destruct (target_item md5 source_path replica_path tg item (pworld st)) as [r w'] eqn:E.
    simplify_eq. cbn. apply Forall_insert; [done|]. cbn.
    pose proof (Forall_lookup_1 _ _ _ _ Hth Hi) as Hq. cbn in Hq.
    apply Forall_cons in Hq as [_ Hq]. by destruct r.
Qed.

Lemma target_item_keeps_source tg x w r w' :
  ¬ replica_path `prefix_of` source_path → ¬ source_path `prefix_of` replica_path →
  target_item md5 source_path replica_path tg x w = (r, w') →
  ∀ q, source_path `prefix_of` q → nodes (fs w') !! q = nodes (fs w) !! q.
Proof.
  intros Hrs Hsr Hrun q Hq.
  assert (¬ replica_path `prefix_of` q) as Hout.
  { intros Hpre. destruct (prefix_weak_total replica_path source_path q); done. }
  destruct tg; cbn in Hrun.
  - apply synchronize_item_propagates in Hrun as (_ & _ & Hkeep & Hnew).
    destruct (nodes (fs w) !! q) as [n|] eqn:Hn.
    + rewrite <- Hn. apply Hkeep; [done|]. rewrite Hn. eauto.
    + destruct (nodes (fs w') !! q) as [m|] eqn:Hm; [|done].
      destruct (Hnew q Hn ltac:(eauto)) as [?|[_ Hpre]]; [done|].
      exfalso. apply Hsr. by etrans.
  - unfold clean_up_item, bind, path_exists in Hrun. cbv beta iota in Hrun.
    destruct (negb _).
    + destruct (delete_path_changes (replica_path ++ x) w) as (w1 & Hdel & _ & Hframe).
      rewrite Hdel in Hrun. injection Hrun as <- <-. apply Hframe.
      intros Hpre. apply Hout. etrans; [|done]. by apply prefix_app_r.
    + by injection Hrun as <- <-.
Qed.

(** X19. Whatever the number of threads, the interleaving and the
    failures on the way, a pass into a replica root that has no entry yet,
    over roots that do not lie inside one another, leaves every path at or
    below the source root as it was: no node is added, changed or removed
    there. *)
Theorem pass_never_touches_source n sched w r w' :
  ¬ replica_path `prefix_of` source_path → ¬ source_path `prefix_of` replica_path →
  children (fs w) replica_path = [] →
  process_syncronization md5 source_path replica_path n sched w = (r, w') →
  ∀ q, source_path `prefix_of` q → nodes (fs w') !! q = nodes (fs w) !! q.
Proof.
  intros Hrs Hsr _.
  set (P := λ w1 : world, ∀ q, source_path `prefix_of` q →
                               nodes (fs w1) !! q = nodes (fs w) !! q).
  assert (∀ tg x w1 r1 w2, P w1 →
            target_item md5 source_path replica_path tg x w1 = (r1, w2) → P w2) as Hitem.
  { intros tg x w1 r1 w2 HP Hrun q Hq.
    rewrite (target_item_keeps_source _ _ _ _ _ Hrs Hsr Hrun q Hq). by apply HP. }
  assert (∀ ls lr r1 w1,
            process_without_threads md5 source_path replica_path ls lr w = (r1, w1) → P w1)
    as Hseq.
  { intros ls lr r1 w1. unfold process_without_threads, bind.
    destruct (synchronize_folders md5 source_path replica_path ls w) as [[[]|e|] w2] eqn:E.
    - intros Hc. eapply (for_each_invariant P) in Hc; [done| |].
      + intros x ? ? ? _. apply (Hitem Clean_up_replica).
      + eapply (for_each_invariant P) in E; [done| |done].
        intros x ? ? ? _. apply (Hitem Synchronize_folders).
    - intros [= <- <-]. eapply (for_each_invariant P) in E; [done| |done].
      intros x ? ? ? _. apply (Hitem Synchronize_folders).
    - intros [= <- <-]. eapply (for_each_invariant P) in E; [done| |done].
      intros x ? ? ? _. apply (Hitem Synchronize_folders). }
  unfold process_syncronization, bind.
  rewrite (get_items_chunks_eq source_path). cbv zeta beta iota.
  case_bool_decide as Hn; rewrite (get_items_chunks_eq replica_path); cbv zeta beta iota;
    [rewrite bool_decide_eq_true_2 by done|rewrite bool_decide_eq_false_2 by done];
    [by apply Hseq|].
  case_bool_decide as Hn1; [|by apply Hseq].
  unfold run_threads.
  destruct (run _ _ _ _ _ _) as [st|] eqn:Hrun; [|by intros [= <- <-]].
  case_bool_decide; [|by intros [= <- <-]].
  intros [= <- <-].
  eapply (run_world_invariant _ (λ _ _, True) P) in Hrun; [done| | |done|done].
  - intros tg chunk _. by apply Forall_true.
  - intros tg x w1 r1 w2 _. apply Hitem.
Qed.

Lemma slice_step_elem_of {A} (sq : list A) i n x : x ∈ Chunks.slice_step sq i n → x ∈ sq.
Proof.
  unfold Chunks.slice_step. intros (k & _ & Hk)%list_elem_of_omap.
  by eapply list_elem_of_lookup_2.
Qed.

Lemma chunk_list_elem_of {A} (sq : list A) n chunk x :
  chunk ∈ Chunks.chunk_list sq n → x ∈ chunk → x ∈ sq.
Proof.
  unfold Chunks.chunk_list. intros (i & -> & _)%list_elem_of_fmap. apply slice_step_elem_of.
Qed.

Lemma process_with_threads_starts source_items replica_items tg chunk :
  Start tg chunk ∈ process_with_threads source_items replica_items →
  (tg = Synchronize_folders ∧ chunk ∈ source_items) ∨
  (tg = Clean_up_replica ∧ chunk ∈ replica_items).
Proof.
  unfold process_with_threads, batch. rewrite !elem_of_app, !list_elem_of_fmap.
  intros [[H|[H|H]]|[H|[H|H]]]; destruct H as (c & Heq & Hin); simplify_eq; eauto.
Qed.

Lemma mirrored_pass_unchanged n sched w :
  ¬ replica_path `prefix_of` source_path → ¬ source_path `prefix_of` replica_path →
  well_formed (fs w) →
  (∀ q, source_path `prefix_of` q ∨ replica_path `prefix_of` q → is_denied (fs w) q = false) →
  (∀ rel, rel ≠ [] → mirrors md5 (nodes (fs w) !! (source_path ++ rel))
                                 (nodes (fs w) !! (replica_path ++ rel))) →
  (n ≤ 1 → process_syncronization md5 source_path replica_path n sched w = (Ok tt, w)) ∧
  (∀ r w', process_syncronization md5 source_path replica_path n sched w = (r, w') → w' = w).
Proof.
  intros Hrs Hsr Hwf Hden Hmir.
  assert (source_path ≠ []) as Hsne by (intros ->; apply Hsr, prefix_nil).
  destruct (get_items_chunks_tree source_path w Hwf) as (ls & Hgs & _ & _ & Hls).
  destruct (get_items_chunks_tree replica_path w Hwf) as (lr & Hgr & _ & _ & Hlr).
  assert (∀ rel, rel ∈ ls →
            synchronize_item md5 source_path replica_path rel w = (Ok tt, w)) as Hsync.
  { intros rel [Hne Hex]%Hls. apply synchronize_item_unchanged; [done| | |by apply Hmir].
    - apply Hden. left. by apply prefix_app_r.
    - apply Hden. right. by apply prefix_app_r. }
  assert (∀ rel, rel ∈ lr → clean_up_item source_path replica_path rel w = (Ok tt, w))
    as Hclean.
  { intros rel [Hne Hex]%Hlr. unfold clean_up_item, bind, path_exists.
    rewrite node_at_nodes by (by destruct source_path).
    specialize (Hmir rel Hne).
    destruct (nodes (fs w) !! (source_path ++ rel)) eqn:Hs.
    + by rewrite bool_decide_eq_true_2 by eauto.
    + cbn in Hmir. rewrite Hmir in Hex. by destruct Hex. }
  assert (∀ l1 l2, l1 ⊆ ls → l2 ⊆ lr →
            process_without_threads md5 source_path replica_path l1 l2 w = (Ok tt, w)) as Hseq.
  { intros l1 l2 H1 H2.
    unfold process_without_threads, bind, synchronize_folders, clean_up_replica.
    rewrite for_each_unchanged by (intros; by apply Hsync, H1).
    apply for_each_unchanged. intros. by apply Hclean, H2. }
  assert (∀ c, c ∈ concat (Chunks.chunk_list ls n) → c ∈ ls) as Hcs.
  { intros c Hc. rewrite <- (list_fmap_id (Chunks.chunk_list ls n)) in Hc.
    apply elem_of_concat_fmap in Hc as (chunk & Hc & Hin). by eapply chunk_list_elem_of. }
  assert (∀ c, c ∈ concat (Chunks.chunk_list lr n) → c ∈ lr) as Hcr.
  { intros c Hc. rewrite <- (list_fmap_id (Chunks.chunk_list lr n)) in Hc.
    apply elem_of_concat_fmap in Hc as (chunk & Hc & Hin). by eapply chunk_list_elem_of. }
  unfold process_syncronization, bind. rewrite (Hgs n), (Hgr n).
  case_bool_decide as Hn.
  { split; [intros _; by apply Hseq|]. intros r w'. rewrite Hseq by done. by intros [= _ <-]. }
  case_bool_decide as Hn1.
  2:{ split; [intros _; by apply Hseq|]. intros r w'. rewrite Hseq by done. by intros [= _ <-]. }
  split; [lia|]. intros r w'. unfold run_threads.
  destruct (run _ _ _ _ _ _) as [st|] eqn:Hrun; [|by intros [= _ <-]].
  case_bool_decide; [|by intros [= _ <-]].
  intros [= _ <-].
  eapply (run_world_invariant _
            (λ tg x, target_item md5 source_path replica_path tg x w = (Ok tt, w))
            (λ w1, w1 = w)) in Hrun; [done| | |done|done].
  - intros tg chunk [[-> Hin]|[-> Hin]]%process_with_threads_starts;
      apply Forall_forall; intros x Hx; cbn.
    + eapply Hsync, chunk_list_elem_of; done.
    + eapply Hclean, chunk_list_elem_of; done.
  - intros tg x w1 r1 w2 HQ ->. rewrite HQ. by intros [= _ <-].
Qed.
(** X20. A pass over a replica that already mirrors the source changes
    nothing and logs nothing, whatever the number of threads and the
    interleaving; without threads it returns normally. *)
Theorem mirrored_pass_changes_nothing n sched w :
  ¬ replica_path `prefix_of` source_path → ¬ source_path `prefix_of` replica_path →
  well_formed (fs w) →
  (∀ q, source_path `prefix_of` q ∨ replica_path `prefix_of` q → is_denied (fs w) q = false) →
  (∀ rel, rel ≠ [] → mirrors md5 (nodes (fs w) !! (source_path ++ rel))
                                 (nodes (fs w) !! (replica_path ++ rel))) →
  (n ≤ 1 → process_syncronization md5 source_path replica_path n sched w = (Ok tt, w)) ∧
  (∀ r w', process_syncronization md5 source_path replica_path n sched w = (r, w') → w' = w).
Proof. apply mirrored_pass_unchanged. Qed.

End Any_interleaving.

(** ** What a pass removes *)

Section Removals.
Variable md5 : bytes → string.
Variables source_path replica_path : path.
Implicit Types (w : world) (q rel : path) (st : pool).

(** What [glob] lists exists and lies below the root; no well-formedness is
    needed for that. *)
Lemma get_items_chunks_sound root w rel :
  rel ∈ relative_to root <$>
        concat (children (fs w) <$> iterate_directories (depth (fs w)) (fs w) root) →
  rel ≠ [] ∧ is_Some (nodes (fs w) !! (root ++ rel)).
Proof.
  intros (q & -> & Hq)%list_elem_of_fmap.
  apply elem_of_concat_fmap in Hq as (x & (Hex & Hne & Hpar)%children_spec & Hx).
  destruct (child_name _ _ Hne Hpar) as [name ->].
  assert (root `prefix_of` x) as [k ->].
  { apply iterate_directories_sound in Hx as [->|[Hb _]]; [done|by apply below_prefix]. }
  rewrite <- app_assoc, relative_to_app. split; [by destruct k|]. by rewrite <- app_assoc in Hex.
Qed.

Lemma target_item_removes_stale w tg x w1 r w2 :
  ¬ replica_path `prefix_of` source_path → ¬ source_path `prefix_of` replica_path →
  (tg = Clean_up_replica → x ≠ [] ∧ is_Some (nodes (fs w) !! (replica_path ++ x))) →
  (∀ q, source_path `prefix_of` q → nodes (fs w1) !! q = nodes (fs w) !! q) →
  (∀ q, is_Some (nodes (fs w) !! q) → nodes (fs w1) !! q = None → stale_in source_path replica_path w q) →
  target_item md5 source_path replica_path tg x w1 = (r, w2) →
  ∀ q, is_Some (nodes (fs w) !! q) → nodes (fs w2) !! q = None → stale_in source_path replica_path w q.
Proof.
  intros Hrs Hsr Hx Hsrc Hinv Hrun q Hq Hgone.
  destruct tg; cbn in Hrun.
  - apply synchronize_item_propagates in Hrun as (_ & Hstay & _).
    apply Hinv; [done|]. destruct (nodes (fs w1) !! q) eqn:E; [|done].
    destruct (Hstay q ltac:(eauto)) as [? ?]. congruence.
  - destruct (Hx eq_refl) as [Hne Hex].
    unfold clean_up_item, bind, path_exists in Hrun. cbv beta iota in Hrun.
    assert (node_at (fs w1) (source_path ++ x) = node_at (fs w) (source_path ++ x)) as Hsx.
    { unfold node_at. destruct (source_path ++ x) eqn:E; [done|]. rewrite <- E.
      apply Hsrc. by apply prefix_app_r. }
    rewrite Hsx in Hrun.
    destruct (node_at (fs w) (source_path ++ x)) as [n|] eqn:Hn.
    + rewrite bool_decide_eq_true_2 in Hrun by eauto. cbn in Hrun.
      injection Hrun as <- <-. by apply Hinv.
    + rewrite bool_decide_eq_false_2 in Hrun by (by intros [??]). cbn in Hrun.
      destruct (delete_path_changes (replica_path ++ x) w1) as (w3 & Hdel & _ & Hframe).
      rewrite Hdel in Hrun. injection Hrun as <- <-.
      destruct (decide ((replica_path ++ x) `prefix_of` q)) as [Hpre|Hpre].
      * by exists x.
      * apply Hinv; [done|]. by rewrite <- Hframe.
Qed.

(** X22. Whatever the number of threads and the interleaving, when a pass
    over roots that do not lie inside one another has logged nothing but
    INFO records, a node that it has removed lay at or below a replica
    entry that existed when the pass began and had no counterpart in the
    source; in particular the replica root itself was not removed. *)
Theorem pass_removes_only_stale n sched w r w' :
  ¬ replica_path `prefix_of` source_path → ¬ source_path `prefix_of` replica_path →
  process_syncronization md5 source_path replica_path n sched w = (r, w') →
  info_only w w' →
  ∀ q, is_Some (nodes (fs w) !! q) → nodes (fs w') !! q = None →
       stale_in source_path replica_path w q.
Proof.
  intros Hrs Hsr Hpass _. revert Hpass.
  set (lr := relative_to replica_path <$>
             concat (children (fs w) <$>
                     iterate_directories (depth (fs w)) (fs w) replica_path)).
  set (ls := relative_to source_path <$>
             concat (children (fs w) <$>
                     iterate_directories (depth (fs w)) (fs w) source_path)).
  set (P := λ w1 : world,
         (∀ q, source_path `prefix_of` q → nodes (fs w1) !! q = nodes (fs w) !! q) ∧
         (∀ q, is_Some (nodes (fs w) !! q) → nodes (fs w1) !! q = None → stale_in source_path replica_path w q)).
  set (Q := λ (tg : target) (x : path), tg = Clean_up_replica → x ∈ lr).
  assert (P w) as HP0.
  { split; [done|]. intros q [m Hm] Hq. congruence. }
  assert (∀ tg x w1 r1 w2, Q tg x → P w1 →
            target_item md5 source_path replica_path tg x w1 = (r1, w2) → P w2) as Hitem.
  { intros tg x w1 r1 w2 HQ [Hsrc Hinv] Hrun. split.
    - intros q Hq. rewrite (target_item_keeps_source _ _ _ _ _ _ _ _ Hrs Hsr Hrun q Hq).
      by apply Hsrc.
    - eapply target_item_removes_stale; [done|done| |done|done|done].
      intros Htg. by apply get_items_chunks_sound, HQ. }
  assert (∀ l1 l2 r1 w1, l2 ⊆ lr →
            process_without_threads md5 source_path replica_path l1 l2 w = (r1, w1) → P w1)
    as Hseq.
  { intros l1 l2 r1 w1 Hl2. unfold process_without_threads, bind.
    destruct (synchronize_folders md5 source_path replica_path l1 w) as [[[]|e|] w2] eqn:E;
      (eapply (for_each_invariant P) in E;
        [|intros x ???? ; by apply (Hitem Synchronize_folders)|done]).
    - intros Hc. eapply (for_each_invariant P) in Hc; [done| |done].
      intros x ??? Hin. apply (Hitem Clean_up_replica). intros _. by apply Hl2.
    - by intros [= <- <-].
    - by intros [= <- <-]. }
  assert (∀ c, c ∈ concat (Chunks.chunk_list lr n) → c ∈ lr) as Hcr.
  { intros c Hc. rewrite <- (list_fmap_id (Chunks.chunk_list lr n)) in Hc.
    apply elem_of_concat_fmap in Hc as (chunk & Hc & Hin). by eapply chunk_list_elem_of. }
  unfold process_syncronization, bind.
  rewrite (get_items_chunks_eq source_path). cbv zeta beta iota.
  case_bool_decide as Hn; rewrite (get_items_chunks_eq replica_path); cbv zeta beta iota;
    [rewrite bool_decide_eq_true_2 by done|rewrite bool_decide_eq_false_2 by done].
  { intros Hrun. by apply (Hseq ls lr r w' ltac:(done) Hrun). }
  case_bool_decide as Hn1; [|intros Hrun; by apply (Hseq _ (concat (Chunks.chunk_list lr n)) r w' Hcr Hrun)].
  unfold run_threads.
  destruct (run _ _ _ _ _ _) as [st|] eqn:Hrun; [|intros [= <- <-]; apply HP0].
  case_bool_decide; [|intros [= <- <-]; apply HP0].
  intros [= <- <-].
  eapply (run_world_invariant _ _ _ _ Q P) in Hrun; [by apply Hrun|..|done|done].
  - intros tg chunk [[-> Hin]|[-> Hin]]%process_with_threads_starts;
      apply Forall_forall; intros x Hx; [done|].
    intros _. by eapply chunk_list_elem_of.
  - done.
Qed.
End Removals.

(** ** The decidable conditions are sound *)

Section Checks.
Variable md5 : bytes → string.
Implicit Types (f : filesystem) (q rel : path).

Lemma forallb_elem_of {A} (g : A → bool) (l : list A) x :
  forallb g l = true → x ∈ l → g x = true.
Proof.
  intros H%Is_true_true_2%forallb_True Hin. rewrite Forall_forall in H.
  by apply Is_true_true_1, H.
Qed.

Lemma well_formedb_correct f : well_formedb f = true → well_formed f.
Proof.
  unfold well_formedb. intros Hall q [n Hn] Hne.
  apply (forallb_elem_of _ _ q) in Hall.
  - cbv beta in Hall. by rewrite bool_decide_eq_false_2 in Hall.
  - apply list_elem_of_fmap. exists (q, n). split; [done|]. by apply elem_of_map_to_list.
Qed.

Lemma compatibleb_correct source_path replica_path f :
  compatibleb source_path replica_path f = true →
  ∀ rel n m, nodes f !! (source_path ++ rel) = Some n →
             nodes f !! (replica_path ++ rel) = Some m → same_kind n m = true.
Proof.
  unfold compatibleb. intros Hall rel n m Hn Hm.
  apply (forallb_elem_of _ _ (source_path ++ rel, n)) in Hall;
    [|by apply elem_of_map_to_list]. cbn in Hall.
  by rewrite decide_True, relative_to_app, Hm in Hall by (by apply prefix_app_r).
Qed.

Lemma mirroredb_correct source_path replica_path f :
  mirroredb md5 source_path replica_path f = true →
  ∀ rel, rel ≠ [] → mirrors md5 (nodes f !! (source_path ++ rel))
                                (nodes f !! (replica_path ++ rel)).
Proof.
  unfold mirroredb. intros Hall rel Hne.
  assert (∀ p, p ++ rel ≠ p) as Hp.
  { intros p Heq. apply (f_equal length) in Heq. rewrite length_app in Heq.
    destruct rel; [done|]. cbn in Heq. lia. }
  destruct (nodes f !! (source_path ++ rel)) as [n|] eqn:Hn.
  - apply (forallb_elem_of _ _ (source_path ++ rel, n)) in Hall;
      [|by apply elem_of_map_to_list]. cbn in Hall.
    rewrite decide_True, relative_to_app in Hall by (by apply prefix_app_r).
    rewrite bool_decide_eq_false_2 in Hall by done.
    apply andb_prop in Hall as [Hall _]. cbn in Hall. destruct n as [data|], (nodes f !! (replica_path ++ rel)) as [[data'|]|];
      try done. cbn. exists data'. split; [done|]. by apply bool_decide_eq_true in Hall.
  - cbn. destruct (nodes f !! (replica_path ++ rel)) as [m|] eqn:Hm; [|done].
    apply (forallb_elem_of _ _ (replica_path ++ rel, m)) in Hall;
      [|by apply elem_of_map_to_list]. cbn in Hall.
    apply andb_prop in Hall as [_ Hall].
    rewrite decide_True, relative_to_app in Hall by (by apply prefix_app_r).
    rewrite bool_decide_eq_false_2 in Hall by done. cbn in Hall.
    apply bool_decide_eq_true in Hall. rewrite Hn in Hall. by destruct Hall.
Qed.

Lemma nothing_denied f q : denied f = [] → is_denied f q = false.
Proof. intros H. unfold is_denied. rewrite H. by apply bool_decide_eq_false_2, not_elem_of_nil. Qed.
End Checks.

(** ** Further closed runs *)

Section Further_closed_runs.
Import Examples Trees.
Local Open Scope string_scope.
Local Open Scope nat_scope.
Local Open Scope list_scope.

Lemma roots_apart : ¬ rep `prefix_of` src ∧ ¬ src `prefix_of` rep.
Proof. split; by intros [k [=]]. Qed.

Lemma chunk_list_balanced_witness :
  0 ≤ 1 ∧ 1 < 2 ∧
  Chunks.chunk_list [10; 11; 12; 13; 14] 2 !! 0 = Some [10; 12; 14] ∧
  Chunks.chunk_list [10; 11; 12; 13; 14] 2 !! 1 = Some [11; 13] ∧
  length [11; 13] ≤ length [10; 12; 14] ≤ length [11; 13] + 1.
Proof.
  split; [lia|]. split; [lia|]. split; [reflexivity|]. split; [reflexivity|].
  apply (chunk_list_balanced [10; 11; 12; 13; 14] 2 0 1); [lia|lia|reflexivity|reflexivity].
Defined.

Lemma chunk_list_more_workers_witness :
  length [["a.txt"]; ["d"]] ≤ 4 ∧
  Chunks.chunk_list [["a.txt"]; ["d"]] 4 = [[["a.txt"]]; [["d"]]; []; []].
Proof.
  split; [cbn; lia|].
  apply (chunk_list_more_workers [["a.txt"]; ["d"]] 4). cbn. lia.
Defined.

Lemma create_folder_result_witness :
  ∃ w', create_folder ["rep"; "d"; "e"] missing_in_replica = (Ok tt, w') ∧
        is_Some (node_at (fs w') ["rep"; "d"; "e"]) ∧
        create_folder ["rep"; "d"; "e"] w' = (Ok tt, w').
Proof.
  destruct (create_folder ["rep"; "d"; "e"] missing_in_replica) as [[[]|e|] w'] eqn:Hrun;
    [|vm_compute in Hrun; discriminate..].
  exists w'. split; [reflexivity|].
  destruct (create_folder_result ["rep"; "d"; "e"] missing_in_replica w' Hrun)
    as (H1 & _ & _ & _ & _ & H2).
  exact (conj H1 H2).
Defined.

Lemma create_folder_creates_witness :
  clear_way (fs missing_in_replica) ["rep"; "d"; "e"] ∧
  node_at (fs missing_in_replica) ["rep"; "d"; "e"] = None ∧
  ∃ w', create_folder ["rep"; "d"; "e"] missing_in_replica = (Ok tt, w') ∧
        dir_at (fs w') ["rep"; "d"; "e"] = true ∧
        log w' = log missing_in_replica ++ [(INFO, Created_folder ["rep"; "d"; "e"])].
Proof.
  assert (clear_way (fs missing_in_replica) ["rep"; "d"; "e"]) as Hc.
  { intros k Hk. destruct k as [|[|[|[|k]]]]; [by vm_compute..|cbn in Hk; lia]. }
  split; [exact Hc|]. split; [reflexivity|].
  apply (create_folder_creates ["rep"; "d"; "e"] missing_in_replica Hc). reflexivity.
Defined.

Lemma create_folder_failure_witness :
  ∃ e w', create_folder ["rep"; "a"; "x"] file_over_directory = (Raise e, w') ∧
          is_OSError e = true ∧
          log w' = log file_over_directory
                   ++ [(ERROR, Failed_to_create_folder ["rep"; "a"; "x"] e)].
Proof.
  destruct (create_folder ["rep"; "a"; "x"] file_over_directory) as [[[]|e|] w'] eqn:Hrun;
    [vm_compute in Hrun; discriminate| |vm_compute in Hrun; discriminate].
  exists e, w'. split; [reflexivity|].
  destruct (create_folder_failure ["rep"; "a"; "x"] file_over_directory e w' Hrun)
    as (H1 & H2 & _).
  exact (conj H1 H2).
Defined.

Lemma copy_or_replace_file_chunk_size_witness :
  ["src"; "a.txt"] ≠ ["rep"; "a.txt"] ∧
  node_at (fs missing_in_replica) ["src"; "a.txt"] = Some (File (content "X")) ∧
  copy_or_replace_file ["src"; "a.txt"] ["rep"; "a.txt"] false 0 missing_in_replica
  = (Ok tt,
     World (FS (<[["rep"; "a.txt"] := File []]> (nodes (fs missing_in_replica))) [])
           [(INFO, File_copied ["src"; "a.txt"] ["rep"; "a.txt"])]).
Proof.
  split; [done|]. split; [reflexivity|].
  apply (copy_or_replace_file_chunk_size ["src"; "a.txt"] ["rep"; "a.txt"] false 0
           missing_in_replica (content "X"));
    [done|reflexivity|reflexivity|reflexivity|right; split; reflexivity].
Defined.

Lemma replicate_file_postcondition_witness :
  ∃ w', replicate_file plain_digest ["src"; "a.txt"] ["rep"; "a.txt"] different_content
        = (Ok tt, w') ∧
        info_only different_content w' ∧
        ∃ ds dr, node_at (fs w') ["src"; "a.txt"] = Some (File ds) ∧
                 node_at (fs w') ["rep"; "a.txt"] = Some (File dr) ∧
                 plain_digest ds = plain_digest dr.
Proof.
  destruct (replicate_file plain_digest ["src"; "a.txt"] ["rep"; "a.txt"] different_content)
    as [[[]|e|] w'] eqn:Hrun; [|vm_compute in Hrun; discriminate..].
  assert (info_only different_content w') as Hinfo.
  { vm_compute in Hrun. injection Hrun as <-.
    exists [(INFO, File_replaced ["rep"; "a.txt"] ["src"; "a.txt"])].
    split; [reflexivity|]. by repeat constructor. }
  exists w'. split; [reflexivity|]. split; [exact Hinfo|].
  exact (replicate_file_postcondition plain_digest _ _ _ _ Hrun Hinfo).
Defined.

Lemma nested_well_formed : well_formed (fs nested).
Proof. apply well_formedb_correct. by vm_compute. Qed.

Lemma nested_undenied q : src `prefix_of` q ∨ rep `prefix_of` q → is_denied (fs nested) q = false.
Proof. intros _. by apply nothing_denied. Qed.



Lemma synchronize_folders_frame_witness :
  children (fs refused_folder) rep = [] ∧
  ∃ e w', synchronize_folders plain_digest src rep [["d"]; ["d"; "f.txt"]] refused_folder
          = (Raise e, w') ∧
          only_propagates rep refused_folder w'.
Proof.
  split; [reflexivity|].
  destruct (synchronize_folders plain_digest src rep [["d"]; ["d"; "f.txt"]] refused_folder)
    as [[[]|e|] w'] eqn:Hrun;
    [vm_compute in Hrun; discriminate| |vm_compute in Hrun; discriminate].
  exists e, w'. split; [reflexivity|].
  exact (synchronize_folders_frame plain_digest src rep _ refused_folder _ _ eq_refl Hrun).
Defined.

Lemma clean_up_replica_frame_witness :
  ¬ rep `prefix_of` src ∧ ¬ src `prefix_of` rep ∧
  ∃ w', clean_up_replica src rep [["a.txt"]; ["old"]; ["old"; "g.txt"]] nested = (Ok tt, w') ∧
        info_only nested w' ∧
        nodes (fs w') ⊆ nodes (fs nested) ∧
        nodes (fs w') !! ["src"; "d"; "f.txt"] = nodes (fs nested) !! ["src"; "d"; "f.txt"] ∧
        nodes (fs w') !! ["rep"; "a.txt"] = nodes (fs nested) !! ["rep"; "a.txt"].
Proof.
  destruct roots_apart as [Hrs Hsr]. split; [exact Hrs|]. split; [exact Hsr|].
  destruct (clean_up_replica src rep [["a.txt"]; ["old"]; ["old"; "g.txt"]] nested)
    as [r w'] eqn:Hrun.
  assert (info_only nested w') as Hinfo.
  { vm_compute in Hrun. injection Hrun as <- <-.
    exists [(INFO, Deleted_folder ["rep"; "old"])]. split; [reflexivity|].
    by repeat constructor. }
  destruct (clean_up_replica_frame src rep _ nested r w' Hrs Hsr
              (λ q Hq, nested_undenied q (or_introl Hq)) Hrun Hinfo)
    as (-> & Hsub & Hout & Hkeep).
  exists w'. split; [reflexivity|]. split; [exact Hinfo|]. split; [exact Hsub|]. split.
  - apply Hout. by intros [k [=]].
  - apply Hkeep. intros item Hin Hpre.
    apply elem_of_cons in Hin as [->|Hin]; [vm_compute; by eexists|].
    apply elem_of_cons in Hin as [->|Hin]; [by destruct Hpre as [k [=]]|].
    apply list_elem_of_singleton in Hin as ->. by destruct Hpre as [k [=]].
Defined.


Lemma process_with_threads_bounded_witness :
  ∃ st,
    run plain_digest src rep
        (process_with_threads [[["a.txt"]]; []] [[["stale.txt"]]; []])
        prune_first (spawn unsynced) = Some st ∧
    length prune_first
    ≤ 4 * (length [[["a.txt"]]; []] + length [[["stale.txt"]]; []])
      + 2 * (length (concat [[["a.txt"]]; []]) + length (concat [[["stale.txt"]]; []])).
Proof.
  destruct (run plain_digest src rep
              (process_with_threads [[["a.txt"]]; []] [[["stale.txt"]]; []])
              prune_first (spawn unsynced)) as [st|] eqn:Hrun;
    [|vm_compute in Hrun; discriminate].
  exists st. split; [reflexivity|].
  exact (process_with_threads_bounded plain_digest src rep _ _ _ _ _ Hrun).
Defined.



Lemma nested_compatible rel n m :
  nodes (fs nested) !! (src ++ rel) = Some n → nodes (fs nested) !! (rep ++ rel) = Some m →
  same_kind n m = true.
Proof. apply compatibleb_correct. by vm_compute. Qed.


Lemma pass_never_touches_source_witness :
  ¬ rep `prefix_of` src ∧ ¬ src `prefix_of` rep ∧
  children (fs no_parent) rep = [] ∧
  ∃ w', process_syncronization plain_digest src rep 2 file_before_folder no_parent
        = (Ok tt, w') ∧
        ∀ q, src `prefix_of` q → nodes (fs w') !! q = nodes (fs no_parent) !! q.
Proof.
  destruct roots_apart as [Hrs Hsr]. split; [exact Hrs|]. split; [exact Hsr|].
  split; [reflexivity|].
  destruct (process_syncronization plain_digest src rep 2 file_before_folder no_parent)
    as [[[]|e|] w'] eqn:Hrun; [|vm_compute in Hrun; discriminate..].
  exists w'. split; [reflexivity|].
  exact (pass_never_touches_source plain_digest src rep 2 file_before_folder no_parent
           (Ok tt) w' Hrs Hsr eq_refl Hrun).
Defined.

Lemma same_content_well_formed : well_formed (fs same_content).
Proof. apply well_formedb_correct. by vm_compute. Qed.

Lemma same_content_undenied q :
  src `prefix_of` q ∨ rep `prefix_of` q → is_denied (fs same_content) q = false.
Proof. intros _. by apply nothing_denied. Qed.

Lemma same_content_mirrored rel :
  rel ≠ [] → mirrors plain_digest (nodes (fs same_content) !! (src ++ rel))
                                  (nodes (fs same_content) !! (rep ++ rel)).
Proof. apply mirroredb_correct. by vm_compute. Qed.

Lemma mirrored_pass_changes_nothing_witness :
  well_formed (fs same_content) ∧
  process_syncronization plain_digest src rep 1 [] same_content = (Ok tt, same_content) ∧
  ∀ r w', process_syncronization plain_digest src rep 2 prune_first same_content = (r, w') →
          w' = same_content.
Proof.
  destruct roots_apart as [Hrs Hsr].
  split; [exact same_content_well_formed|]. split.
  - apply (mirrored_pass_changes_nothing plain_digest src rep 1 [] same_content Hrs Hsr
             same_content_well_formed same_content_undenied same_content_mirrored). lia.
  - apply (mirrored_pass_changes_nothing plain_digest src rep 2 prune_first same_content
             Hrs Hsr same_content_well_formed same_content_undenied same_content_mirrored).
Defined.

Lemma pass_removes_only_stale_witness :
  ¬ rep `prefix_of` src ∧ ¬ src `prefix_of` rep ∧
  ∃ r w', process_syncronization plain_digest src rep 2 prune_first unsynced = (r, w') ∧
          info_only unsynced w' ∧
          is_Some (nodes (fs unsynced) !! ["rep"; "stale.txt"]) ∧
          nodes (fs w') !! ["rep"; "stale.txt"] = None ∧
          stale_in src rep unsynced ["rep"; "stale.txt"].
Proof.
  destruct roots_apart as [Hrs Hsr]. split; [exact Hrs|]. split; [exact Hsr|].
  destruct (process_syncronization plain_digest src rep 2 prune_first unsynced)
    as [r w'] eqn:Hrun.
  assert (info_only unsynced w') as Hinfo.
  { vm_compute in Hrun. injection Hrun as <- <-.
    exists [(INFO, Deleted_file ["rep"; "stale.txt"]);
            (INFO, File_copied ["src"; "a.txt"] ["rep"; "a.txt"])].
    split; [reflexivity|]. by repeat constructor. }
  assert (is_Some (nodes (fs unsynced) !! ["rep"; "stale.txt"])) as Hex.
  { vm_compute. by eexists. }
  assert (nodes (fs w') !! ["rep"; "stale.txt"] = None) as Hgone.
  { vm_compute in Hrun. injection Hrun as <- <-. reflexivity. }
  exists r, w'. split; [reflexivity|]. split; [exact Hinfo|]. split; [exact Hex|].
  split; [exact Hgone|].
  exact (pass_removes_only_stale plain_digest src rep 2 prune_first unsynced r w'
           Hrs Hsr Hrun Hinfo _ Hex Hgone).
Defined.
End Further_closed_runs.
